(** * Stylelint ignore-list maintenance scripts

    A shallow embedding of the two scripts of the repository,

    - [scripts/stylelint/compressStylelintIgnore] (the manifest compactor),
    - the script of [deleteStylelintIgnore] (the manifest eliminator),

    with the helpers they load ([isFileExists],
    [determinateSizeAndLengthFile]), and the properties of the suppression
    planner and writer, of the disable-comment filter and of the two
    scripts.

    How the program is read:

    - a JavaScript string is a string of bytes, and white space is the
      ASCII white space;
    - a number is an integer or [NaN] ([option Z], [None] for [NaN]);
      the line numbers of the lint engine are integers;
    - a [Map] or a [Set] is the list of its entries in insertion order,
      the order JavaScript iterates them in; an entry deleted while the
      loop is at it does not disturb the loop;
    - the file system is a finite map from paths to contents; reading a
      path that is not there throws, renaming moves the content and
      replaces what was at the new path;
    - the console is the list of the messages printed so far;
    - every [await] is taken in turn: a script is a computation on the
      world that returns or throws ([M]);
    - the lint engine ([stylelint.lint]), the pattern expansion
      ([glob.sync]) and [JSON.parse] are the fields of the class
      [Externals]; the first two read the file system and do not change
      it. *)

From Stdlib Require Import ZArith Ascii String DecimalString DecimalZ Sorted.
From stdpp Require Import base option list strings gmap.

Local Open Scope Z_scope.

(** ** Strings *)

Module Js.

Definition LF : ascii := "010".
Definition CR : ascii := "013".

(** The string of one line feed. *)
Definition newline : string := String LF EmptyString.

(** White space, as [String.prototype.trim] and the class [\s] of regular
    expressions see it (the ASCII part: TAB, LF, VT, FF, CR, space). *)
Definition isSpace (c : ascii) : bool :=
  let n := nat_of_ascii c in
  ((9 <=? n)%nat && (n <=? 13)%nat) || (n =? 32)%nat.

Fixpoint trimStart (s : string) : string :=
  match s with
  | EmptyString => EmptyString
  | String c s' => if isSpace c then trimStart s' else s
  end.

Fixpoint trimEnd (s : string) : string :=
  match s with
  | EmptyString => EmptyString
  | String c s' =>
      match trimEnd s' with
      | EmptyString => if isSpace c then EmptyString else String c EmptyString
      | t => String c t
      end
  end.

Definition trim (s : string) : string := trimEnd (trimStart s).

(** [s.split(sep)] for a separator of one character: never the empty
    array. *)
Fixpoint split (sep : ascii) (s : string) : list string :=
  match s with
  | EmptyString => [EmptyString]
  | String c s' =>
      if Ascii.eqb c sep then EmptyString :: split sep s'
      else match split sep s' with
           | [] => [String c EmptyString]
           | h :: t => String c h :: t
           end
  end.

(** [parts.join(sep)]. *)
Fixpoint join (sep : string) (parts : list string) : string :=
  match parts with
  | [] => EmptyString
  | [x] => x
  | x :: rest => x +:+ sep +:+ join sep rest
  end.

(** [s.startsWith(p)], and the rest of [s] after [p]. *)
Fixpoint stripPrefix (p s : string) : option string :=
  match p, s with
  | EmptyString, _ => Some s
  | String a p', String b s' =>
      if Ascii.eqb a b then stripPrefix p' s' else None
  | String _ _, EmptyString => None
  end.

Fixpoint revString (acc s : string) : string :=
  match s with
  | EmptyString => acc
  | String c s' => revString (String c acc) s'
  end.

Definition endsWith (s suffix : string) : bool :=
  bool_decide (is_Some (stripPrefix (revString EmptyString suffix)
                                    (revString EmptyString s))).

(** The string of an integer, as a template literal renders it. *)
Definition ToString (z : Z) : string := NilZero.string_of_int (Z.to_int z).

(** [Number(s)] on the decimal integer literals, the only numerals that
    reach it (they are cut out of keys that [ToString] rendered); every
    other string is taken to [NaN]. *)
Definition Number (s : string) : option Z :=
  Z.of_int <$> NilZero.int_of_string s.

(** [Number(parts[i])]: [Number(undefined)] is [NaN]. *)
Definition NumberAt (parts : list string) (i : nat) : option Z :=
  parts !! i ≫= Number.

(** Where [Array.prototype.splice] starts, from its first argument:
    [NaN] is 0, a negative start counts from the end, and the result is
    clamped to the array. *)
Definition spliceStart (len : nat) (start : option Z) : nat :=
  match start with
  | None => 0%nat
  | Some z =>
      if z <? 0 then Z.to_nat (Z.max (Z.of_nat len + z) 0)
      else Z.to_nat (Z.min z (Z.of_nat len))
  end.

(** [arr.splice(start, 0, item)]. *)
Definition splice {A} (arr : list A) (start : option Z) (item : A) : list A :=
  let i := spliceStart (length arr) start in
  take i arr ++ item :: drop i arr.

(** A [Set] of strings in insertion order. *)
Definition SetAdd (x : string) (s : list string) : list string :=
  if bool_decide (x ∈ s) then s else s ++ [x].

Definition SetOf (xs : list string) : list string :=
  foldl (λ s x, SetAdd x s) [] xs.

(** A [Map] with string keys in insertion order. *)
Definition MapHas {V} (k : string) (m : list (string * V)) : bool :=
  bool_decide (k ∈ m.*1).

Fixpoint MapAlter {V} (f : V → V) (k : string) (m : list (string * V))
  : list (string * V) :=
  match m with
  | [] => []
  | (k', v) :: m' =>
      if String.eqb k' k then (k', f v) :: m' else (k', v) :: MapAlter f k m'
  end.

(** [m.set(k, v)]: a key that is present keeps its place. *)
Definition MapSet {V} (k : string) (v : V) (m : list (string * V))
  : list (string * V) :=
  if MapHas k m then MapAlter (λ _, v) k m else m ++ [(k, v)].

(** [m.get(k)] *)
Fixpoint MapGet {V} (k : string) (m : list (string * V)) : option V :=
  match m with
  | [] => None
  | (k', v) :: m' => if String.eqb k' k then Some v else MapGet k m'
  end.

Definition MapDelete {V} (k : string) (m : list (string * V))
  : list (string * V) :=
  filter (λ kv, kv.1 ≠ k) m.

(** [Array.prototype.sort(cmp)]: a stable sort (ECMAScript 2019), here by
    insertion.  An element moves behind the ones the comparator puts
    strictly before it. *)
Fixpoint sortInsert {A} (cmp : A → A → Z) (x : A) (l : list A) : list A :=
  match l with
  | [] => [x]
  | y :: l' => if 0 <? cmp x y then y :: sortInsert cmp x l' else x :: l
  end.

Fixpoint sort {A} (cmp : A → A → Z) (l : list A) : list A :=
  match l with
  | [] => []
  | x :: l' => sortInsert cmp x (sort cmp l')
  end.

End Js.

(** ** What the lint engine returns *)

Record Warning := {
  severity : string;
  line : Z;
  endLine : Z;
  rule : string;
}.

Record LintResult := {
  source : string;
  errored : bool;
  warnings : list Warning;
}.

(** ** The suppression planner and writer

    The helpers of [addingCommentsWithStylelintErrors]. *)

(** [`${line}|${endLine}`] *)
Definition key (line endLine : Z) : string :=
  Js.ToString line +:+ "|" +:+ Js.ToString endLine.

Definition helperCollectionStep (acc : list (string * list string))
    (w : Warning) : list (string * list string) :=
  let isWarning := negb (String.eqb (severity w) "error") in
  if isWarning then acc
  else
    let key := key (line w) (endLine w) in
    let acc := if negb (Js.MapHas key acc) then Js.MapSet key [] acc else acc in
    Js.MapAlter (Js.SetAdd (rule w)) key acc.

Definition helperCollectionFilesErrorsFromWarningsArray
    (warningsArray : list Warning) : list (string * list string) :=
  foldl helperCollectionStep [] warningsArray.

Definition startLineOf (lines : string) : option Z :=
  Js.NumberAt (Js.split "|" lines) 0.

Definition endLineOf (lines : string) : option Z :=
  Js.NumberAt (Js.split "|" lines) 1.

(** The comparator of the sort, [startLine1 - startLine2]; the sort reads
    [NaN] as 0. *)
Definition compareEntries (array1 array2 : string * list string) : Z :=
  default 0 (startLine1 ← startLineOf array1.1;
             startLine2 ← startLineOf array2.1;
             Some (startLine1 - startLine2)).

Definition helperSortedEntiresFromCollectionFilesErrors
    (collectionFilesErrors : list (string * list string))
  : list (string * list string) :=
  Js.sort compareEntries collectionFilesErrors.

Definition helperCommentDisableFromArrayRules (rules : list string)
    (commentType : string) : string :=
  let rulesstring := Js.join "," rules in
  "/* stylelint-" +:+ commentType +:+ " " +:+ rulesstring +:+ " */".

(** One turn of the loop over the sorted entries: the buffer and
    [counterInsertionLines] before, and after. *)
Definition commentStep (useStylelintDisableComments : bool)
    (st : list string * Z) (entry : string * list string) : list string * Z :=
  let '(sourceCodeFile, counterInsertionLines) := st in
  let '(lines, rules) := entry in
  let startLine := startLineOf lines in
  let endLine := endLineOf lines in
  if useStylelintDisableComments then
    let indexDisableComment := (λ s, s - 1 + counterInsertionLines) <$> startLine in
    let disableComment := helperCommentDisableFromArrayRules rules "disable" in
    let indexEnableComment := (λ e, e + 1 + counterInsertionLines) <$> endLine in
    let enableComment := helperCommentDisableFromArrayRules rules "enable" in
    let sourceCodeFile := Js.splice sourceCodeFile indexDisableComment disableComment in
    let sourceCodeFile := Js.splice sourceCodeFile indexEnableComment enableComment in
    (sourceCodeFile, counterInsertionLines + 2)
  else
    let indexDisableNextLineComment :=
      (λ s, s - 1 + counterInsertionLines) <$> startLine in
    let disableNextLineComment :=
      helperCommentDisableFromArrayRules rules "disable-next-line" in
    (Js.splice sourceCodeFile indexDisableNextLineComment disableNextLineComment,
     counterInsertionLines + 1).

(** The loop, from [counterInsertionLines = 0]. *)
Definition commentLoop (useStylelintDisableComments : bool)
    (sortedEntriesFilesErrors : list (string * list string))
    (sourceCodeFile : list string) : list string * Z :=
  foldl (commentStep useStylelintDisableComments) (sourceCodeFile, 0)
        sortedEntriesFilesErrors.

(** The lines of a file after the comments for its warnings are added. *)
Definition commentedLines (useStylelintDisableComments : bool)
    (warnings : list Warning) (sourceCodeFile : list string) : list string :=
  let collectionFilesErrors :=
    helperCollectionFilesErrorsFromWarningsArray warnings in
  let sortedEntriesFilesErrors :=
    helperSortedEntiresFromCollectionFilesErrors collectionFilesErrors in
  (commentLoop useStylelintDisableComments sortedEntriesFilesErrors
               sourceCodeFile).1.

(** ** The world the scripts run in *)

(** What a script can throw. *)
Inductive Exn :=
| ENOENT (path : string)     (* the file system: no such file *)
| NoFile (path : string)     (* the [Error] of [isFileExists] *)
| SyntaxError                (* [JSON.parse] *)
| TypeError                  (* a property of [undefined], a call of a string *)
| LintError.                 (* [stylelint.lint] rejected *)

(** The [catch] block that reports an error. *)
Inductive Site :=
| ReadingConfig | ReadingIgnore | FilteringDisable | FilteringNoErrors
| WritingIgnore | AddingComments | SizeAndLengthOf (filePath : string).

(** What the scripts print. *)
Inductive Message :=
| StartCompress
| StartDelete
| SizeAndLength (size length : nat)
| Success
| ErrorsPrevious (count : nat)
| ErrorsCurrent (count : nat)
| ErrorAt (site : Site) (e : Exn).

(** The changes made to the file system, in the order they were made. *)
Inductive FsOp :=
| Renamed (oldPath newPath : string)
| Written (path data : string).

Record World := {
  disk : gmap string string;
  console : list Message;
  trace : list FsOp;
}.

(** The collaborators the spec leaves outside: the parser of the
    configuration, the expansion of a pattern and the lint engine, which
    both look at the file system, and the engine may reject. *)
Class Externals := {
  Config : Type;
  JSON_parse : string → option Config;
  glob_sync : gmap string string → string → list string;
  stylelint_lint :
    gmap string string → option Config → list string → option (list LintResult);
}.

(** A value that reaches [Set.prototype.delete]. *)
Inductive Value :=
| VString (s : string)
| VResult (r : LintResult).

(** [s.delete(v)] on a set of strings: an object equals none of them. *)
Definition SetDelete (v : Value) (s : list string) : list string :=
  match v with
  | VString x => filter (λ y, y ≠ x) s
  | VResult _ => s
  end.

(** ** Computations: state and exceptions *)

Inductive Result (A : Type) :=
| Ok (a : A)
| Throw (e : Exn).
Arguments Ok {A} a.
Arguments Throw {A} e.

Definition M (Σ A : Type) : Type := Σ → Result A * Σ.

Global Instance M_ret {Σ} : MRet (M Σ) := λ A a σ, (Ok a, σ).

Global Instance M_bind {Σ} : MBind (M Σ) := λ A B f m σ,
  match m σ with
  | (Ok a, σ') => f a σ'
  | (Throw e, σ') => (Throw e, σ')
  end.

Definition throw {Σ A} (e : Exn) : M Σ A := λ σ, (Throw e, σ).

(** [try { m } catch (e) { h e }] *)
Definition tryCatch {Σ A} (m : M Σ A) (h : Exn → M Σ A) : M Σ A := λ σ,
  match m σ with
  | (Ok a, σ') => (Ok a, σ')
  | (Throw e, σ') => h e σ'
  end.

(** [for (const x of xs) { body x }] *)
Fixpoint forOf {Σ X} (xs : list X) (body : X → M Σ unit) : M Σ unit :=
  match xs with
  | [] => mret ()
  | x :: xs' => body x ;; forOf xs' body
  end.

(** A loop that carries a local variable. *)
Fixpoint foldOf {Σ X B} (xs : list X) (body : B → X → M Σ B) (b : B) : M Σ B :=
  match xs with
  | [] => mret b
  | x :: xs' => b' ← body b x; foldOf xs' body b'
  end.

(** A function that changes the collection [C] it was handed: the caller
    sees the changes, also those made before an exception was caught. *)
Definition inWorld {C A} (m : M World A) : M (C * World) A := λ '(c, w),
  let '(r, w') := m w in (r, (c, w')).

Definition getObject {C} : M (C * World) C := λ '(c, w), (Ok c, (c, w)).

Definition modifyObject {C} (f : C → C) : M (C * World) () := λ '(c, w),
  (Ok (), (f c, w)).

Definition withObject {C A} (c : C) (m : M (C * World) A) : M World C := λ w,
  match m (c, w) with
  | (Ok _, (c', w')) => (Ok c', w')
  | (Throw e, (_, w')) => (Throw e, w')
  end.

(** ** The file system and the console *)

(** The world after a message was printed, a file written, a file
    renamed. *)
Definition said (msg : Message) (w : World) : World :=
  {| disk := disk w; console := console w ++ [msg]; trace := trace w |}.

Definition wrote (path data : string) (w : World) : World :=
  {| disk := <[path := data]> (disk w); console := console w;
     trace := trace w ++ [Written path data] |}.

Definition moved (oldPath newPath data : string) (w : World) : World :=
  {| disk := <[newPath := data]> (delete oldPath (disk w));
     console := console w;
     trace := trace w ++ [Renamed oldPath newPath] |}.

(** [console.log(msg)], [console.error(msg)] *)
Definition console_log (msg : Message) : M World () := λ w, (Ok (), said msg w).

(** [fs.pathExists] *)
Definition pathExists (path : string) : M World bool := λ w,
  (Ok (bool_decide (is_Some (disk w !! path))), w).

(** [fs.readFile(path, 'utf-8')], and what a read stream delivers. *)
Definition readFile (path : string) : M World string := λ w,
  match disk w !! path with
  | Some data => (Ok data, w)
  | None => (Throw (ENOENT path), w)
  end.

(** [fs.writeFile(path, data, { flag: 'w' })] *)
Definition writeFile (path data : string) : M World () := λ w,
  (Ok (), wrote path data w).

(** [fs.rename(oldPath, newPath)] *)
Definition rename (oldPath newPath : string) : M World () := λ w,
  match disk w !! oldPath with
  | Some data => (Ok (), moved oldPath newPath data w)
  | None => (Throw (ENOENT oldPath), w)
  end.

(** [(await fs.stat(path)).size] *)
Definition statSize (path : string) : M World nat :=
  data ← readFile path; mret (String.length data).

(** The lines a [readline] interface delivers: a line ends at LF, CR LF or
    CR, and what is left at the end of the input is a line unless it is
    empty. *)
Fixpoint readlineFrom (current : string) (input : string) : list string :=
  match input with
  | EmptyString =>
      match current with EmptyString => [] | _ => [current] end
  | String c rest =>
      if Ascii.eqb c Js.LF then current :: readlineFrom EmptyString rest
      else if Ascii.eqb c Js.CR then
        match rest with
        | String c' rest' =>
            if Ascii.eqb c' Js.LF then current :: readlineFrom EmptyString rest'
            else current :: readlineFrom EmptyString rest
        | EmptyString => current :: readlineFrom EmptyString rest
        end
      else readlineFrom (current +:+ String c EmptyString) rest
  end.

Definition readline (input : string) : list string :=
  readlineFrom EmptyString input.

(** [path.join(baseUrl, name)] for a directory of one segment. *)
Definition path_join (baseUrl name : string) : string :=
  if String.eqb baseUrl "." then name else baseUrl +:+ "/" +:+ name.

(** ** helpers/isFileExists and helpers/determinateSizeAndLengthFile *)

Definition isFileExists (filePath : string) : M World bool :=
  result ← pathExists filePath;
  if negb result then throw (NoFile filePath) else mret result.

(** [undefined] after an error was reported. *)
Definition determinateSizeAndLengthFile (filePath : string)
  : M World (option (nat * nat)) :=
  tryCatch
    (isFileExists filePath;;
     size ← statSize filePath;
     data ← readFile filePath;
     let length := length (Js.split Js.LF data) in
     mret (Some (size, length)))
    (λ e, console_log (ErrorAt (SizeAndLengthOf filePath) e);; mret None).

(** ** Parts the two scripts share *)

(** [/^\/\*\s*stylelint-disable\s*\*\/$/], with [\s] read as the ASCII
    white space of [Js.isSpace]: the test as it is on a text of ASCII
    characters. *)
Definition matchDisableComment (s : string) : bool :=
  match Js.stripPrefix "/*" s with
  | Some rest =>
      match Js.stripPrefix "stylelint-disable" (Js.trimStart rest) with
      | Some rest' => String.eqb (Js.trimStart rest') "*/"
      | None => false
      end
  | None => false
  end.

(** The inner loop of [filterFilesWithDisableComment]: the first line
    that is not blank decides. *)
Fixpoint skipFileFrom (lines : list string) : bool :=
  match lines with
  | [] => false
  | line :: rest =>
      if String.eqb (Js.trim line) EmptyString then skipFileFrom rest
      else matchDisableComment (Js.trim line)
  end.

Definition skipFile (file : string) : M World bool :=
  data ← readFile file; mret (skipFileFrom (readline data)).

(** Which lines of the manifest are skipped. *)
Definition isEmptyLine (line : string) : bool :=
  (String.length (Js.trim line) =? 0)%nat.

Definition isCommentLine (line : string) : bool :=
  match Js.trim line with
  | String c _ => Ascii.eqb c "#"
  | EmptyString => false
  end.

Definition patternOf (line : string) : string :=
  let isNotSingleFileLine := negb (Js.endsWith line ".css") in
  if isNotSingleFileLine then line +:+ "**/*.css" else line.

Definition globSync `{Externals} (pattern : string) : M World (list string) :=
  λ w, (Ok (glob_sync (disk w) pattern), w).

(** [(await stylelint.lint({ config, files, allowEmptyInput: true })).results] *)
Definition lint `{Externals} (config : option Config) (files : list string)
  : M World (list LintResult) := λ w,
  match stylelint_lint (disk w) config files with
  | Some results => (Ok results, w)
  | None => (Throw LintError, w)
  end.

Definition parseConfig `{Externals} (data : string) : M World Config :=
  match JSON_parse data with
  | Some config => mret config
  | None => throw SyntaxError
  end.

(** [undefined] has no properties and cannot be iterated. *)
Definition defined {Σ A} (x : option A) : M Σ A :=
  match x with
  | Some a => mret a
  | None => throw TypeError
  end.

(** [files.size === 0], for the set the map holds at [line] now. *)
Definition sizeIsZero (line : string) (collection : list (string * list string))
  : bool :=
  match Js.MapGet line collection with
  | Some files => (length files =? 0)%nat
  | None => false
  end.

(** ** scripts/stylelint/compressStylelintIgnore *)

Module Compress.
Section Script.
Context `{Externals}.

Definition getStylelintConfigContent (stylelintFilePath : string)
  : M World (option Config) :=
  tryCatch
    (isFileExists stylelintFilePath;;
     data ← readFile stylelintFilePath;
     stylelintContent ← parseConfig data;
     mret (Some stylelintContent))
    (* [e.message()]: the message of an error is a string, not a function *)
    (λ e, throw TypeError).

Definition readerStep (stylelintIgnoreCollection : list (string * list string))
    (line : string) : M World (list (string * list string)) :=
  if isEmptyLine line || isCommentLine line then mret stylelintIgnoreCollection
  else
    files ← globSync (patternOf line);
    let isEmptyFolder := (length files =? 0)%nat in
    if isEmptyFolder then mret stylelintIgnoreCollection
    else mret (Js.MapSet line (Js.SetOf files) stylelintIgnoreCollection).

Definition getStylelintIgnoreContent (stylelintIgnoreFilePath : string)
  : M World (option (list (string * list string))) :=
  tryCatch
    (isFileExists stylelintIgnoreFilePath;;
     data ← readFile stylelintIgnoreFilePath;
     stylelintIgnoreCollection ← foldOf (readline data) readerStep [];
     mret (Some stylelintIgnoreCollection))
    (λ e, console_log (ErrorAt ReadingIgnore e);; mret None).

(** The turn of the inner loop for [file] of the entry [line]. *)
Definition disableFileStep (line file : string)
  : M (option (list (string * list string)) * World) () :=
  skip ← inWorld (skipFile file);
  if skip : bool
  then modifyObject (fmap (Js.MapAlter (SetDelete (VString file)) line))
  else mret ().

(** [if (files.size === 0) { stylelintIgnoreCollection.delete(line) }] *)
Definition dropIfEmpty (line : string)
  : M (option (list (string * list string)) * World) () :=
  collection ← getObject;
  if default false (sizeIsZero line <$> collection)
  then modifyObject (fmap (Js.MapDelete line))
  else mret ().

(** The turn of the outer loop for one entry. *)
Definition disableEntryStep (entry : string * list string)
  : M (option (list (string * list string)) * World) () :=
  let '(line, files) := entry in
  forOf files (disableFileStep line);;
  dropIfEmpty line.

Definition filterFilesWithDisableComment
    (stylelintIgnoreCollection : option (list (string * list string)))
  : M World (option (list (string * list string))) :=
  withObject stylelintIgnoreCollection
    (tryCatch
       (collection ← getObject;
        entries ← defined collection;
        forOf entries disableEntryStep)
       (λ e, inWorld (console_log (ErrorAt FilteringDisable e)))).

(** The turn of the loop over the results of the lint engine: what is
    handed to [files.delete] is the result, not its path. *)
Definition errorsFileStep (line : string) (file : LintResult)
  : M (option (list (string * list string)) * World) () :=
  let isFileNotContainError := negb (errored file) in
  if isFileNotContainError
  then modifyObject (fmap (Js.MapAlter (SetDelete (VResult file)) line))
  else mret ().

Definition errorsEntryStep (stylelintConfigContent : option Config)
    (entry : string * list string)
  : M (option (list (string * list string)) * World) () :=
  let '(line, files) := entry in
  inWorld (rename ".stylelintignore" "hash");;
  stylelintResults ← inWorld (lint stylelintConfigContent files);
  inWorld (rename "hash" ".stylelintignore");;
  forOf stylelintResults (errorsFileStep line);;
  dropIfEmpty line.

Definition filterFilesWithoutErrors
    (stylelintIgnoreCollection : option (list (string * list string)))
    (stylelintConfigContent : option Config)
  : M World (option (list (string * list string))) :=
  withObject stylelintIgnoreCollection
    (tryCatch
       (collection ← getObject;
        entries ← defined collection;
        forOf entries (errorsEntryStep stylelintConfigContent))
       (λ e, inWorld (rename "hash" ".stylelintignore");;
             inWorld (console_log (ErrorAt FilteringNoErrors e)))).

Definition newStylelintIgnoreContent
    (stylelintIgnoreCollection : list (string * list string)) : string :=
  foldl (λ content '(line, files),
           if negb (length files =? 0)%nat
           then content +:+ line +:+ Js.newline else content)
        EmptyString stylelintIgnoreCollection.

Definition writeNewStylelintIgnore (stylelintIgnoreFilePath : string)
    (stylelintIgnoreCollection : option (list (string * list string)))
  : M World () :=
  tryCatch
    (entries ← defined stylelintIgnoreCollection;
     writeFile stylelintIgnoreFilePath (newStylelintIgnoreContent entries))
    (λ e, console_log (ErrorAt WritingIgnore e)).

(** [const { size, length } = await determinateSizeAndLengthFile(path)],
    then the report. *)
Definition reportSizeAndLength (filePath : string) : M World () :=
  result ← determinateSizeAndLengthFile filePath;
  '(size, length) ← defined result;
  console_log (SizeAndLength size length).

Definition compressStylelintIgnore (baseUrl : string) : M World () :=
  console_log StartCompress;;
  let stylelintIgnoreFilePath := path_join baseUrl ".stylelintignore" in
  let stylelintConfigFilePath := path_join baseUrl ".stylelintrc.json" in
  reportSizeAndLength stylelintIgnoreFilePath;;
  stylelintConfigContent ← getStylelintConfigContent stylelintConfigFilePath;
  stylelintIgnoreCollection ← getStylelintIgnoreContent stylelintIgnoreFilePath;
  stylelintIgnoreCollection ←
    filterFilesWithDisableComment stylelintIgnoreCollection;
  stylelintIgnoreCollection ←
    filterFilesWithoutErrors stylelintIgnoreCollection stylelintConfigContent;
  writeNewStylelintIgnore stylelintIgnoreFilePath stylelintIgnoreCollection;;
  console_log Success;;
  reportSizeAndLength stylelintIgnoreFilePath.

End Script.
End Compress.

(** ** The script that deletes the manifest *)

Module Delete.
Section Script.
Context `{Externals}.

Definition countErrors (stylelintResult : list LintResult) : nat :=
  foldl (λ acc file,
           (acc + foldl (λ acc w,
                           if String.eqb (severity w) "error"
                           then (acc + 1)%nat else acc)
                        0%nat (warnings file))%nat)
        0%nat stylelintResult.

Definition getStylelintCountErrors (stylelintConfigContent : option Config)
    (stylelintIgnoreFiles : option (list string)) : M World nat :=
  rename ".stylelintignore" "hash";;
  files ← defined stylelintIgnoreFiles;
  stylelintResult ← lint stylelintConfigContent files;
  rename "hash" ".stylelintignore";;
  mret (countErrors stylelintResult).

Definition getStylelintConfigContent (stylelintFilePath : string)
  : M World (option Config) :=
  tryCatch
    (isFileExists stylelintFilePath;;
     data ← readFile stylelintFilePath;
     stylelintContent ← parseConfig data;
     mret (Some stylelintContent))
    (λ e, console_log (ErrorAt ReadingConfig e);; mret None).

Definition readerStep (stylelintIgnoreFiles : list string) (line : string)
  : M World (list string) :=
  if isEmptyLine line || isCommentLine line then mret stylelintIgnoreFiles
  else
    files ← globSync (patternOf line);
    let isEmptyFolder := (length files =? 0)%nat in
    if isEmptyFolder then mret stylelintIgnoreFiles
    else mret (foldl (λ s file, Js.SetAdd file s) stylelintIgnoreFiles files).

Definition getStylelintIgnoreContent (stylelintIgnoreFilePath : string)
  : M World (option (list string)) :=
  tryCatch
    (isFileExists stylelintIgnoreFilePath;;
     data ← readFile stylelintIgnoreFilePath;
     stylelintIgnoreFiles ← foldOf (readline data) readerStep [];
     mret (Some stylelintIgnoreFiles))
    (λ e, console_log (ErrorAt ReadingIgnore e);; mret None).

(** The turn of the loop for [file]. *)
Definition disableFileStep (file : string)
  : M (option (list string) * World) () :=
  skip ← inWorld (skipFile file);
  if skip : bool
  then modifyObject (fmap (SetDelete (VString file)))
  else mret ().

Definition filterFilesWithDisableComment
    (stylelintIgnoreFiles : option (list string)) : M World (option (list string)) :=
  withObject stylelintIgnoreFiles
    (tryCatch
       (current ← getObject;
        files ← defined current;
        forOf files disableFileStep)
       (λ e, inWorld (console_log (ErrorAt FilteringDisable e)))).

Definition helperReadSourceFile (pathSourceFile : string)
  : M World (list string) :=
  sourceCodeFile ← readFile pathSourceFile;
  mret (Js.split Js.LF sourceCodeFile).

(** [data] is an array of lines or a string. *)
Definition helperWriteSourceFile (pathSourceFile : string)
    (data : list string + string) : M World () :=
  let dataFile :=
    match data with
    | inl lines => Js.join Js.newline lines
    | inr text => text
    end in
  writeFile pathSourceFile dataFile.

(** The turn of the loop over the results for one file. *)
Definition commentFileStep (stylelintIgnoreFilePath : string)
    (useStylelintDisableComments : bool) (file : LintResult) : M World () :=
  let isFileNotContainError := negb (errored file) in
  if isFileNotContainError then mret ()
  else
    sourceCodeFile ← helperReadSourceFile (source file);
    let sourceCodeFile :=
      commentedLines useStylelintDisableComments (warnings file)
                     sourceCodeFile in
    helperWriteSourceFile (source file) (inl sourceCodeFile);;
    helperWriteSourceFile stylelintIgnoreFilePath (inr EmptyString).

Definition addingCommentsWithStylelintErrors
    (stylelintIgnoreFiles : option (list string))
    (stylelintIgnoreFilePath : string)
    (stylelintConfigContent : option Config)
    (useStylelintDisableComments : bool) : M World () :=
  tryCatch
    (rename ".stylelintignore" "hash";;
     files ← defined stylelintIgnoreFiles;
     stylelintResults ← lint stylelintConfigContent files;
     rename "hash" ".stylelintignore";;
     forOf stylelintResults
       (commentFileStep stylelintIgnoreFilePath useStylelintDisableComments))
    (λ e, rename "hash" ".stylelintignore";;
          console_log (ErrorAt AddingComments e)).

Definition deleteStylelintIgnore (baseUrl : string) : M World () :=
  console_log StartDelete;;
  let stylelintIgnoreFilePath := path_join baseUrl ".stylelintignore" in
  let stylelintConfigFilePath := path_join baseUrl ".stylelintrc.json" in
  stylelintConfigContent ← getStylelintConfigContent stylelintConfigFilePath;
  stylelintIgnoreFiles ← getStylelintIgnoreContent stylelintIgnoreFilePath;
  previous ← getStylelintCountErrors stylelintConfigContent stylelintIgnoreFiles;
  console_log (ErrorsPrevious previous);;
  stylelintIgnoreFiles ← filterFilesWithDisableComment stylelintIgnoreFiles;
  addingCommentsWithStylelintErrors stylelintIgnoreFiles stylelintIgnoreFilePath
    stylelintConfigContent true;;
  current ← getStylelintCountErrors stylelintConfigContent stylelintIgnoreFiles;
  console_log (ErrorsCurrent current).

End Script.
End Delete.

(** ** Notions the statements use *)

(** [c] occurs in [s]. *)
Fixpoint occurs (c : ascii) (s : string) : bool :=
  match s with
  | EmptyString => false
  | String c' s' => Ascii.eqb c' c || occurs c s'
  end.

(** The elements of a list without repetition, each at its first place. *)
Fixpoint distinct {A} `{EqDecision A} (l : list A) : list A :=
  match l with
  | [] => []
  | x :: l' => x :: filter (λ y, y ≠ x) (distinct l')
  end.

(** The planner as the specification words it: drop what is not an error,
    group by the pair of lines, collect the distinct rules of a group. *)
Definition isError (w : Warning) : Prop := severity w = "error"%string.

Definition rangeOf (w : Warning) : Z * Z := (line w, endLine w).

Definition errorsOf (ws : list Warning) : list Warning :=
  filter isError ws.

Definition rulesAt (range : Z * Z) (ws : list Warning) : list string :=
  distinct (rule <$> filter (λ w, rangeOf w = range) (errorsOf ws)).

Definition groupByRange (ws : list Warning) : list (string * list string) :=
  (λ range, (key range.1 range.2, rulesAt range ws))
    <$> distinct (rangeOf <$> errorsOf ws).

(** The plan of a file: the sorted entries of the collection. *)
Definition planOf (ws : list Warning) : list (string * list string) :=
  helperSortedEntiresFromCollectionFilesErrors
    (helperCollectionFilesErrorsFromWarningsArray ws).

(** An entry starts at line [s]. *)
Definition startsAt (s : Z) (entry : string * list string) : Prop :=
  startLineOf entry.1 = Some s.

(** The order of the plan. *)
Definition startLe (a b : string * list string) : Prop :=
  ∃ s1 s2, startsAt s1 a ∧ startsAt s2 b ∧ s1 ≤ s2.

(** The order of a plan whose entries start at different lines. *)
Definition startLt (a b : string * list string) : Prop :=
  ∃ s1 s2, startsAt s1 a ∧ startsAt s2 b ∧ s1 < s2.

Global Instance startsAt_dec s entry : Decision (startsAt s entry).
Proof. unfold startsAt. apply _. Defined.

(** The start line of an entry whose key is a key of the planner. *)
Definition startOr0 (entry : string * list string) : Z :=
  default 0 (startLineOf entry.1).

Definition keyOfRange (range : Z * Z) : string := key range.1 range.2.

Definition comment (rules : list string) (commentType : string) : string :=
  helperCommentDisableFromArrayRules rules commentType.

(** The number of entries of a plan that start at or before the line at
    index [i] (line [i + 1]) of the file. *)
Definition startsBy (i : nat) (entry : string * list string) : bool :=
  match startLineOf entry.1 with
  | Some s => bool_decide (s ≤ Z.of_nat i + 1)
  | None => false
  end.

Definition insertedBefore (i : nat) (plan : list (string * list string)) : nat :=
  length (filter (λ entry, startsBy i entry) plan).


(** What the loops of the disable-comment filter compute, as functions of
    the disk. *)

(** The first file of [todo] that cannot be read. *)
Fixpoint firstMissing (d : gmap string string) (todo : list string) : option Exn :=
  match todo with
  | [] => None
  | file :: rest =>
      match d !! file with
      | None => Some (ENOENT file)
      | Some _ => firstMissing d rest
      end
  end.

(** [file] can be read and starts with the blanket disable comment. *)
Definition skips (d : gmap string string) (file : string) : bool :=
  match d !! file with
  | Some data => skipFileFrom (readline data)
  | None => false
  end.

(** The files of [todo] the loop deletes: those that start with the
    comment, up to the first file that cannot be read. *)
Fixpoint skipped (d : gmap string string) (todo : list string) : list string :=
  match todo with
  | [] => []
  | file :: rest =>
      match d !! file with
      | None => []
      | Some _ => (if skips d file then [file] else []) ++ skipped d rest
      end
  end.

Definition kept (d : gmap string string) (files : list string) : list string :=
  filter (λ file, file ∉ skipped d files) files.

(** The entries the loop over the map leaves. *)
Fixpoint keptEntries (d : gmap string string)
    (entries : list (string * list string)) : list (string * list string) :=
  match entries with
  | [] => []
  | (line, files) :: rest =>
      match firstMissing d files with
      | Some _ => (line, kept d files) :: rest
      | None =>
          (if (length (kept d files) =? 0)%nat then []
           else [(line, kept d files)]) ++ keptEntries d rest
      end
  end.

Fixpoint firstMissingEntry (d : gmap string string)
    (entries : list (string * list string)) : option Exn :=
  match entries with
  | [] => None
  | (line, files) :: rest =>
      match firstMissing d files with
      | Some e => Some e
      | None => firstMissingEntry d rest
      end
  end.

Definition outcome (e : option Exn) : Result () :=
  match e with
  | None => Ok ()
  | Some e => Throw e
  end.

(** The world after the [catch] block of a filter reported [e], if any. *)
Definition reported (site : Site) (e : option Exn) (w : World) : World :=
  match e with
  | None => w
  | Some e => said (ErrorAt site e) w
  end.

(** The manifest, hidden from the lint engine and shown again. *)
Definition hidden (data : string) (w : World) : World :=
  moved ".stylelintignore" "hash" data w.

Definition shown (data : string) (w : World) : World :=
  moved "hash" ".stylelintignore" data w.

(** [if (files.size === 0) { collection.delete(line) }] on the
    collection. *)
Definition dropEmpty (line : string)
    (collection : option (list (string * list string)))
  : option (list (string * list string)) :=
  if default false (sizeIsZero line <$> collection)
  then Js.MapDelete line <$> collection
  else collection.

(** A message of a [catch] block. *)
Definition isErrorAt (msg : Message) : Prop :=
  match msg with
  | ErrorAt _ _ => True
  | _ => False
  end.

(** A report of a number of errors. *)
Definition isErrorCount (msg : Message) : Prop :=
  match msg with
  | ErrorsPrevious _ | ErrorsCurrent _ => True
  | _ => False
  end.

(** The console of [w'] is the console of [w] and then messages that are
    all [P]. *)
Definition growsBy (P : Message → Prop) (w w' : World) : Prop :=
  ∃ msgs, console w' = console w ++ msgs ∧ Forall P msgs.

(** A computation that prints only messages that are [P], however it
    ends. *)
Definition Prints (P : Message → Prop) {A} (m : M World A) : Prop :=
  ∀ w, growsBy P w (m w).2.

(** The same for a computation on a collection. *)
Definition PrintsOn (P : Message → Prop) {C A} (m : M (C * World) A) : Prop :=
  ∀ c w, growsBy P w (m (c, w)).2.2.

(** What the readers of the manifest resolve, as functions of the disk. *)
Section resolved.
Context `{Externals}.

Definition resolvedFilesStep (d : gmap string string) (acc : list string)
    (line : string) : list string :=
  if isEmptyLine line || isCommentLine line then acc
  else
    let files := glob_sync d (patternOf line) in
    if (length files =? 0)%nat then acc
    else foldl (λ s file, Js.SetAdd file s) acc files.

Definition resolvedFiles (d : gmap string string) (data : string) : list string :=
  foldl (resolvedFilesStep d) [] (readline data).

Definition resolvedEntriesStep (d : gmap string string)
    (acc : list (string * list string)) (line : string)
  : list (string * list string) :=
  if isEmptyLine line || isCommentLine line then acc
  else
    let files := glob_sync d (patternOf line) in
    if (length files =? 0)%nat then acc
    else Js.MapSet line (Js.SetOf files) acc.

Definition resolvedEntries (d : gmap string string) (data : string)
  : list (string * list string) :=
  foldl (resolvedEntriesStep d) [] (readline data).

End resolved.

(** A line: no line feed, no carriage return. *)
Definition oneLine (l : string) : Prop :=
  occurs Js.LF l = false ∧ occurs Js.CR l = false.

(** The text of a manifest of the lines [ls], each ended by a line feed. *)
Fixpoint linesText (ls : list string) : string :=
  match ls with
  | [] => EmptyString
  | l :: ls' => l +:+ Js.newline +:+ linesText ls'
  end.

(** Two texts that differ at most in the line feed at the very end. *)
Definition sameUpToFinalNewline (a b : string) : Prop :=
  a = b ∨ a +:+ Js.newline = b ∨ a = b +:+ Js.newline.

(** ** Worlds and collaborators for the examples *)

Definition diskOf (files : list (string * string)) : World :=
  {| disk := list_to_map files; console := []; trace := [] |}.

(** A pattern expansion given by a table, and a lint engine that reports
    one error, of rule [x] at line 2, for each of the files [dirty]. *)
Definition tableExternals (table : list (string * list string))
    (dirty : list string) : Externals :=
  {| Config := ();
     JSON_parse := λ _, Some ();
     glob_sync := λ _ pattern, default [] (Js.MapGet pattern table);
     stylelint_lint := λ _ _ files,
       Some ((λ file,
                {| source := file;
                   errored := bool_decide (file ∈ dirty);
                   warnings :=
                     if bool_decide (file ∈ dirty)
                     then [ {| severity := "error"; line := 2; endLine := 2;
                               rule := "x" |} ]
                     else [] |}) <$> files) |}.

(** The same with a lint engine that rejects. *)
Definition rejectingExternals (table : list (string * list string))
  : Externals :=
  {| Config := ();
     JSON_parse := λ _, Some ();
     glob_sync := λ _ pattern, default [] (Js.MapGet pattern table);
     stylelint_lint := λ _ _ _, None |}.

(** ** Notions of the further properties *)

(** How often [c] occurs in [s]. *)
Fixpoint countOf (c : ascii) (s : string) : nat :=
  match s with
  | EmptyString => 0%nat
  | String c' s' => ((if Ascii.eqb c' c then 1 else 0) + countOf c s')%nat
  end.

(** A string of white space only, the strings [\s*] matches. *)
Fixpoint isBlank (s : string) : bool :=
  match s with
  | EmptyString => true
  | String c s' => Js.isSpace c && isBlank s'
  end.

(** A text of ASCII characters: in such a text the white space of
    JavaScript ([\s], [trim]) is the white space of [Js.isSpace]. *)
Fixpoint isAscii (s : string) : bool :=
  match s with
  | EmptyString => true
  | String c s' => (nat_of_ascii c <? 128)%nat && isAscii s'
  end.

(** The comments the writer adds for the entries of a plan, in the order
    of the plan. *)
Definition commentsOf (useStylelintDisableComments : bool)
    (plan : list (string * list string)) : list string :=
  plan ≫= λ entry,
    if useStylelintDisableComments
    then [comment entry.2 "disable"; comment entry.2 "enable"]
    else [comment entry.2 "disable-next-line"].

(** A computation that leaves what is at the path [p] as it is, however
    it ends. *)
Definition Keeps (p : string) {A} (m : M World A) : Prop :=
  ∀ w, disk (m w).2 !! p = disk w !! p.

(** The same for a computation on a collection. *)
Definition KeepsOn (p : string) {C A} (m : M (C * World) A) : Prop :=
  ∀ c w, disk (m (c, w)).2.2 !! p = disk w !! p.

(** The entries of a collection whose files that start with the blanket
    disable comment are taken out, without the entries left empty. *)
Definition withoutSkipped (d : gmap string string)
    (entries : list (string * list string)) : list (string * list string) :=
  filter (λ entry, entry.2 ≠ [])
    ((λ entry, (entry.1, filter (λ file, skips d file = false) entry.2))
       <$> entries).

(** The lines of a manifest that the readers resolve. *)
Definition resolves `{Externals} (d : gmap string string) (line : string)
  : Prop :=
  isEmptyLine line = false ∧ isCommentLine line = false
  ∧ glob_sync d (patternOf line) ≠ [].

Global Instance resolves_dec `{Externals} d line : Decision (resolves d line).
Proof. unfold resolves. apply _. Defined.

(** The entry of a plan for the lines [s] to [e]. *)
Definition planEntry (range : Z * Z * list string) : string * list string :=
  (key range.1.1 range.1.2, range.2).

(** Ranges of lines of a file of [len] lines that lie one after another,
    the first of them after the line [done]. *)
Fixpoint ordered (done : Z) (ranges : list (Z * Z * list string)) (len : Z)
  : Prop :=
  match ranges with
  | [] => True
  | (s, e, _) :: ranges' => done < s ∧ s ≤ e ∧ e ≤ len ∧ ordered e ranges' len
  end.

(** The lines [rest] of a file after its first [done] lines, with each
    of the ranges put between the pair of comments for its rules. *)
Fixpoint bracketed (done : Z) (ranges : list (Z * Z * list string))
    (rest : list string) : list string :=
  match ranges with
  | [] => rest
  | (s, e, rules) :: ranges' =>
      take (Z.to_nat (s - 1 - done)) rest
      ++ comment rules "disable"
      :: take (Z.to_nat (e - s + 1)) (drop (Z.to_nat (s - 1 - done)) rest)
      ++ comment rules "enable"
      :: bracketed e ranges' (drop (Z.to_nat (e - done)) rest)
  end.

(** A pattern expansion given by a table, and a lint engine that reads
    the files: it reports one error, of rule [x] at line 1, for each file
    that is there and does not start with the disable comment for [x]. *)
Definition readingExternals (table : list (string * list string))
  : Externals :=
  {| Config := ();
     JSON_parse := λ _, Some ();
     glob_sync := λ _ pattern, default [] (Js.MapGet pattern table);
     stylelint_lint := λ d _ files,
       Some ((λ file,
                let dirty :=
                  match d !! file with
                  | Some data =>
                      negb (String.eqb (default EmptyString
                                          (head (Js.split Js.LF data)))
                                       "/* stylelint-disable x */")
                  | None => false
                  end in
                {| source := file;
                   errored := dirty;
                   warnings :=
                     if dirty
                     then [ {| severity := "error"; line := 1; endLine := 1;
                               rule := "x" |} ]
                     else [] |}) <$> files) |}.

(** * Properties *)

(** ** Strings and numbers *)

Section strings.

Lemma append_cons x (a b : string) : String x a +:+ b = String x (a +:+ b).
Proof. reflexivity. Qed.

Lemma append_nil_l (a : string) : EmptyString +:+ a = a.
Proof. reflexivity. Qed.

Lemma append_assoc (a b c : string) : (a +:+ b) +:+ c = a +:+ (b +:+ c).
Proof.
  induction a as [|x a IH]; [done|]. rewrite !append_cons. by f_equal.
Qed.

Lemma append_nil_r (a : string) : a +:+ EmptyString = a.
Proof. induction a as [|x a IH]; [done|]. rewrite append_cons. by f_equal. Qed.

Lemma occurs_append c a b : occurs c (a +:+ b) = occurs c a || occurs c b.
Proof.
  induction a as [|x a IH]; [done|].
  rewrite append_cons. simpl. by rewrite IH, orb_assoc.
Qed.

Lemma split_no_sep sep s : occurs sep s = false → Js.split sep s = [s].
Proof.
  induction s as [|c s IH]; simpl; [done|].
  intros [Hc Hs]%orb_false_iff. rewrite Hc, (IH Hs). done.
Qed.

Lemma split_append sep a b :
  occurs sep a = false →
  Js.split sep (a +:+ String sep b) = a :: Js.split sep b.
Proof.
  induction a as [|c a IH].
  - intros _. rewrite append_nil_l. simpl. by rewrite Ascii.eqb_refl.
  - rewrite append_cons. simpl.
    intros [Hc Ha]%orb_false_iff. rewrite Hc, (IH Ha). done.
Qed.

Lemma string_of_uint_digits d : occurs "|" (NilEmpty.string_of_uint d) = false.
Proof. induction d; simpl; done. Qed.

Lemma ToString_no_bar z : occurs "|" (Js.ToString z) = false.
Proof.
  unfold Js.ToString.
  destruct z as [|p|p]; simpl; [done|..].
  - destruct (Pos.to_uint p); simpl; try done; apply string_of_uint_digits.
  - destruct (Pos.to_uint p); simpl; try done; apply string_of_uint_digits.
Qed.

Lemma to_uint_nonnil p : Pos.to_uint p ≠ Decimal.Nil.
Proof.
  intros E. pose proof (DecimalPos.Unsigned.of_to p) as H.
  rewrite E in H. simpl in H. done.
Qed.

Lemma Number_ToString z : Js.Number (Js.ToString z) = Some z.
Proof.
  unfold Js.Number, Js.ToString.
  rewrite NilZero.isi.
  - simpl. by rewrite DecimalZ.of_to.
  - destruct z; simpl; try done. intros [= E]. by apply to_uint_nonnil in E.
  - destruct z; simpl; try done. intros [= E]. by apply to_uint_nonnil in E.
Qed.

Lemma split_key s e : Js.split "|" (key s e) = [Js.ToString s; Js.ToString e].
Proof.
  unfold key. rewrite append_cons, append_nil_l.
  rewrite split_append by apply ToString_no_bar.
  by rewrite split_no_sep by apply ToString_no_bar.
Qed.

Lemma startLineOf_key s e : startLineOf (key s e) = Some s.
Proof.
  unfold startLineOf, Js.NumberAt. rewrite split_key. simpl.
  apply Number_ToString.
Qed.

Lemma endLineOf_key s e : endLineOf (key s e) = Some e.
Proof.
  unfold endLineOf, Js.NumberAt. rewrite split_key. simpl.
  apply Number_ToString.
Qed.

(** The key is the pair of lines, and nothing less. *)
Lemma key_inj s e s' e' : key s e = key s' e' → s = s' ∧ e = e'.
Proof.
  intros E. split.
  - pose proof (startLineOf_key s e) as H. rewrite E, startLineOf_key in H.
    congruence.
  - pose proof (endLineOf_key s e) as H. rewrite E, endLineOf_key in H.
    congruence.
Qed.

End strings.

(** ** Arrays *)

Section arrays.
Context {A : Type}.
Implicit Types (arr : list A) (x : A).

Lemma spliceStart_in_range len z :
  0 ≤ z ≤ Z.of_nat len → Js.spliceStart len (Some z) = Z.to_nat z.
Proof.
  intros Hz. unfold Js.spliceStart.
  destruct (Z.ltb_spec z 0); [lia|]. f_equal. lia.
Qed.

Lemma spliceStart_le len start : (Js.spliceStart len start ≤ len)%nat.
Proof.
  unfold Js.spliceStart. destruct start as [z|]; [|lia].
  destruct (Z.ltb_spec z 0); lia.
Qed.

Lemma splice_length arr start x :
  length (Js.splice arr start x) = S (length arr).
Proof.
  unfold Js.splice. pose proof (spliceStart_le (length arr) start).
  rewrite length_app, length_take. simpl. rewrite length_drop. lia.
Qed.

Lemma splice_in_range arr z x :
  0 ≤ z ≤ Z.of_nat (length arr) →
  Js.splice arr (Some z) x = take (Z.to_nat z) arr ++ x :: drop (Z.to_nat z) arr.
Proof. intros Hz. unfold Js.splice. by rewrite spliceStart_in_range. Qed.

Lemma lookup_insert_at arr i x :
  (i ≤ length arr)%nat → (take i arr ++ x :: drop i arr) !! i = Some x.
Proof. intros Hi. apply list_lookup_middle. rewrite length_take. lia. Qed.

Lemma lookup_insert_before arr i j x :
  (j < i)%nat → (i ≤ length arr)%nat →
  (take i arr ++ x :: drop i arr) !! j = arr !! j.
Proof.
  intros Hj Hi. rewrite lookup_app_l by (rewrite length_take; lia).
  by apply lookup_take_lt.
Qed.

Lemma lookup_insert_after arr i j x :
  (i ≤ j)%nat → (i ≤ length arr)%nat →
  (take i arr ++ x :: drop i arr) !! S j = arr !! j.
Proof.
  intros Hj Hi. rewrite lookup_app_r by (rewrite length_take; lia).
  rewrite length_take. replace (S j - i `min` length arr)%nat with (S (j - i)) by lia.
  simpl. rewrite lookup_drop. f_equal. lia.
Qed.

Lemma StronglySorted_snoc (R : A → A → Prop) l x :
  StronglySorted R (l ++ [x]) → StronglySorted R l ∧ Forall (λ y, R y x) l.
Proof.
  induction l as [|y l IH]; simpl.
  - intros _. split; constructor.
  - intros [Hl Hy]%StronglySorted_inv. destruct (IH Hl) as [IH1 IH2].
    apply Forall_app in Hy as [Hy1 Hy2]. split.
    + by constructor.
    + constructor; [by inversion Hy2 | done].
Qed.

End arrays.

(** ** The writer *)

Section writer.
Implicit Types (buf : list string) (plan : list (string * list string)).

Lemma commentStep_single buf c lines rules s :
  startLineOf lines = Some s →
  commentStep false (buf, c) (lines, rules)
  = (Js.splice buf (Some (s - 1 + c))
       (helperCommentDisableFromArrayRules rules "disable-next-line"), c + 1).
Proof. intros Hs. unfold commentStep. by rewrite Hs. Qed.

Lemma commentStep_block buf c lines rules s e :
  startLineOf lines = Some s → endLineOf lines = Some e →
  commentStep true (buf, c) (lines, rules)
  = (Js.splice
       (Js.splice buf (Some (s - 1 + c))
          (helperCommentDisableFromArrayRules rules "disable"))
       (Some (e + 1 + c))
       (helperCommentDisableFromArrayRules rules "enable"), c + 2).
Proof. intros Hs He. unfold commentStep. by rewrite Hs, He. Qed.

(** The block step on a range of lines of the buffer: the two comments
    bracket the range. *)
Lemma commentStep_block_shape buf c lines rules s e :
  startLineOf lines = Some s → endLineOf lines = Some e →
  1 ≤ s ≤ e → 0 ≤ c → e + c ≤ Z.of_nat (length buf) →
  commentStep true (buf, c) (lines, rules)
  = (take (Z.to_nat (s - 1 + c)) buf
       ++ helperCommentDisableFromArrayRules rules "disable"
       :: take (Z.to_nat (e - s + 1)) (drop (Z.to_nat (s - 1 + c)) buf)
       ++ helperCommentDisableFromArrayRules rules "enable"
       :: drop (Z.to_nat (e + c)) buf, c + 2).
Proof.
  intros Hs He Hse Hc Hlen. rewrite (commentStep_block _ _ _ _ s e Hs He).
  f_equal. rewrite (splice_in_range buf) by lia.
  set (i := Z.to_nat (s - 1 + c)). set (n := Z.to_nat (e - s + 1)).
  rewrite splice_in_range.
  2:{ rewrite length_app, length_take. simpl. rewrite length_drop. lia. }
  assert (Hi : length (take i buf) = i) by (rewrite length_take; lia).
  replace (Z.to_nat (e + 1 + c)) with (length (take i buf) + S n)%nat by lia.
  rewrite take_app_add, drop_app_add. simpl.
  rewrite <- app_assoc. simpl. rewrite drop_drop.
  by replace (i + n)%nat with (Z.to_nat (e + c)) by lia.
Qed.

Lemma insertedBefore_snoc i plan entry :
  insertedBefore i (plan ++ [entry])
  = (insertedBefore i plan + if startsBy i entry then 1 else 0)%nat.
Proof.
  unfold insertedBefore. rewrite filter_app, length_app. f_equal.
  rewrite filter_cons, filter_nil. by destruct (startsBy i entry).
Qed.

Lemma insertedBefore_le i plan : (insertedBefore i plan ≤ length plan)%nat.
Proof. apply length_filter. Qed.

Lemma insertedBefore_all i plan :
  Forall (λ entry, startsBy i entry) plan → insertedBefore i plan = length plan.
Proof.
  intros H. unfold insertedBefore. f_equal.
  induction H as [|entry plan Hx _ IH]; [done|].
  rewrite filter_cons. destruct (decide _); [by f_equal | done].
Qed.

(** The single-line loop over a sorted plan whose lines are lines of the
    file: where every comment and every line of the file ends up. *)
Lemma commentLoop_single buf plan :
  StronglySorted startLe plan →
  Forall (λ entry, ∃ s, startsAt s entry ∧ 1 ≤ s ≤ Z.of_nat (length buf)) plan →
  ∃ final,
    commentLoop false plan buf = (final, Z.of_nat (length plan)) ∧
    length final = (length buf + length plan)%nat ∧
    (∀ k entry s, plan !! k = Some entry → startsAt s entry →
       final !! (Z.to_nat (s - 1) + k)%nat
       = Some (helperCommentDisableFromArrayRules entry.2 "disable-next-line")) ∧
    (∀ i, (i < length buf)%nat →
       final !! (i + insertedBefore i plan)%nat = buf !! i).
Proof.
  induction plan as [|entry plan IH] using rev_ind; intros Hsorted Hrange.
  - exists buf. unfold commentLoop. simpl. split_and!; try done; try lia.
    intros i _. f_equal. unfold insertedBefore. simpl. lia.
  - apply StronglySorted_snoc in Hsorted as [Hsorted Hlast].
    apply Forall_app in Hrange as [Hrange Hentry].
    destruct (IH Hsorted Hrange) as (mid & Hmid & Hlen & Hcomments & Hlines).
    apply Forall_inv in Hentry as (s & Hs & Hs1).
    destruct entry as [lines rules]. unfold startsAt in Hs. simpl in Hs.
    unfold commentLoop in *. rewrite foldl_snoc, Hmid.
    rewrite (commentStep_single _ _ _ _ s Hs).
    rewrite splice_in_range by lia.
    set (idx := Z.to_nat (s - 1 + Z.of_nat (length plan))).
    assert (Hidx : idx = (Z.to_nat (s - 1) + length plan)%nat) by lia.
    eexists. split_and!.
    + f_equal. rewrite length_app. simpl. lia.
    + rewrite length_app, length_take. simpl. rewrite length_drop, length_app.
      simpl. lia.
    + intros k entry s' Hk Hs'. apply lookup_snoc_Some in Hk as [[Hk Hk']|[-> <-]].
      * rewrite Forall_forall in Hlast.
        destruct (Hlast entry) as (s1 & s2 & H1 & H2 & Hle).
        { eapply list_elem_of_lookup_2, Hk'. }
        unfold startsAt in *. simpl in H2.
        assert (s1 = s') by congruence. assert (s2 = s) by congruence. subst.
        rewrite lookup_insert_before by lia. by apply Hcomments.
      * unfold startsAt in Hs'. simpl in Hs'. assert (s' = s) by congruence.
        subst. rewrite <- Hidx. apply lookup_insert_at. lia.
    + intros i Hi. rewrite insertedBefore_snoc. unfold startsBy. simpl.
      rewrite Hs. pose proof (insertedBefore_le i plan). case_bool_decide.
      * assert (insertedBefore i plan = length plan) as Hall.
        { apply insertedBefore_all. rewrite Forall_forall in Hlast |- *.
          intros x Hx. destruct (Hlast x Hx) as (s1 & s2 & H1 & H2 & Hle).
          unfold startsAt in *. simpl in H2. unfold startsBy. rewrite H1.
          assert (s2 = s) by congruence. subst. apply bool_decide_pack. lia. }
        rewrite Hall in *.
        replace (i + (length plan + 1))%nat with (S (i + length plan)) by lia.
        rewrite lookup_insert_after by lia. rewrite <- Hall. by apply Hlines.
      * rewrite Nat.add_0_r. rewrite lookup_insert_before by lia.
        by apply Hlines.
Qed.

Lemma StronglySorted_middle {A} (R : A → A → Prop) (l1 l2 : list A) x :
  StronglySorted R (l1 ++ x :: l2) →
  Forall (λ y, R y x) l1 ∧ Forall (R x) l2.
Proof.
  induction l1 as [|y l1 IH]; simpl.
  - intros [_ Hx]%StronglySorted_inv. by split.
  - intros [Hl Hy]%StronglySorted_inv. destruct (IH Hl) as [IH1 IH2].
    apply Forall_app in Hy as [_ Hy]. apply Forall_cons in Hy as [Hy _].
    split; [by constructor | done].
Qed.

Lemma insertedBefore_none i plan :
  Forall (λ entry, startsBy i entry = false) plan → insertedBefore i plan = 0%nat.
Proof.
  intros H. unfold insertedBefore.
  induction H as [|entry plan Hx _ IH]; [done|].
  rewrite filter_cons. rewrite Hx. by rewrite decide_False by (by intros []).
Qed.

(** In a plan whose entries start at different lines, the entries that
    start at or before the line of the [k]-th entry are the first
    [k + 1]. *)
Lemma insertedBefore_strict plan k entry s :
  StronglySorted startLt plan → plan !! k = Some entry → startsAt s entry →
  1 ≤ s → insertedBefore (Z.to_nat (s - 1)) plan = S k.
Proof.
  intros Hsorted Hk Hs Hpos.
  rewrite <- (take_drop_middle plan k entry Hk) in Hsorted |- *.
  apply StronglySorted_middle in Hsorted as [Hbefore Hafter].
  unfold insertedBefore in *.
  rewrite filter_app, filter_cons, !length_app.
  fold (insertedBefore (Z.to_nat (s - 1)) (take k plan)).
  rewrite insertedBefore_all.
  2:{ eapply Forall_impl; [exact Hbefore|]. intros x (s1 & s2 & H1 & H2 & Hlt).
      unfold startsAt in *. unfold startsBy. rewrite H1.
      assert (s2 = s) by congruence. subst. apply bool_decide_pack. lia. }
  assert (startsBy (Z.to_nat (s - 1)) entry = true) as Hentry.
  { unfold startsBy. unfold startsAt in Hs. rewrite Hs.
    apply bool_decide_eq_true_2. lia. }
  rewrite Hentry, decide_True by done. simpl.
  fold (insertedBefore (Z.to_nat (s - 1)) (drop (S k) plan)).
  rewrite insertedBefore_none.
  2:{ eapply Forall_impl; [exact Hafter|]. intros x (s1 & s2 & H1 & H2 & Hlt).
      unfold startsAt in *. unfold startsBy. rewrite H2.
      assert (s1 = s) by congruence. subst. apply bool_decide_eq_false_2. lia. }
  rewrite length_take. apply lookup_lt_Some in Hk. lia.
Qed.

Lemma startLt_startLe plan :
  StronglySorted startLt plan → StronglySorted startLe plan.
Proof.
  induction 1 as [|x l Hl IH Hx]; constructor; [done|].
  eapply Forall_impl; [exact Hx|]. intros y (s1 & s2 & H1 & H2 & Hlt).
  exists s1, s2. split_and!; [done..|lia].
Qed.

(** With different start lines, every comment stands right before the
    line it is for. *)
Lemma commentLoop_single_strict buf plan :
  StronglySorted startLt plan →
  Forall (λ entry, ∃ s, startsAt s entry ∧ 1 ≤ s ≤ Z.of_nat (length buf)) plan →
  ∃ final,
    commentLoop false plan buf = (final, Z.of_nat (length plan)) ∧
    ∀ k entry s, plan !! k = Some entry → startsAt s entry →
      final !! (Z.to_nat (s - 1) + k)%nat
      = Some (helperCommentDisableFromArrayRules entry.2 "disable-next-line")
      ∧ final !! (Z.to_nat (s - 1) + k + 1)%nat = buf !! Z.to_nat (s - 1).
Proof.
  intros Hsorted Hrange.
  destruct (commentLoop_single buf plan (startLt_startLe plan Hsorted) Hrange)
    as (final & Hrun & _ & Hcomments & Hlines).
  exists final. split; [done|]. intros k entry s Hk Hs.
  split; [by apply Hcomments|].
  assert (1 ≤ s ≤ Z.of_nat (length buf)) as Hin.
  { rewrite Forall_forall in Hrange.
    destruct (Hrange entry) as (s' & Hs' & Hin);
      [eapply list_elem_of_lookup_2, Hk|].
    unfold startsAt in *. assert (s' = s) by congruence. by subst. }
  rewrite <- (Hlines (Z.to_nat (s - 1))) by lia.
  rewrite (insertedBefore_strict plan k entry s) by (done || lia).
  f_equal. lia.
Qed.

End writer.


(** ** Sets and maps in insertion order *)

Section collections.
Context {A : Type} `{EqDecision A}.
Implicit Types (l : list A) (x y : A).

Lemma elem_of_distinct l x : x ∈ distinct l ↔ x ∈ l.
Proof.
  induction l as [|y l IH]; simpl; [done|].
  rewrite !elem_of_cons, list_elem_of_filter, IH.
  destruct (decide (x = y)); tauto.
Qed.

Lemma NoDup_distinct l : NoDup (distinct l).
Proof.
  induction l as [|y l IH]; simpl; [constructor|].
  constructor.
  - rewrite list_elem_of_filter. tauto.
  - by apply NoDup_filter.
Qed.

Lemma distinct_snoc l x :
  distinct (l ++ [x]) = if decide (x ∈ l) then distinct l else distinct l ++ [x].
Proof.
  induction l as [|y l IH]; simpl.
  - done.
  - rewrite IH. destruct (decide (x ∈ l)) as [Hx|Hx].
    + rewrite decide_True; [done | by right].
    + rewrite filter_app, filter_cons, filter_nil.
      destruct (decide (x = y)) as [->|Hxy].
      * rewrite decide_False by tauto.
        rewrite decide_True by left. by rewrite app_nil_r.
      * rewrite decide_True by done.
        rewrite decide_False; [done|]. rewrite elem_of_cons. tauto.
Qed.

End collections.

Section maps.
Context {V : Type}.
Implicit Types (m : list (string * V)) (k : string).

Lemma SetAdd_distinct (l : list string) x :
  Js.SetAdd x (distinct l) = distinct (l ++ [x]).
Proof.
  unfold Js.SetAdd. rewrite distinct_snoc. case_bool_decide as Hx.
  - rewrite decide_True; [done | by apply elem_of_distinct].
  - rewrite decide_False; [done | by rewrite <- elem_of_distinct].
Qed.

Lemma SetOf_distinct (l : list string) : Js.SetOf l = distinct l.
Proof.
  unfold Js.SetOf. induction l as [|x l IH] using rev_ind; [done|].
  by rewrite foldl_snoc, IH, SetAdd_distinct.
Qed.

Lemma eqb_decide (a b : string) :
  String.eqb a b = bool_decide (a = b).
Proof.
  destruct (String.eqb_spec a b).
  - by rewrite bool_decide_eq_true_2.
  - by rewrite bool_decide_eq_false_2.
Qed.

Lemma MapAlter_absent (f : V → V) k m : k ∉ m.*1 → Js.MapAlter f k m = m.
Proof.
  induction m as [|[k' v] m IH]; simpl; [done|].
  rewrite not_elem_of_cons. intros [Hk Hm].
  rewrite eqb_decide, bool_decide_eq_false_2 by done. by rewrite IH.
Qed.

Lemma MapAlter_app_absent (f : V → V) k m m' :
  k ∉ m.*1 → Js.MapAlter f k (m ++ m') = m ++ Js.MapAlter f k m'.
Proof.
  induction m as [|[k' v] m IH]; simpl; [done|].
  rewrite not_elem_of_cons. intros [Hk Hm].
  rewrite eqb_decide, bool_decide_eq_false_2 by done. by rewrite IH.
Qed.

(** Altering the entry of a map whose entries are given by their keys. *)
Lemma MapAlter_fmap {K} (f : V → V) (name : K → string) (value : K → V)
    `{!Inj (=) (=) name} `{EqDecision K} (ks : list K) (i0 : K) :
  NoDup ks →
  Js.MapAlter f (name i0) ((λ i, (name i, value i)) <$> ks)
  = (λ i, (name i, if decide (i = i0) then f (value i) else value i)) <$> ks.
Proof.
  induction ks as [|i ks IH]; simpl; [done|].
  intros [Hi Hks]%NoDup_cons. rewrite eqb_decide. case_bool_decide as Hn.
  - apply (inj name) in Hn as ->. rewrite decide_True by done. f_equal.
    apply list_fmap_ext. intros n j Hj. rewrite decide_False; [done|].
    intros ->. apply Hi. eapply list_elem_of_lookup_2, Hj.
  - rewrite decide_False by congruence. f_equal. by apply IH.
Qed.

Lemma MapAlter_keys (f : V → V) k m : (Js.MapAlter f k m).*1 = m.*1.
Proof.
  induction m as [|[k' v] m IH]; simpl; [done|].
  destruct (String.eqb k' k); simpl; [done|]. by f_equal.
Qed.

End maps.

(** ** Sorting *)

Section sorting.
Context {A : Type} (f : A → Z).
Implicit Types (l : list A) (x y : A).

(** A comparator that subtracts the values of [f], and its order. *)
Local Abbreviation cmp := (λ x y : A, f x - f y).
Local Abbreviation le := (λ x y : A, f x ≤ f y).

Lemma sortInsert_perm (c : A → A → Z) x l : Js.sortInsert c x l ≡ₚ x :: l.
Proof.
  induction l as [|y l IH]; simpl; [done|].
  destruct (0 <? c x y); [|done]. rewrite IH. apply Permutation_swap.
Qed.

Lemma sort_perm (c : A → A → Z) l : Js.sort c l ≡ₚ l.
Proof.
  induction l as [|x l IH]; simpl; [done|].
  by rewrite sortInsert_perm, IH.
Qed.

Lemma sort_ext (c c' : A → A → Z) l :
  (∀ x y, x ∈ l → y ∈ l → c x y = c' x y) → Js.sort c l = Js.sort c' l.
Proof.
  induction l as [|x l IH]; simpl; [done|]. intros Hc.
  rewrite IH by (intros; apply Hc; by right).
  assert (Hl : ∀ y, y ∈ Js.sort c' l → c x y = c' x y).
  { intros y Hy. apply Hc; [left|right]. by rewrite <- (sort_perm c'). }
  revert Hl. generalize (Js.sort c' l). intros t.
  induction t as [|y t IHt]; intros Hl; simpl; [done|].
  rewrite Hl by left. destruct (0 <? c' x y); [|done].
  f_equal. apply IHt. intros z Hz. apply Hl. by right.
Qed.

Lemma sortInsert_sorted x l :
  StronglySorted le l → StronglySorted le (Js.sortInsert cmp x l).
Proof.
  induction l as [|y l IH]; simpl; intros Hl.
  - repeat constructor.
  - apply StronglySorted_inv in Hl as [Hl Hy].
    destruct (Z.ltb_spec 0 (cmp x y)) as [Hlt|Hge].
    + constructor; [by apply IH|].
      rewrite sortInsert_perm. constructor; [|done]. simpl in *; lia.
    + constructor; [by constructor|]. constructor.
      * simpl in *; lia.
      * eapply Forall_impl; [exact Hy|]. simpl in *. intros; lia.
Qed.

Lemma sort_sorted l : StronglySorted le (Js.sort cmp l).
Proof.
  induction l as [|x l IH]; simpl; [constructor|]. by apply sortInsert_sorted.
Qed.

(** The sort is stable: the elements of one value of [f] keep their
    order. *)
Lemma sortInsert_stable v x l :
  filter (λ y, f y = v) (Js.sortInsert cmp x l) = filter (λ y, f y = v) (x :: l).
Proof.
  induction l as [|y l IH]; simpl; [done|].
  destruct (Z.ltb_spec 0 (cmp x y)) as [Hlt|Hge]; [|done].
  rewrite filter_cons, IH, !filter_cons. simpl in Hlt.
  destruct (decide (f y = v)), (decide (f x = v)); try done. lia.
Qed.

Lemma sort_stable v l :
  filter (λ y, f y = v) (Js.sort cmp l) = filter (λ y, f y = v) l.
Proof.
  induction l as [|x l IH]; simpl; [done|].
  by rewrite sortInsert_stable, !filter_cons, IH.
Qed.

(** A sorted list is known from its elements of each value: the result of
    a stable sort does not depend on how it sorts. *)
Lemma sorted_stable_unique l1 l2 :
  StronglySorted le l1 → StronglySorted le l2 →
  (∀ v, filter (λ y, f y = v) l1 = filter (λ y, f y = v) l2) →
  l1 = l2.
Proof.
  intros H1. revert l2.
  induction H1 as [|x l1 Hl1 IH Hx]; intros l2 H2 Hf.
  - destruct l2 as [|y l2]; [done|]. specialize (Hf (f y)).
    rewrite filter_nil, filter_cons, decide_True in Hf by done. done.
  - destruct H2 as [|y l2 Hl2 Hy].
    + specialize (Hf (f x)).
      rewrite filter_nil, filter_cons, decide_True in Hf by done. done.
    + assert (f x = f y) as Hxy.
      { destruct (Z.lt_trichotomy (f x) (f y)) as [Hlt|[Heq|Hgt]]; [|done|].
        - specialize (Hf (f x)). rewrite !filter_cons in Hf.
          rewrite decide_True in Hf by done.
          rewrite decide_False in Hf by lia.
          assert (x ∈ filter (λ y, f y = f x) l2) as Hin
            by (rewrite <- Hf; left).
          apply list_elem_of_filter in Hin as [_ Hin].
          rewrite Forall_forall in Hy. specialize (Hy x Hin).
          simpl in Hy. lia.
        - specialize (Hf (f y)). rewrite !filter_cons in Hf.
          rewrite (decide_True (P := f y = f y)) in Hf by done.
          rewrite decide_False in Hf by lia.
          assert (y ∈ filter (λ z, f z = f y) l1) as Hin
            by (rewrite Hf; left).
          apply list_elem_of_filter in Hin as [_ Hin].
          rewrite Forall_forall in Hx. specialize (Hx y Hin).
          simpl in Hx. lia. }
      pose proof (Hf (f x)) as Hhead. rewrite !filter_cons in Hhead.
      rewrite decide_True in Hhead by done.
      rewrite decide_True in Hhead by done.
      injection Hhead as -> _. f_equal. apply IH; [done|].
      intros v. specialize (Hf v). rewrite !filter_cons in Hf.
      destruct (decide (f y = v)); [by injection Hf|done].
Qed.

Lemma stable_sort_unique l l' :
  StronglySorted le l' →
  (∀ v, filter (λ y, f y = v) l' = filter (λ y, f y = v) l) →
  l' = Js.sort cmp l.
Proof.
  intros Hs Hf. apply sorted_stable_unique; [done|apply sort_sorted|].
  intros v. by rewrite sort_stable.
Qed.

End sorting.

(** ** The planner *)

Section planner.
Implicit Types (ws : list Warning) (w : Warning) (range : Z * Z).

Global Instance keyOfRange_inj : Inj (=) (=) keyOfRange.
Proof.
  intros [s e] [s' e'] H. unfold keyOfRange in H. simpl in H.
  apply key_inj in H as [-> ->]. done.
Qed.

Lemma errorsOf_snoc ws w :
  errorsOf (ws ++ [w]) = errorsOf ws ++ (if decide (isError w) then [w] else []).
Proof.
  unfold errorsOf. rewrite filter_app, filter_cons, filter_nil.
  by destruct (decide (isError w)).
Qed.

Lemma isWarning_decide w :
  negb (String.eqb (severity w) "error") = bool_decide (¬ isError w).
Proof.
  rewrite eqb_decide. unfold isError.
  case_bool_decide; simpl; symmetry;
    [by apply bool_decide_eq_false_2; tauto | by apply bool_decide_eq_true_2].
Qed.

Lemma rulesAt_snoc_error range ws w :
  isError w →
  rulesAt range (ws ++ [w])
  = if decide (rangeOf w = range) then Js.SetAdd (rule w) (rulesAt range ws)
    else rulesAt range ws.
Proof.
  intros Hw. unfold rulesAt. rewrite errorsOf_snoc, decide_True by done.
  rewrite filter_app, filter_cons, filter_nil.
  destruct (decide (rangeOf w = range)).
  - by rewrite fmap_app, SetAdd_distinct.
  - by rewrite app_nil_r.
Qed.

Lemma rulesAt_absent range ws :
  range ∉ rangeOf <$> errorsOf ws → rulesAt range ws = [].
Proof.
  intros Hr. unfold rulesAt.
  replace (filter (λ w, rangeOf w = range) (errorsOf ws)) with (@nil Warning);
    [done|].
  symmetry. induction (errorsOf ws) as [|w l IH]; [done|].
  rewrite fmap_cons, not_elem_of_cons in Hr. destruct Hr as [Hw Hl].
  rewrite filter_cons, decide_False by congruence. by apply IH.
Qed.

Lemma groupByRange_keys ws :
  (groupByRange ws).*1 = keyOfRange <$> distinct (rangeOf <$> errorsOf ws).
Proof.
  unfold groupByRange. rewrite <- list_fmap_compose. by apply list_fmap_ext.
Qed.

Lemma groupByRange_snoc ws w :
  groupByRange (ws ++ [w]) = helperCollectionStep (groupByRange ws) w.
Proof.
  unfold helperCollectionStep. rewrite isWarning_decide.
  case_bool_decide as Hw.
  { unfold groupByRange, rulesAt. rewrite errorsOf_snoc.
    rewrite decide_False by done. by rewrite app_nil_r. }
  change (key (line w) (endLine w)) with (keyOfRange (rangeOf w)).
  unfold Js.MapHas, Js.MapSet, Js.MapHas. rewrite groupByRange_keys.
  pose proof (NoDup_distinct (rangeOf <$> errorsOf ws)) as Hnd.
  unfold groupByRange at 1. rewrite errorsOf_snoc, decide_True by done.
  rewrite fmap_app. change (rangeOf <$> [w]) with [rangeOf w].
  rewrite distinct_snoc.
  case_bool_decide as Hin; simpl.
  - apply (list_elem_of_fmap_inj_2 keyOfRange) in Hin.
    pose proof (proj1 (elem_of_distinct _ _) Hin) as Hin'.
    rewrite decide_True by done.
    unfold groupByRange.
    rewrite (MapAlter_fmap _ keyOfRange (λ r, rulesAt r ws)) by done.
    apply list_fmap_ext. intros i r Hr. f_equal.
    rewrite rulesAt_snoc_error by done.
    destruct (decide (rangeOf w = r)), (decide (r = rangeOf w)); congruence.
  - assert (rangeOf w ∉ rangeOf <$> errorsOf ws) as Hout.
    { intros H. apply Hin. apply list_elem_of_fmap_2. by apply elem_of_distinct. }
    rewrite decide_False by done.
    rewrite MapAlter_app_absent by (by rewrite groupByRange_keys).
    simpl. rewrite String.eqb_refl. rewrite fmap_app. simpl. f_equal.
    + apply list_fmap_ext. intros i r Hr. f_equal.
      rewrite rulesAt_snoc_error by done. rewrite decide_False; [done|].
      intros <-. apply Hout. apply elem_of_distinct.
      eapply list_elem_of_lookup_2, Hr.
    + f_equal. f_equal. rewrite rulesAt_snoc_error by done.
      rewrite decide_True by done. by rewrite rulesAt_absent.
Qed.

(** The collection the code builds is the grouping of the specification. *)
Lemma helperCollection_groupByRange ws :
  helperCollectionFilesErrorsFromWarningsArray ws = groupByRange ws.
Proof.
  unfold helperCollectionFilesErrorsFromWarningsArray.
  induction ws as [|w ws IH] using rev_ind; [done|].
  by rewrite foldl_snoc, IH, groupByRange_snoc.
Qed.

End planner.

Section plan.
Implicit Types (ws : list Warning) (w : Warning) (range : Z * Z).
Implicit Types (entry : string * list string).

Lemma elem_of_groupByRange entry ws :
  entry ∈ groupByRange ws ↔
  ∃ range, entry = (keyOfRange range, rulesAt range ws)
           ∧ range ∈ rangeOf <$> errorsOf ws.
Proof.
  unfold groupByRange. rewrite list_elem_of_fmap.
  split; intros (range & H1 & H2); exists range; (split; [exact H1|]).
  - exact (proj1 (elem_of_distinct _ _) H2).
  - exact (proj2 (elem_of_distinct _ _) H2).
Qed.

Lemma groupByRange_starts entry ws :
  entry ∈ groupByRange ws → ∃ s, startsAt s entry.
Proof.
  intros ([s e] & -> & _)%elem_of_groupByRange. exists s.
  apply startLineOf_key.
Qed.

Lemma startsAt_startOr0 entry s : startsAt s entry → startOr0 entry = s.
Proof. unfold startsAt, startOr0. by intros ->. Qed.

Lemma compareEntries_starts a b s1 s2 :
  startsAt s1 a → startsAt s2 b → compareEntries a b = s1 - s2.
Proof. unfold startsAt, compareEntries. by intros -> ->. Qed.

Lemma planOf_sort ws :
  planOf ws = Js.sort (λ a b, startOr0 a - startOr0 b) (groupByRange ws).
Proof.
  unfold planOf, helperSortedEntiresFromCollectionFilesErrors.
  rewrite helperCollection_groupByRange. apply sort_ext.
  intros a b [s1 Ha]%groupByRange_starts [s2 Hb]%groupByRange_starts.
  rewrite (compareEntries_starts a b s1 s2) by done.
  by rewrite (startsAt_startOr0 a s1), (startsAt_startOr0 b s2).
Qed.

Lemma planOf_perm ws : planOf ws ≡ₚ groupByRange ws.
Proof. rewrite planOf_sort. apply sort_perm. Qed.

Lemma planOf_starts entry ws : entry ∈ planOf ws → ∃ s, startsAt s entry.
Proof. rewrite planOf_perm. apply groupByRange_starts. Qed.

Lemma StronglySorted_impl_in {A} (R R' : A → A → Prop) (l : list A) :
  (∀ x y, x ∈ l → y ∈ l → R x y → R' x y) →
  StronglySorted R l → StronglySorted R' l.
Proof.
  intros HR Hs. induction Hs as [|x l Hl IH Hx]; [constructor|].
  constructor.
  - apply IH. intros a b Ha Hb. apply HR; by right.
  - rewrite Forall_forall in Hx |- *. intros y Hy.
    apply HR; [left | by right | by apply Hx].
Qed.

Lemma filter_ext_in {A} (P Q : A → Prop) `{∀ x, Decision (P x)}
    `{∀ x, Decision (Q x)} (l : list A) :
  (∀ x, x ∈ l → P x ↔ Q x) → filter P l = filter Q l.
Proof.
  induction l as [|x l IH]; [done|]. intros HPQ.
  rewrite !filter_cons, IH by (intros; apply HPQ; by right).
  destruct (decide (P x)) as [HP|HP], (decide (Q x)) as [HQ|HQ]; try done.
  - exfalso. apply HQ, HPQ; [left | done].
  - exfalso. apply HP, HPQ; [left | done].
Qed.

Lemma planOf_sorted ws : StronglySorted startLe (planOf ws).
Proof.
  eapply StronglySorted_impl_in; [|rewrite planOf_sort; apply sort_sorted].
  intros a b [s1 Ha]%planOf_starts [s2 Hb]%planOf_starts Hle.
  exists s1, s2. split_and!; try done.
  by rewrite (startsAt_startOr0 a s1), (startsAt_startOr0 b s2) in Hle.
Qed.

Lemma planOf_stable ws s :
  filter (startsAt s) (planOf ws) = filter (startsAt s) (groupByRange ws).
Proof.
  rewrite (filter_ext_in (startsAt s) (λ entry, startOr0 entry = s) (planOf ws)).
  2:{ intros entry [s' He]%planOf_starts. rewrite (startsAt_startOr0 _ _ He).
      unfold startsAt in *. rewrite He. split; congruence. }
  rewrite (filter_ext_in (startsAt s) (λ entry, startOr0 entry = s)
             (groupByRange ws)).
  2:{ intros entry [s' He]%groupByRange_starts.
      rewrite (startsAt_startOr0 _ _ He).
      unfold startsAt in *. rewrite He. split; congruence. }
  rewrite planOf_sort. apply (sort_stable startOr0).
Qed.

Lemma groupByRange_NoDup ws : NoDup (groupByRange ws).*1.
Proof.
  rewrite groupByRange_keys. apply (NoDup_fmap_2 _), NoDup_distinct.
Qed.

Lemma planOf_NoDup ws : NoDup (planOf ws).*1.
Proof. rewrite planOf_perm. apply groupByRange_NoDup. Qed.

Lemma elem_of_rulesAt r range ws :
  r ∈ rulesAt range ws ↔
  ∃ w, w ∈ ws ∧ isError w ∧ rangeOf w = range ∧ rule w = r.
Proof.
  unfold rulesAt. rewrite elem_of_distinct, list_elem_of_fmap.
  unfold errorsOf. split.
  - intros (w & -> & Hw). apply list_elem_of_filter in Hw as [Hr Hw].
    apply list_elem_of_filter in Hw as [He Hw]. by exists w.
  - intros (w & Hw & He & Hr & <-). exists w. split; [done|].
    by rewrite !list_elem_of_filter.
Qed.

Lemma elem_of_ranges range ws :
  range ∈ rangeOf <$> errorsOf ws ↔ ∃ w, w ∈ ws ∧ isError w ∧ rangeOf w = range.
Proof.
  rewrite list_elem_of_fmap. unfold errorsOf. split.
  - intros (w & -> & Hw). apply list_elem_of_filter in Hw as [He Hw].
    by exists w.
  - intros (w & Hw & He & <-). exists w. by rewrite list_elem_of_filter.
Qed.

End plan.

(** ** The claims about the planner and the writer *)



(** C2 (single-line mode).  One entry met with the counter at [c] splices
    one disable-next-line comment at index [startLine - 1 + c] and leaves
    the counter at [c + 1].  Over a plan sorted by start line whose start
    lines are lines of the file, the comment of the [k]-th entry stands at
    index [startLine - 1 + k] of the final buffer, the buffer grows by one
    line per entry, and every line of the file comes after the comments of
    the entries that start at or before it; when the entries start at
    different lines every comment stands right before the line it is for.
    For five lines and the plan [(2,2,{x}), (4,4,{y})] the comments are at
    indices 1 and 4 of seven lines, each before the line it is for. *)
Theorem single_line_offsets :
  (∀ (buf : list string) c s e rules,
     commentStep false (buf, c) (key s e, rules)
     = (Js.splice buf (Some (s - 1 + c)) (comment rules "disable-next-line"),
        c + 1))
  ∧ (∀ (buf : list string) plan,
       StronglySorted startLe plan →
       Forall (λ entry, ∃ s, startsAt s entry ∧ 1 ≤ s ≤ Z.of_nat (length buf))
              plan →
       ∃ final,
         commentLoop false plan buf = (final, Z.of_nat (length plan))
         ∧ length final = (length buf + length plan)%nat
         ∧ (∀ k entry s, plan !! k = Some entry → startsAt s entry →
              final !! (Z.to_nat (s - 1) + k)%nat
              = Some (comment entry.2 "disable-next-line"))
         ∧ (∀ i, (i < length buf)%nat →
              final !! (i + insertedBefore i plan)%nat = buf !! i))
  ∧ (∀ (buf : list string) plan,
       StronglySorted startLt plan →
       Forall (λ entry, ∃ s, startsAt s entry ∧ 1 ≤ s ≤ Z.of_nat (length buf))
              plan →
       ∃ final,
         commentLoop false plan buf = (final, Z.of_nat (length plan))
         ∧ ∀ k entry s, plan !! k = Some entry → startsAt s entry →
             final !! (Z.to_nat (s - 1) + k)%nat
             = Some (comment entry.2 "disable-next-line")
             ∧ final !! (Z.to_nat (s - 1) + k + 1)%nat
               = buf !! Z.to_nat (s - 1))
  ∧ (∀ l1 l2 l3 l4 l5 : string,
       commentLoop false [(key 2 2, ["x"%string]); (key 4 4, ["y"%string])]
                   [l1; l2; l3; l4; l5]
       = ([l1; "/* stylelint-disable-next-line x */"%string; l2; l3;
           "/* stylelint-disable-next-line y */"%string; l4; l5], 2))
  ∧ (∀ l1 l2 l3 l4 l5 : string,
       commentedLines false
         [ {| severity := "error"; line := 2; endLine := 2; rule := "x" |};
           {| severity := "error"; line := 4; endLine := 4; rule := "y" |} ]
         [l1; l2; l3; l4; l5]
       = [l1; "/* stylelint-disable-next-line x */"%string; l2; l3;
          "/* stylelint-disable-next-line y */"%string; l4; l5]).
Proof.
  split_and!.
  - intros buf c s e rules. apply commentStep_single, startLineOf_key.
  - intros buf plan. apply commentLoop_single.
  - intros buf plan. apply commentLoop_single_strict.
  - intros l1 l2 l3 l4 l5. reflexivity.
  - intros l1 l2 l3 l4 l5. reflexivity.
Qed.

(** C2, at five lines and the plan of the claim. *)
Lemma single_line_offsets_witness :
  let buf := ["a"; "b"; "c"; "d"; "e"]%string in
  let plan := [(key 2 2, ["x"%string]); (key 4 4, ["y"%string])] in
  (∃ final,
     commentLoop false plan buf = (final, Z.of_nat (length plan))
     ∧ length final = (length buf + length plan)%nat
     ∧ (∀ k entry s, plan !! k = Some entry → startsAt s entry →
          final !! (Z.to_nat (s - 1) + k)%nat
          = Some (comment entry.2 "disable-next-line"))
     ∧ (∀ i, (i < length buf)%nat →
          final !! (i + insertedBefore i plan)%nat = buf !! i))
  ∧ (∃ final,
       commentLoop false plan buf = (final, Z.of_nat (length plan))
       ∧ ∀ k entry s, plan !! k = Some entry → startsAt s entry →
           final !! (Z.to_nat (s - 1) + k)%nat
           = Some (comment entry.2 "disable-next-line")
           ∧ final !! (Z.to_nat (s - 1) + k + 1)%nat
             = buf !! Z.to_nat (s - 1)).
Proof.
  intros buf plan.
  assert (Forall (λ entry, ∃ s, startsAt s entry
                                ∧ 1 ≤ s ≤ Z.of_nat (length buf)) plan)
    as Hrange.
  { repeat constructor.
    - exists 2. split; [reflexivity | simpl; lia].
    - exists 4. split; [reflexivity | simpl; lia]. }
  split.
  - apply (proj1 (proj2 single_line_offsets)); [|exact Hrange].
    repeat constructor. exists 2, 4. split_and!; [reflexivity..|lia].
  - apply (proj1 (proj2 (proj2 single_line_offsets))); [|exact Hrange].
    repeat constructor. exists 2, 4. split_and!; [reflexivity..|lia].
Defined.

(** C3 (grouping).  The collection the planner builds is the grouping of
    the error-severity warnings by their pair of lines, each group with its
    distinct rules in the order they were met; what is not an error changes
    nothing.  The plan has these groups and no other entry.  For
    [{1,1,a}, {1,1,b}, {3,3,c}] the plan is [(1,1,{a,b})], then
    [(3,3,{c})]. *)
Theorem planner_grouping :
  (∀ ws, helperCollectionFilesErrorsFromWarningsArray ws = groupByRange ws)
  ∧ (∀ ws, planOf ws = planOf (filter isError ws))
  ∧ (∀ ws, planOf ws ≡ₚ groupByRange ws)
  ∧ (∀ ws s e r,
       (∃ rules, (key s e, rules) ∈ planOf ws ∧ r ∈ rules)
       ↔ (∃ w, w ∈ ws ∧ severity w = "error"%string
               ∧ line w = s ∧ endLine w = e ∧ rule w = r))
  ∧ (∀ ws entry, entry ∈ planOf ws →
       (∃ s e, entry.1 = key s e) ∧ NoDup entry.2 ∧ entry.2 ≠ [])
  ∧ (∀ ws i j s e rules rules',
       planOf ws !! i = Some (key s e, rules) →
       planOf ws !! j = Some (key s e, rules') → i = j)
  ∧ planOf [ {| severity := "error"; line := 1; endLine := 1; rule := "a" |};
             {| severity := "error"; line := 1; endLine := 1; rule := "b" |};
             {| severity := "error"; line := 3; endLine := 3; rule := "c" |} ]
    = [(key 1 1, ["a"; "b"]%string); (key 3 3, ["c"%string])].
Proof.
  split_and!.
  - apply helperCollection_groupByRange.
  - intros ws. unfold planOf. rewrite !helperCollection_groupByRange.
    f_equal. unfold groupByRange, rulesAt, errorsOf.
    by rewrite (list_filter_filter_l isError isError) by done.
  - apply planOf_perm.
  - intros ws s e r. split.
    + intros (rules & Hin & Hr). rewrite planOf_perm in Hin.
      apply elem_of_groupByRange in Hin as (range & [= Hk ->] & _).
      apply (inj keyOfRange (s, e)) in Hk as <-.
      apply elem_of_rulesAt in Hr as (w & Hw & He & [= <- <-] & <-).
      by exists w.
    + intros (w & Hw & He & <- & <- & <-). exists (rulesAt (rangeOf w) ws).
      split.
      * rewrite planOf_perm. apply elem_of_groupByRange. exists (rangeOf w).
        split; [done|]. apply elem_of_ranges. by exists w.
      * apply elem_of_rulesAt. by exists w.
  - intros ws entry Hin. rewrite planOf_perm in Hin.
    apply elem_of_groupByRange in Hin as ([s e] & -> & Hr). split_and!.
    + by exists s, e.
    + apply NoDup_distinct.
    + apply elem_of_ranges in Hr as (w & Hw & He & Hr). simpl.
      intros Hnil.
      assert (rule w ∈ rulesAt (s, e) ws) as Hin
        by (apply elem_of_rulesAt; by exists w).
      rewrite Hnil in Hin. by apply not_elem_of_nil in Hin.
  - intros ws i j s e rules rules' Hi Hj.
    eapply NoDup_lookup; [apply (planOf_NoDup ws)|..].
    + rewrite list_lookup_fmap, Hi. reflexivity.
    + rewrite list_lookup_fmap, Hj. reflexivity.
  - reflexivity.
Qed.

(** C3, at two errors of one range and a warning between them. *)
Lemma planner_grouping_witness :
  let ws := [ {| severity := "error"; line := 1; endLine := 1; rule := "a" |};
              {| severity := "warning"; line := 2; endLine := 2; rule := "w" |};
              {| severity := "error"; line := 1; endLine := 1; rule := "b" |} ] in
  (∃ s e, key 1 1 = key s e)
  ∧ NoDup ["a"; "b"]%string ∧ ["a"; "b"]%string ≠ [].
Proof.
  intros ws.
  apply (proj1 (proj2 (proj2 (proj2 (proj2 planner_grouping)))) ws
           (key 1 1, ["a"; "b"]%string)).
  vm_compute. left.
Defined.

(** C6, as the code has it.  The plan is sorted by start line, the
    entries of one start line keep the order the collection had them in,
    and the keys of the plan are the keys of distinct pairs of a start and
    an end line: no two entries have the same pair. *)
Theorem plan_ordering ws :
  StronglySorted startLe (planOf ws)
  ∧ (∀ s, filter (startsAt s) (planOf ws)
          = filter (startsAt s)
                   (helperCollectionFilesErrorsFromWarningsArray ws))
  ∧ (∃ ranges : list (Z * Z),
       NoDup ranges ∧ (planOf ws).*1 = keyOfRange <$> ranges).
Proof.
  split_and!.
  - apply planOf_sorted.
  - intros s. rewrite helperCollection_groupByRange. apply planOf_stable.
  - pose proof (planOf_perm ws) as Hperm.
    apply (fmap_Permutation fst) in Hperm. rewrite groupByRange_keys in Hperm.
    apply Permutation_map_inv in Hperm as (ranges & Hkeys & Hranges).
    exists ranges. split; [|done].
    rewrite <- Hranges. apply NoDup_distinct.
Qed.

(** C6, at three errors, two of them starting at line 1. *)
Lemma plan_ordering_witness :
  let ws := [ {| severity := "error"; line := 3; endLine := 3; rule := "c" |};
              {| severity := "error"; line := 1; endLine := 2; rule := "a" |};
              {| severity := "error"; line := 1; endLine := 1; rule := "b" |} ] in
  StronglySorted startLe (planOf ws)
  ∧ (∀ s, filter (startsAt s) (planOf ws)
          = filter (startsAt s)
                   (helperCollectionFilesErrorsFromWarningsArray ws))
  ∧ (∃ ranges : list (Z * Z),
       NoDup ranges ∧ (planOf ws).*1 = keyOfRange <$> ranges).
Proof. intros ws. apply (plan_ordering ws). Defined.

(** C6 as written fails: two errors that start at line 1 and end at
    different lines give two entries of the plan with the start line 1. *)
Lemma plan_startLine_shared :
  let ws := [ {| severity := "error"; line := 1; endLine := 3; rule := "a" |};
              {| severity := "error"; line := 1; endLine := 1; rule := "b" |} ] in
  planOf ws = [(key 1 3, ["a"%string]); (key 1 1, ["b"%string])]
  ∧ ∃ i j entry1 entry2,
      i ≠ j ∧ planOf ws !! i = Some entry1 ∧ planOf ws !! j = Some entry2
      ∧ startsAt 1 entry1 ∧ startsAt 1 entry2.
Proof.
  split; [reflexivity|].
  exists 0%nat, 1%nat, (key 1 3, ["a"%string]), (key 1 1, ["b"%string]).
  split_and!; [lia | reflexivity..].
Qed.

(** ** Running the scripts *)

Section runs.
Context {Σ : Type}.

Lemma run_bind {A B} (m : M Σ A) (f : A → M Σ B) σ :
  (m ≫= f) σ = match m σ with
               | (Ok a, σ') => f a σ'
               | (Throw e, σ') => (Throw e, σ')
               end.
Proof. reflexivity. Qed.

Lemma run_ret {A} (a : A) (σ : Σ) : mret (M := M Σ) a σ = (Ok a, σ).
Proof. reflexivity. Qed.

Lemma run_tryCatch {A} (m : M Σ A) h σ :
  tryCatch m h σ = match m σ with
                   | (Ok a, σ') => (Ok a, σ')
                   | (Throw e, σ') => h e σ'
                   end.
Proof. reflexivity. Qed.

Lemma forOf_nil {X} (body : X → M Σ ()) σ : forOf [] body σ = (Ok (), σ).
Proof. reflexivity. Qed.

Lemma forOf_cons {X} x (xs : list X) (body : X → M Σ ()) σ :
  forOf (x :: xs) body σ = match body x σ with
                           | (Ok _, σ') => forOf xs body σ'
                           | (Throw e, σ') => (Throw e, σ')
                           end.
Proof. reflexivity. Qed.

Lemma foldOf_nil {X B} (body : B → X → M Σ B) b σ :
  foldOf [] body b σ = (Ok b, σ).
Proof. reflexivity. Qed.

Lemma foldOf_cons {X B} x (xs : list X) (body : B → X → M Σ B) b σ :
  foldOf (x :: xs) body b σ = match body b x σ with
                              | (Ok b', σ') => foldOf xs body b' σ'
                              | (Throw e, σ') => (Throw e, σ')
                              end.
Proof. reflexivity. Qed.

End runs.

Global Arguments forOf : simpl never.
Global Arguments foldOf : simpl never.

Section lists.
Context {A : Type}.

Lemma filter_all (P : A → Prop) `{∀ x, Decision (P x)} (l : list A) :
  (∀ x, x ∈ l → P x) → filter P l = l.
Proof.
  induction l as [|x l IH]; [done|]. intros HP.
  rewrite filter_cons, decide_True by (apply HP; left).
  f_equal. apply IH. intros y Hy. apply HP. by right.
Qed.

End lists.

(** ** The disable-comment filter *)

Section filter.
Implicit Types (d : gmap string string) (w : World).
Implicit Types (files todo cur : list string).

Lemma filter_notin_nil cur : filter (λ file, file ∉ @nil string) cur = cur.
Proof. apply filter_all. intros x _. apply not_elem_of_nil. Qed.

Lemma skipped_skips d todo file : file ∈ skipped d todo → skips d file = true.
Proof.
  induction todo as [|f todo IH]; simpl; [intros []%not_elem_of_nil|].
  destruct (d !! f) as [data|] eqn:Hd; [|intros []%not_elem_of_nil].
  rewrite elem_of_app. intros [Hin|Hin]; [|by apply IH].
  destruct (skips d f) eqn:Hs; [|by apply not_elem_of_nil in Hin].
  by apply list_elem_of_singleton in Hin as ->.
Qed.

(** What the filter has left, it leaves: nothing more is deleted, and the
    file that could not be read is met again. *)
Lemma skipped_kept_gen d todo (T : list string) :
  (∀ file, file ∈ T → skips d file = true) →
  let rest := filter (λ file, (file ∉ T) ∧ (file ∉ skipped d todo)) todo in
  skipped d rest = [] ∧ firstMissing d rest = firstMissing d todo.
Proof.
  revert T. induction todo as [|f todo IH]; intros T HT; [done|]. simpl.
  destruct (d !! f) as [data|] eqn:Hd.
  - destruct (skips d f) eqn:Hs; simpl.
    + rewrite filter_cons, decide_False.
      2:{ intros [_ Hf]. apply Hf. left. }
      destruct (IH (f :: T)) as [IH1 IH2].
      { intros x [->|Hx]%elem_of_cons; [done | by apply HT]. }
      rewrite (list_filter_iff _
                 (λ file, (file ∉ f :: T) ∧ (file ∉ skipped d todo))).
      2:{ intros x. rewrite !not_elem_of_cons. tauto. }
      done.
    + rewrite filter_cons, decide_True.
      2:{ split.
          - intros Hf. apply HT in Hf. congruence.
          - intros Hf. apply skipped_skips in Hf. congruence. }
      simpl. rewrite Hd, Hs. simpl. by apply IH.
  - rewrite filter_cons, decide_True.
    2:{ split; [|apply not_elem_of_nil].
        intros Hf. apply HT in Hf. unfold skips in Hf. by rewrite Hd in Hf. }
    simpl. rewrite Hd. done.
Qed.

Lemma skipped_kept d files : skipped d (kept d files) = [].
Proof.
  unfold kept. destruct (skipped_kept_gen d files []) as [H _].
  { intros file []%not_elem_of_nil. }
  rewrite <- H. f_equal. apply list_filter_iff. intros x.
  split; [intros ?; split; [apply not_elem_of_nil|done] | tauto].
Qed.

Lemma firstMissing_kept d files :
  firstMissing d (kept d files) = firstMissing d files.
Proof.
  unfold kept. destruct (skipped_kept_gen d files []) as [_ H].
  { intros file []%not_elem_of_nil. }
  rewrite <- H. f_equal. apply list_filter_iff. intros x.
  split; [intros ?; split; [apply not_elem_of_nil|done] | tauto].
Qed.

Lemma kept_kept d files : kept d (kept d files) = kept d files.
Proof.
  unfold kept at 1. rewrite skipped_kept. apply filter_all.
  intros x _. apply not_elem_of_nil.
Qed.

(** When every file can be read, the files kept are those that do not
    start with the comment. *)
Lemma kept_readable d files :
  (∀ file, file ∈ files → is_Some (d !! file)) →
  firstMissing d files = None
  ∧ kept d files = filter (λ file, skips d file = false) files.
Proof.
  intros Hr.
  assert (firstMissing d files = None
          ∧ ∀ x, x ∈ skipped d files ↔ x ∈ files ∧ skips d x = true) as [H1 H2].
  { induction files as [|f files IH]; simpl.
    - split; [done|]. intros x. split; [intros []%not_elem_of_nil|].
      intros [[]%not_elem_of_nil _].
    - destruct (Hr f) as [data Hd]; [left|]. rewrite Hd.
      destruct IH as [IH1 IH2]; [intros; apply Hr; by right|].
      split; [done|]. intros x. rewrite elem_of_app, IH2, elem_of_cons.
      destruct (skips d f) eqn:Hs.
      + rewrite list_elem_of_singleton. split; [|tauto].
        intros [->|[? ?]]; [by split; [left|] | tauto].
      + split; [intros [?%not_elem_of_nil|[? ?]]; [done|tauto]|].
        intros [[->|?] ?]; [congruence | tauto]. }
  split; [done|]. unfold kept. apply filter_ext_in. intros x Hx.
  rewrite H2. destruct (skips d x).
  - split; [|done]. intros H. exfalso. by apply H.
  - split; [done|]. by intros _ [_ ?].
Qed.

(** The loop of the eliminator's filter over the files [todo], from the
    set [cur]. *)
Lemma Delete_disableFileStep_run file cur w :
  Delete.disableFileStep file (Some cur, w)
  = match disk w !! file with
    | None => (Throw (ENOENT file), (Some cur, w))
    | Some _ =>
        (Ok (), (Some (if skips (disk w) file
                       then filter (λ y, y ≠ file) cur else cur), w))
    end.
Proof.
  unfold Delete.disableFileStep, skips, skipFile, readFile, inWorld.
  rewrite !run_bind.
  destruct (disk w !! file) as [data|]; [|done].
  simpl. by destruct (skipFileFrom (readline data)).
Qed.

Lemma Delete_disableLoop_run todo cur w :
  forOf todo Delete.disableFileStep (Some cur, w)
  = (outcome (firstMissing (disk w) todo),
     (Some (filter (λ file, file ∉ skipped (disk w) todo) cur), w)).
Proof.
  revert cur. induction todo as [|file todo IH]; intros cur.
  - rewrite forOf_nil. simpl. by rewrite filter_notin_nil.
  - rewrite forOf_cons, Delete_disableFileStep_run. simpl.
    destruct (disk w !! file) as [data|] eqn:Hd.
    + rewrite IH. do 3 f_equal.
      destruct (skips (disk w) file); simpl; [|done].
      rewrite list_filter_filter. apply list_filter_iff. intros x.
      rewrite not_elem_of_cons. tauto.
    + by rewrite filter_notin_nil.
Qed.

Lemma Delete_filter_run files w :
  Delete.filterFilesWithDisableComment (Some files) w
  = (Ok (Some (kept (disk w) files)),
     reported FilteringDisable (firstMissing (disk w) files) w).
Proof.
  unfold Delete.filterFilesWithDisableComment, withObject.
  rewrite run_tryCatch, !run_bind. simpl.
  rewrite run_bind, run_ret, Delete_disableLoop_run.
  by destruct (firstMissing (disk w) files).
Qed.

Lemma Delete_filter_undefined w :
  Delete.filterFilesWithDisableComment None w
  = (Ok None, said (ErrorAt FilteringDisable TypeError) w).
Proof. reflexivity. Qed.

(** The compactor's filter.  [before ++ (line, cur) :: rest] is the map
    while the loop is at the entry [line]. *)
Lemma MapGet_app_absent {V} k (m m' : list (string * V)) :
  k ∉ m.*1 → Js.MapGet k (m ++ m') = Js.MapGet k m'.
Proof.
  induction m as [|[k' v] m IH]; simpl; [done|].
  rewrite not_elem_of_cons. intros [Hk Hm].
  rewrite eqb_decide, bool_decide_eq_false_2 by done. by apply IH.
Qed.

Lemma MapDelete_absent {V} k (m : list (string * V)) :
  k ∉ m.*1 → Js.MapDelete k m = m.
Proof.
  intros Hk. unfold Js.MapDelete. apply filter_all.
  intros [k' v] Hin Heq. apply Hk. simpl in Heq. subst k'.
  apply list_elem_of_fmap. by exists (k, v).
Qed.

Lemma MapDelete_middle {V} k (v : V) (m m' : list (string * V)) :
  NoDup (m ++ (k, v) :: m').*1 → Js.MapDelete k (m ++ (k, v) :: m') = m ++ m'.
Proof.
  rewrite fmap_app, fmap_cons. simpl.
  intros (Hm & Hdisj & [Hk Hm']%NoDup_cons)%NoDup_app.
  unfold Js.MapDelete. rewrite filter_app, filter_cons. simpl.
  rewrite decide_False by tauto.
  fold (Js.MapDelete k m). fold (Js.MapDelete k m').
  rewrite !MapDelete_absent; [done..|].
  intros Hin. apply (Hdisj _ Hin). left.
Qed.

Lemma Compress_disableFileStep_run line file before cur rest w :
  line ∉ before.*1 →
  Compress.disableFileStep line file (Some (before ++ (line, cur) :: rest), w)
  = match disk w !! file with
    | None => (Throw (ENOENT file), (Some (before ++ (line, cur) :: rest), w))
    | Some _ =>
        (Ok (), (Some (before ++ (line, if skips (disk w) file
                                      then filter (λ y, y ≠ file) cur else cur)
                              :: rest), w))
    end.
Proof.
  intros Hline.
  unfold Compress.disableFileStep, skips, skipFile, readFile, inWorld.
  rewrite !run_bind.
  destruct (disk w !! file) as [data|]; [|done].
  simpl. destruct (skipFileFrom (readline data)); [|done].
  unfold modifyObject. simpl. rewrite MapAlter_app_absent by done.
  simpl. by rewrite String.eqb_refl.
Qed.

Lemma Compress_disableLoop_run line todo before cur rest w :
  line ∉ before.*1 →
  forOf todo (Compress.disableFileStep line)
        (Some (before ++ (line, cur) :: rest), w)
  = (outcome (firstMissing (disk w) todo),
     (Some (before ++ (line, filter (λ file, file ∉ skipped (disk w) todo) cur)
                 :: rest), w)).
Proof.
  intros Hline. revert cur.
  induction todo as [|file todo IH]; intros cur.
  - rewrite forOf_nil. simpl. by rewrite filter_notin_nil.
  - rewrite forOf_cons, Compress_disableFileStep_run by done. simpl.
    destruct (disk w !! file) as [data|] eqn:Hd.
    + rewrite IH. do 5 f_equal.
      destruct (skips (disk w) file); simpl; [|done].
      rewrite list_filter_filter. f_equal. apply list_filter_iff. intros x.
      rewrite not_elem_of_cons. tauto.
    + by rewrite filter_notin_nil.
Qed.

Lemma Compress_dropIfEmpty_run line before cur rest w :
  NoDup (before ++ (line, cur) :: rest).*1 →
  Compress.dropIfEmpty line (Some (before ++ (line, cur) :: rest), w)
  = (Ok (), (Some (before ++ (if (length cur =? 0)%nat then []
                            else [(line, cur)]) ++ rest), w)).
Proof.
  intros Hnd. pose proof Hnd as Hnd'.
  rewrite fmap_app, fmap_cons in Hnd'. simpl in Hnd'.
  apply NoDup_app in Hnd' as (_ & Hdisj & _).
  assert (line ∉ before.*1) as Hline by (intros Hin; apply (Hdisj _ Hin); left).
  unfold Compress.dropIfEmpty. rewrite run_bind. simpl.
  unfold sizeIsZero. rewrite MapGet_app_absent by done. simpl.
  rewrite String.eqb_refl.
  destruct (length cur =? 0)%nat; simpl; [|done].
  unfold modifyObject. simpl. by rewrite MapDelete_middle.
Qed.

Lemma Compress_disableEntries_run entries before w :
  NoDup (before ++ entries).*1 →
  forOf entries Compress.disableEntryStep (Some (before ++ entries), w)
  = (outcome (firstMissingEntry (disk w) entries),
     (Some (before ++ keptEntries (disk w) entries), w)).
Proof.
  revert before. induction entries as [|[line files] entries IH];
    intros before Hnd; [done|].
  pose proof Hnd as Hnd'.
  rewrite fmap_app, fmap_cons in Hnd'. simpl in Hnd'.
  apply NoDup_app in Hnd' as (Hbefore & Hdisj & [Hl He]%NoDup_cons).
  assert (line ∉ before.*1) as Hline by (intros Hin; apply (Hdisj _ Hin); left).
  rewrite forOf_cons. unfold Compress.disableEntryStep at 1.
  rewrite !run_bind. rewrite Compress_disableLoop_run by done. simpl.
  fold (kept (disk w) files).
  destruct (firstMissing (disk w) files) as [e|]; simpl; [done|].
  rewrite Compress_dropIfEmpty_run.
  2:{ rewrite fmap_app, fmap_cons. simpl. apply NoDup_app. split_and!; try done.
      by constructor. }
  destruct (length (kept (disk w) files) =? 0)%nat; simpl.
  - apply IH. rewrite fmap_app. apply NoDup_app. split_and!; try done.
    intros x Hx Hx'. apply (Hdisj x Hx). by right.
  - rewrite (cons_middle _ before), app_assoc. rewrite IH.
    + by rewrite <- app_assoc.
    + rewrite <- app_assoc. simpl. rewrite fmap_app, fmap_cons. simpl.
      apply NoDup_app. split_and!; try done. by constructor.
Qed.

Lemma Compress_filter_run entries w :
  NoDup entries.*1 →
  Compress.filterFilesWithDisableComment (Some entries) w
  = (Ok (Some (keptEntries (disk w) entries)),
     reported FilteringDisable (firstMissingEntry (disk w) entries) w).
Proof.
  intros Hnd.
  unfold Compress.filterFilesWithDisableComment, withObject.
  rewrite run_tryCatch, !run_bind. simpl.
  rewrite run_bind, run_ret, (Compress_disableEntries_run entries []) by done.
  by destruct (firstMissingEntry (disk w) entries).
Qed.

Lemma keptEntries_keys d entries : (keptEntries d entries).*1 `sublist_of` entries.*1.
Proof.
  induction entries as [|[line files] entries IH]; simpl; [done|].
  destruct (firstMissing d files); simpl; [done|].
  destruct (length (kept d files) =? 0)%nat; simpl.
  - by apply sublist_cons.
  - by apply sublist_skip.
Qed.

Lemma keptEntries_NoDup d entries :
  NoDup entries.*1 → NoDup (keptEntries d entries).*1.
Proof. intros Hnd. eapply sublist_NoDup; [done | apply keptEntries_keys]. Qed.

Lemma keptEntries_kept d entries :
  keptEntries d (keptEntries d entries) = keptEntries d entries.
Proof.
  induction entries as [|[line files] entries IH]; simpl; [done|].
  destruct (firstMissing d files) as [e|] eqn:Hm; simpl.
  - by rewrite firstMissing_kept, Hm, kept_kept.
  - destruct (length (kept d files) =? 0)%nat eqn:Hz; simpl; [done|].
    by rewrite firstMissing_kept, Hm, kept_kept, Hz, IH.
Qed.

End filter.

(** C8 (idempotence of the disable-comment filter).  Both filters leave
    the disk as it is and always return; run again on what they returned,
    they return it unchanged.  For the eliminator's filter, when every file
    of the set can be read the files kept are exactly those whose first
    line that is not blank is not the blanket disable comment. *)
Theorem disable_filter_idempotent :
  (∀ files w, ∃ files1 w1 w2,
     Delete.filterFilesWithDisableComment files w = (Ok files1, w1)
     ∧ disk w1 = disk w
     ∧ Delete.filterFilesWithDisableComment files1 w1 = (Ok files1, w2)
     ∧ disk w2 = disk w)
  ∧ (∀ files w,
       (∀ file, file ∈ files → is_Some (disk w !! file)) →
       Delete.filterFilesWithDisableComment (Some files) w
       = (Ok (Some (filter (λ file, skips (disk w) file = false) files)), w))
  ∧ (∀ entries w,
       NoDup entries.*1 →
       ∃ entries1 w1 w2,
         Compress.filterFilesWithDisableComment (Some entries) w
         = (Ok (Some entries1), w1)
         ∧ disk w1 = disk w
         ∧ Compress.filterFilesWithDisableComment (Some entries1) w1
           = (Ok (Some entries1), w2)
         ∧ disk w2 = disk w).
Proof.
  split_and!.
  - intros [files|] w.
    + assert (∀ e w, disk (reported FilteringDisable e w) = disk w) as Hd
        by (by intros [e|]).
      pose proof (Delete_filter_run files w) as H1.
      pose proof (Delete_filter_run (kept (disk w) files)
                    (reported FilteringDisable (firstMissing (disk w) files) w))
        as H2.
      rewrite Hd, kept_kept in H2.
      eexists _, _, _. split; [exact H1|]. split; [apply Hd|].
      split; [exact H2|]. by rewrite !Hd.
    + eexists _, _, _. rewrite !Delete_filter_undefined. done.
  - intros files w Hr. rewrite Delete_filter_run.
    destruct (kept_readable (disk w) files Hr) as [-> ->]. done.
  - intros entries w Hnd.
    assert (∀ e w, disk (reported FilteringDisable e w) = disk w) as Hd
      by (by intros [e|]).
    pose proof (Compress_filter_run entries w Hnd) as H1.
    pose proof (Compress_filter_run (keptEntries (disk w) entries)
                  (reported FilteringDisable
                     (firstMissingEntry (disk w) entries) w)
                  (keptEntries_NoDup _ _ Hnd)) as H2.
    rewrite Hd, keptEntries_kept in H2.
    eexists _, _, _. split; [exact H1|]. split; [apply Hd|].
    split; [exact H2|]. by rewrite !Hd.
Qed.

(** C8, at two files, the first of which starts with the comment. *)
Lemma disable_filter_idempotent_witness :
  let w := diskOf [("a.css", "/* stylelint-disable */"); ("b.css", "a { }")]%string in
  (Delete.filterFilesWithDisableComment (Some ["a.css"; "b.css"]%string) w
   = (Ok (Some (filter (λ file, skips (disk w) file = false)
                       ["a.css"; "b.css"]%string)), w))
  ∧ ∃ entries1 w1 w2,
      Compress.filterFilesWithDisableComment
        (Some [("src/"%string, ["a.css"; "b.css"]%string)]) w
      = (Ok (Some entries1), w1)
      ∧ disk w1 = disk w
      ∧ Compress.filterFilesWithDisableComment (Some entries1) w1
        = (Ok (Some entries1), w2)
      ∧ disk w2 = disk w.
Proof.
  split.
  - apply (proj1 (proj2 disable_filter_idempotent)).
    intros file Hfile. repeat (apply elem_of_cons in Hfile as [->|Hfile]);
      [by eexists..|by apply not_elem_of_nil in Hfile].
  - apply (proj2 (proj2 disable_filter_idempotent)).
    repeat constructor. by apply not_elem_of_nil.
Defined.

(** ** Hiding and showing the manifest *)

Section manifest.
Implicit Types (w : World) (m : string).

Lemma rename_hide w m :
  disk w !! ".stylelintignore"%string = Some m →
  rename ".stylelintignore" "hash" w = (Ok (), hidden m w).
Proof. intros Hm. unfold rename. by rewrite Hm. Qed.

Lemma rename_hide_missing w :
  disk w !! ".stylelintignore"%string = None →
  rename ".stylelintignore" "hash" w = (Throw (ENOENT ".stylelintignore"), w).
Proof. intros Hm. unfold rename. by rewrite Hm. Qed.

Lemma hidden_hash w m : disk (hidden m w) !! "hash"%string = Some m.
Proof. unfold hidden, moved. simpl. apply lookup_insert_eq. Qed.

Lemma hidden_manifest w m : disk (hidden m w) !! ".stylelintignore"%string = None.
Proof.
  unfold hidden, moved. simpl. rewrite lookup_insert_ne by done.
  apply lookup_delete_eq.
Qed.

Lemma rename_show w m :
  disk w !! "hash"%string = Some m →
  rename "hash" ".stylelintignore" w = (Ok (), shown m w).
Proof. intros Hm. unfold rename. by rewrite Hm. Qed.

Lemma rename_show_hidden w m :
  rename "hash" ".stylelintignore" (hidden m w) = (Ok (), shown m (hidden m w)).
Proof. apply rename_show, hidden_hash. Qed.

Lemma shown_manifest w m : disk (shown m w) !! ".stylelintignore"%string = Some m.
Proof. unfold shown, moved. simpl. apply lookup_insert_eq. Qed.

(** Hiding and showing the manifest loses a file called [hash], and
    nothing else. *)
Lemma shown_hidden_disk w m :
  disk w !! ".stylelintignore"%string = Some m →
  disk (shown m (hidden m w)) = delete "hash"%string (disk w).
Proof.
  intros Hm. unfold shown, hidden, moved. simpl. apply map_eq. intros p.
  destruct (decide (p = ".stylelintignore"%string)) as [->|Hp].
  - rewrite lookup_insert_eq, lookup_delete_ne by done. done.
  - rewrite lookup_insert_ne by done.
    destruct (decide (p = "hash"%string)) as [->|Hp'].
    + by rewrite !lookup_delete_eq.
    + rewrite !lookup_delete_ne, lookup_insert_ne, lookup_delete_ne by done.
      done.
Qed.

Lemma shown_hidden_lookup w m p :
  disk w !! ".stylelintignore"%string = Some m → p ≠ "hash"%string →
  disk (shown m (hidden m w)) !! p = disk w !! p.
Proof.
  intros Hm Hp. rewrite shown_hidden_disk by done. by apply lookup_delete_ne.
Qed.

Lemma shown_hidden_console w m :
  console (shown m (hidden m w)) = console w.
Proof. reflexivity. Qed.

Lemma shown_hidden_trace w m :
  trace (shown m (hidden m w))
  = trace w ++ [Renamed ".stylelintignore" "hash";
                Renamed "hash" ".stylelintignore"].
Proof. unfold shown, hidden, moved. simpl. by rewrite <- app_assoc. Qed.

End manifest.

(** ** The eliminator *)

Section eliminator.
Context `{Externals}.
Implicit Types (w : World) (m : string) (results : list LintResult).

Lemma lint_run config files w :
  lint config files w
  = match stylelint_lint (disk w) config files with
    | Some results => (Ok results, w)
    | None => (Throw LintError, w)
    end.
Proof. reflexivity. Qed.

(** The counter of errors, on every path. *)
Lemma getStylelintCountErrors_run config files w :
  Delete.getStylelintCountErrors config files w
  = match disk w !! ".stylelintignore"%string with
    | None => (Throw (ENOENT ".stylelintignore"), w)
    | Some m =>
        match files with
        | None => (Throw TypeError, hidden m w)
        | Some files =>
            match stylelint_lint (disk (hidden m w)) config files with
            | None => (Throw LintError, hidden m w)
            | Some results =>
                (Ok (Delete.countErrors results), shown m (hidden m w))
            end
        end
    end.
Proof.
  unfold Delete.getStylelintCountErrors. rewrite run_bind.
  destruct (disk w !! ".stylelintignore"%string) as [m|] eqn:Hm.
  - rewrite (rename_hide w m Hm). destruct files as [files|]; [|done].
    rewrite run_bind. simpl. rewrite run_bind, lint_run.
    destruct (stylelint_lint _ _ _) as [results|]; [|done].
    rewrite run_bind, rename_show_hidden. done.
  - by rewrite rename_hide_missing.
Qed.

(** One turn of the loop of the writer. *)
Lemma commentFileStep_run path b (r : LintResult) w :
  Delete.commentFileStep path b r w
  = if errored r then
      match disk w !! source r with
      | None => (Throw (ENOENT (source r)), w)
      | Some data =>
          (Ok (), wrote path EmptyString
                    (wrote (source r)
                       (Js.join Js.newline
                          (commentedLines b (warnings r) (Js.split Js.LF data)))
                       w))
      end
    else (Ok (), w).
Proof.
  unfold Delete.commentFileStep. destruct (errored r); simpl; [|done].
  unfold Delete.helperReadSourceFile, readFile. rewrite !run_bind.
  by destruct (disk w !! source r).
Qed.

Lemma commentLoop_quiet path b results w :
  Forall (λ r, errored r = false) results →
  forOf results (Delete.commentFileStep path b) w = (Ok (), w).
Proof.
  induction 1 as [|r results Hr _ IH]; [done|].
  by rewrite forOf_cons, commentFileStep_run, Hr.
Qed.

(** The loop of the writer when every file with errors can be read: each
    of them is written, and the manifest is emptied right after it. *)
Lemma commentLoop_trace path b results w :
  (∀ r, r ∈ results → errored r = true → is_Some (disk w !! source r)) →
  ∃ w' datas,
    forOf results (Delete.commentFileStep path b) w = (Ok (), w')
    ∧ length datas = length (filter (λ r, errored r = true) results)
    ∧ trace w'
      = trace w ++ concat (zip_with (λ r data, [Written (source r) data;
                                                Written path EmptyString])
                             (filter (λ r, errored r = true) results) datas)
    ∧ console w' = console w
    ∧ (∀ p, is_Some (disk w !! p) → is_Some (disk w' !! p)).
Proof.
  revert w. induction results as [|r results IH]; intros w Hread.
  - exists w, []. rewrite forOf_nil. simpl. by rewrite app_nil_r.
  - rewrite forOf_cons, commentFileStep_run, filter_cons.
    destruct (errored r) eqn:Hr.
    + destruct (Hread r) as [data Hdata]; [left | done |]. rewrite Hdata.
      set (text := Js.join _ _).
      destruct (IH (wrote path EmptyString (wrote (source r) text w)))
        as (w' & datas & Hrun & Hlen & Htrace & Hconsole & Hdisk).
      { intros r' Hr' He. unfold wrote. simpl.
        destruct (decide (path = source r')) as [->|Hp];
          [by rewrite lookup_insert_eq|]. rewrite lookup_insert_ne by done.
        destruct (decide (source r = source r')) as [->|Hs];
          [by rewrite lookup_insert_eq|]. rewrite lookup_insert_ne by done.
        apply Hread; [by right | done]. }
      exists w', (text :: datas). rewrite decide_True by done.
      split_and!; try done.
      * simpl. by rewrite Hlen.
      * rewrite Htrace. unfold wrote. simpl. by rewrite <- !app_assoc.
      * intros p Hp. apply Hdisk. unfold wrote. simpl.
        destruct (decide (path = p)) as [->|?];
          [by rewrite lookup_insert_eq|]. rewrite lookup_insert_ne by done.
        destruct (decide (source r = p)) as [->|?];
          [by rewrite lookup_insert_eq|]. by rewrite lookup_insert_ne.
    + rewrite decide_False by done. apply IH.
      intros r' Hr' He. apply Hread; [by right | done].
Qed.

(** The writer, once the lint engine has answered. *)
Lemma addingComments_run files path config b w m results :
  disk w !! ".stylelintignore"%string = Some m →
  stylelint_lint (disk (hidden m w)) config files = Some results →
  Delete.addingCommentsWithStylelintErrors (Some files) path config b w
  = match forOf results (Delete.commentFileStep path b) (shown m (hidden m w))
    with
    | (Ok _, w') => (Ok (), w')
    | (Throw e, w') =>
        (rename "hash" ".stylelintignore";;
         console_log (ErrorAt AddingComments e)) w'
    end.
Proof.
  intros Hm Hlint. unfold Delete.addingCommentsWithStylelintErrors.
  rewrite run_tryCatch, run_bind, (rename_hide w m Hm).
  rewrite run_bind. simpl. rewrite run_bind, lint_run, Hlint.
  rewrite run_bind, rename_show_hidden.
  by destruct (forOf _ _ _) as [[[]|e] w'].
Qed.

End eliminator.

(** C10 (the manifest is emptied file by file).  A turn of the loop for a
    file with errors writes the file and then empties the manifest; a turn
    for a file without errors does nothing.  When every file with errors
    can be read, the pass renames the manifest there and back and then, for
    each file with errors in turn, writes the file and empties the
    manifest.  When no result has errors the pass only renames there and
    back: the console is as before and so is every file but one called
    [hash]. *)
Theorem manifest_truncated_per_file `{Externals} :
  (∀ path b (r : LintResult) w data,
     errored r = true → disk w !! source r = Some data →
     Delete.commentFileStep path b r w
     = (Ok (), wrote path EmptyString
                 (wrote (source r)
                    (Js.join Js.newline
                       (commentedLines b (warnings r) (Js.split Js.LF data)))
                    w)))
  ∧ (∀ path b (r : LintResult) w,
       errored r = false → Delete.commentFileStep path b r w = (Ok (), w))
  ∧ (∀ files path config b w m results,
       disk w !! ".stylelintignore"%string = Some m →
       stylelint_lint (disk (hidden m w)) config files = Some results →
       (∀ r, r ∈ results → errored r = true →
             is_Some (disk w !! source r) ∧ source r ≠ "hash"%string) →
       ∃ w' datas,
         Delete.addingCommentsWithStylelintErrors (Some files) path config b w
         = (Ok (), w')
         ∧ length datas = length (filter (λ r, errored r = true) results)
         ∧ trace w'
           = trace w
             ++ [Renamed ".stylelintignore" "hash";
                 Renamed "hash" ".stylelintignore"]
             ++ concat (zip_with (λ r data, [Written (source r) data;
                                             Written path EmptyString])
                          (filter (λ r, errored r = true) results) datas))
  ∧ (∀ files path config b w m results,
       disk w !! ".stylelintignore"%string = Some m →
       stylelint_lint (disk (hidden m w)) config files = Some results →
       Forall (λ r, errored r = false) results →
       ∃ w',
         Delete.addingCommentsWithStylelintErrors (Some files) path config b w
         = (Ok (), w')
         ∧ disk w' = delete "hash"%string (disk w)
         ∧ disk w' !! ".stylelintignore"%string = Some m
         ∧ (∀ p, p ≠ "hash"%string → disk w' !! p = disk w !! p)
         ∧ console w' = console w
         ∧ trace w' = trace w ++ [Renamed ".stylelintignore" "hash";
                                  Renamed "hash" ".stylelintignore"]).
Proof.
  split_and!.
  - intros path b r w data Hr Hdata.
    by rewrite commentFileStep_run, Hr, Hdata.
  - intros path b r w Hr. by rewrite commentFileStep_run, Hr.
  - intros files path config b w m results Hm Hlint Hread.
    rewrite (addingComments_run files path config b w m results Hm Hlint).
    destruct (commentLoop_trace path b results (shown m (hidden m w)))
      as (w' & datas & Hrun & Hlen & Htrace & _).
    { intros r Hr He. destruct (Hread r Hr He) as [Hs Hne].
      by rewrite shown_hidden_lookup. }
    exists w', datas. rewrite Hrun. split_and!; try done.
    rewrite Htrace, shown_hidden_trace. by rewrite <- app_assoc.
  - intros files path config b w m results Hm Hlint Hclean.
    rewrite (addingComments_run files path config b w m results Hm Hlint).
    rewrite commentLoop_quiet by done. eexists. split; [reflexivity|].
    split_and!.
    + by apply shown_hidden_disk.
    + apply shown_manifest.
    + intros p Hp. by apply shown_hidden_lookup.
    + done.
    + apply shown_hidden_trace.
Qed.

(** C10, at a file with an error and a file without. *)
Lemma manifest_truncated_per_file_witness :
  let ext := tableExternals [] ["src/a.css"%string] in
  let w := diskOf [(".stylelintignore", "src/");
                   ("src/a.css", "a { }" +:+ Js.newline +:+ "b { }");
                   ("b.css", "d { }")]%string in
  let results :=
    [ {| source := "src/a.css"; errored := true;
         warnings := [ {| severity := "error"; line := 2; endLine := 2;
                          rule := "x" |} ] |};
      {| source := "b.css"; errored := false; warnings := [] |} ] in
  (∃ w' datas,
     Delete.addingCommentsWithStylelintErrors
       (Some ["src/a.css"; "b.css"]%string) ".stylelintignore" (Some ()) true w
     = (Ok (), w')
     ∧ length datas = length (filter (λ r, errored r = true) results)
     ∧ trace w'
       = trace w
         ++ [Renamed ".stylelintignore" "hash";
             Renamed "hash" ".stylelintignore"]
         ++ concat (zip_with (λ r data, [Written (source r) data;
                                         Written ".stylelintignore" EmptyString])
                      (filter (λ r, errored r = true) results) datas))
  ∧ (∃ w',
       Delete.addingCommentsWithStylelintErrors
         (Some ["b.css"]%string) ".stylelintignore" (Some ()) true w
       = (Ok (), w')
       ∧ disk w' = delete "hash"%string (disk w)
       ∧ disk w' !! ".stylelintignore"%string = Some "src/"%string
       ∧ (∀ p, p ≠ "hash"%string → disk w' !! p = disk w !! p)
       ∧ console w' = console w
       ∧ trace w' = trace w ++ [Renamed ".stylelintignore" "hash";
                                Renamed "hash" ".stylelintignore"]).
Proof.
  intros ext w results. split.
  - apply (proj1 (proj2 (proj2 (@manifest_truncated_per_file ext)))
             ["src/a.css"; "b.css"]%string ".stylelintignore"%string (Some ())
             true w "src/"%string results).
    + reflexivity.
    + reflexivity.
    + intros r Hr He.
      repeat (apply elem_of_cons in Hr as [->|Hr]);
        [by split; [eexists|] | done | by apply not_elem_of_nil in Hr].
  - apply (proj2 (proj2 (proj2 (@manifest_truncated_per_file ext)))
             ["b.css"]%string ".stylelintignore"%string (Some ())
             true w "src/"%string _ eq_refl eq_refl).
    by repeat constructor.
Defined.

(** ** The compactor *)

Section compactor.
Context `{Externals}.
Implicit Types (w : World) (m : string).
Implicit Types (c : option (list (string * list string))).
Implicit Types (entries : list (string * list string)).

Lemma MapAlter_same {V} (f : V → V) k (l : list (string * V)) :
  (∀ v, f v = v) → Js.MapAlter f k l = l.
Proof.
  intros Hf. induction l as [|[k' v] l IH]; simpl; [done|].
  destruct (String.eqb k' k); [by rewrite Hf | by rewrite IH].
Qed.

(** The query stage hands the result of the lint engine to
    [files.delete]: no path is deleted. *)
Lemma errorsFileStep_run line (r : LintResult) c w :
  Compress.errorsFileStep line r (c, w) = (Ok (), (c, w)).
Proof.
  unfold Compress.errorsFileStep. destruct (errored r); simpl; [done|].
  unfold modifyObject. do 2 f_equal.
  destruct c as [l|]; simpl; [|done]. f_equal. by apply MapAlter_same.
Qed.

Lemma errorsFiles_run line (results : list LintResult) c w :
  forOf results (Compress.errorsFileStep line) (c, w) = (Ok (), (c, w)).
Proof.
  induction results as [|r results IH]; [done|].
  by rewrite forOf_cons, errorsFileStep_run.
Qed.

Lemma dropIfEmpty_run line c w :
  Compress.dropIfEmpty line (c, w) = (Ok (), (dropEmpty line c, w)).
Proof.
  unfold Compress.dropIfEmpty, dropEmpty. rewrite run_bind. simpl.
  by destruct (default false (sizeIsZero line <$> c)).
Qed.

Lemma errorsEntryStep_run config line files c w m :
  disk w !! ".stylelintignore"%string = Some m →
  Compress.errorsEntryStep config (line, files) (c, w)
  = match stylelint_lint (disk (hidden m w)) config files with
    | None => (Throw LintError, (c, hidden m w))
    | Some _ => (Ok (), (dropEmpty line c, shown m (hidden m w)))
    end.
Proof.
  intros Hm. unfold Compress.errorsEntryStep.
  rewrite run_bind. unfold inWorld at 1. rewrite (rename_hide w m Hm).
  rewrite run_bind. unfold inWorld at 1. rewrite lint_run.
  destruct (stylelint_lint _ _ _) as [results|]; [|done].
  rewrite run_bind. unfold inWorld at 1. rewrite rename_show_hidden.
  by rewrite run_bind, errorsFiles_run, dropIfEmpty_run.
Qed.

(** The loop of the query stage.  It ends with the manifest under its
    name, or, when the lint engine rejected, under the name [hash]. *)
Lemma errorsLoop_run config
    (I : option (list (string * list string)) → Prop) entries c w m :
  (∀ line c, I c → I (dropEmpty line c)) → I c →
  disk w !! ".stylelintignore"%string = Some m →
  ∃ r c' w',
    forOf entries (Compress.errorsEntryStep config) (c, w) = (r, (c', w'))
    ∧ I c' ∧ console w' = console w
    ∧ match r with
      | Ok _ =>
          disk w' !! ".stylelintignore"%string = Some m
          ∧ ∀ p, p ≠ "hash"%string → disk w' !! p = disk w !! p
      | Throw e =>
          disk w' !! "hash"%string = Some m
          ∧ ∀ p, p ≠ "hash"%string → p ≠ ".stylelintignore"%string →
                 disk w' !! p = disk w !! p
      end.
Proof.
  intros HI. revert c w.
  induction entries as [|[line files] entries IH]; intros c w Hc Hm.
  - exists (Ok ()), c, w. rewrite forOf_nil. done.
  - rewrite forOf_cons, (errorsEntryStep_run config line files c w m Hm).
    destruct (stylelint_lint _ _ _) as [results|].
    + destruct (IH (dropEmpty line c) (shown m (hidden m w)))
        as (r & c' & w' & Hrun & Hc' & Hconsole & Hr);
        [by apply HI | apply shown_manifest |].
      exists r, c', w'. rewrite Hrun. split_and!; try done.
      destruct r as [[]|e].
      * destruct Hr as [Hm' Hp]. split; [done|]. intros p Hne.
        rewrite Hp by done. by apply shown_hidden_lookup.
      * destruct Hr as [Hh Hp]. split; [done|]. intros p Hne Hne'.
        rewrite Hp by done. by apply shown_hidden_lookup.
    + exists (Throw LintError), c, (hidden m w). split_and!; try done.
      * apply hidden_hash.
      * intros p Hne Hne'. unfold hidden, moved. simpl.
        by rewrite lookup_insert_ne, lookup_delete_ne.
Qed.

Lemma filterFilesWithoutErrors_run config
    (I : option (list (string * list string)) → Prop) entries w m :
  (∀ line c, I c → I (dropEmpty line c)) → I (Some entries) →
  disk w !! ".stylelintignore"%string = Some m →
  ∃ c' w',
    Compress.filterFilesWithoutErrors (Some entries) config w = (Ok c', w')
    ∧ I c'
    ∧ disk w' !! ".stylelintignore"%string = Some m
    ∧ (∀ p, p ≠ "hash"%string → disk w' !! p = disk w !! p)
    ∧ ∃ msgs, console w' = console w ++ msgs ∧ Forall isErrorAt msgs.
Proof.
  intros HI Hc Hm.
  destruct (errorsLoop_run config I entries (Some entries) w m HI Hc Hm)
    as (r & c' & w' & Hrun & Hc' & Hconsole & Hr).
  unfold Compress.filterFilesWithoutErrors, withObject.
  rewrite run_tryCatch, run_bind. simpl. rewrite run_bind, run_ret, Hrun.
  destruct r as [[]|e].
  - destruct Hr as [Hm' Hp]. exists c', w'. split_and!; try done.
    exists []. by rewrite app_nil_r.
  - destruct Hr as [Hh Hp]. rewrite run_bind. unfold inWorld at 1.
    rewrite (rename_show w' m Hh). simpl.
    eexists _, _. split; [reflexivity|]. split_and!; try done.
    + apply lookup_insert_eq.
    + intros p Hne. simpl.
      destruct (decide (p = ".stylelintignore"%string)) as [->|Hne'].
      * by rewrite lookup_insert_eq.
      * rewrite lookup_insert_ne, lookup_delete_ne by done. by apply Hp.
    + simpl. rewrite Hconsole. eexists. split; [reflexivity|].
      by repeat constructor.
Qed.

(** A collection without empty sets comes out of the query stage as it
    went in, whatever the lint engine found. *)
Lemma dropEmpty_nonempty line entries :
  Forall (λ entry, entry.2 ≠ []) entries →
  dropEmpty line (Some entries) = Some entries.
Proof.
  intros Hne. unfold dropEmpty. simpl. unfold sizeIsZero.
  assert (∀ files, Js.MapGet line entries = Some files → files ≠ []) as Hget.
  { induction Hne as [|[k v] l Hv _ IH]; simpl; [done|].
    destruct (String.eqb k line); [by intros files [= <-] | done]. }
  destruct (Js.MapGet line entries) as [files|] eqn:Hf; [|done].
  specialize (Hget files eq_refl). by destruct files.
Qed.

Lemma filterFilesWithoutErrors_removes_nothing config entries w m :
  Forall (λ entry, entry.2 ≠ []) entries →
  disk w !! ".stylelintignore"%string = Some m →
  ∃ w',
    Compress.filterFilesWithoutErrors (Some entries) config w
    = (Ok (Some entries), w')
    ∧ disk w' !! ".stylelintignore"%string = Some m
    ∧ (∀ p, p ≠ "hash"%string → disk w' !! p = disk w !! p)
    ∧ ∃ msgs, console w' = console w ++ msgs ∧ Forall isErrorAt msgs.
Proof.
  intros Hne Hm.
  destruct (filterFilesWithoutErrors_run config (λ c, c = Some entries)
              entries w m) as (c' & w' & Hrun & -> & Hrest); try done.
  - intros line c ->. by apply dropEmpty_nonempty.
  - by exists w'.
Qed.

(** The query stage of the compactor restores the manifest on every
    path. *)
Lemma filterFilesWithoutErrors_restores config entries w m :
  disk w !! ".stylelintignore"%string = Some m →
  ∃ c' w',
    Compress.filterFilesWithoutErrors (Some entries) config w = (Ok c', w')
    ∧ disk w' !! ".stylelintignore"%string = Some m.
Proof.
  intros Hm.
  destruct (filterFilesWithoutErrors_run config (λ _, True) entries w m)
    as (c' & w' & Hrun & _ & Hm' & _); try done.
  by exists c', w'.
Qed.

End compactor.

Section restores.
Context `{Externals}.
Implicit Types (w : World) (m : string).

Lemma commentLoop_preserves path b (results : list LintResult) w r w' :
  forOf results (Delete.commentFileStep path b) w = (r, w') →
  ∀ p, is_Some (disk w !! p) → is_Some (disk w' !! p).
Proof.
  revert w. induction results as [|x results IH]; intros w.
  - rewrite forOf_nil. by intros [= _ <-].
  - rewrite forOf_cons, commentFileStep_run. destruct (errored x).
    + destruct (disk w !! source x) as [data|]; [|by intros [= _ <-]].
      intros Hrun p Hp. apply (IH _ Hrun). unfold wrote. simpl.
      destruct (decide (path = p)) as [->|?];
        [by rewrite lookup_insert_eq|]. rewrite lookup_insert_ne by done.
      destruct (decide (source x = p)) as [->|?];
        [by rewrite lookup_insert_eq|]. by rewrite lookup_insert_ne.
    + apply IH.
Qed.

(** The writer of the eliminator ends with the manifest under its name on
    every path. *)
Lemma addingComments_restores files path config b w m :
  disk w !! ".stylelintignore"%string = Some m →
  is_Some (disk (Delete.addingCommentsWithStylelintErrors
                   files path config b w).2 !! ".stylelintignore"%string).
Proof.
  intros Hm.
  assert (∀ e, is_Some (disk ((rename "hash" ".stylelintignore";;
                               console_log (ErrorAt AddingComments e))
                                (hidden m w)).2 !! ".stylelintignore"%string))
    as Hcatch.
  { intros e. rewrite run_bind, rename_show_hidden. simpl.
    rewrite lookup_insert_eq. by eexists. }
  destruct files as [files|].
  - destruct (stylelint_lint (disk (hidden m w)) config files)
      as [results|] eqn:Hlint.
    + rewrite (addingComments_run files path config b w m results Hm Hlint).
      destruct (forOf _ _ _) as [[[]|e] w'] eqn:Hrun.
      * simpl. eapply commentLoop_preserves; [exact Hrun|].
        rewrite shown_manifest. by eexists.
      * assert (is_Some (disk w' !! ".stylelintignore"%string)) as Hw'.
        { eapply commentLoop_preserves; [exact Hrun|].
          rewrite shown_manifest. by eexists. }
        rewrite run_bind. unfold rename.
        destruct (disk w' !! "hash"%string) as [data|]; simpl; [|done].
        rewrite lookup_insert_eq. by eexists.
    + unfold Delete.addingCommentsWithStylelintErrors.
      rewrite run_tryCatch, run_bind, (rename_hide w m Hm).
      rewrite run_bind. simpl. rewrite run_bind, lint_run, Hlint. apply Hcatch.
  - unfold Delete.addingCommentsWithStylelintErrors.
    rewrite run_tryCatch, run_bind, (rename_hide w m Hm).
    rewrite run_bind. simpl. apply Hcatch.
Qed.

End restores.

(** ** Reading the manifest *)

Section reading.
Implicit Types (l cur rest : string) (ls : list string).

Lemma readlineFrom_line cur l rest :
  oneLine l →
  readlineFrom cur (l +:+ String Js.LF rest)
  = (cur +:+ l) :: readlineFrom EmptyString rest.
Proof.
  revert cur. induction l as [|c l IH]; intros cur [Hlf Hcr].
  - rewrite append_nil_l, append_nil_r. simpl. done.
  - simpl in Hlf, Hcr. apply orb_false_iff in Hlf as [Hc1 Hl1].
    apply orb_false_iff in Hcr as [Hc2 Hl2].
    rewrite append_cons. simpl. rewrite Hc1, Hc2.
    rewrite IH by done. by rewrite append_assoc.
Qed.

Lemma readlineFrom_last cur l :
  oneLine l → l ≠ EmptyString → readlineFrom cur l = [cur +:+ l].
Proof.
  revert cur. induction l as [|c l IH]; intros cur [Hlf Hcr] Hne; [done|].
  simpl in Hlf, Hcr. apply orb_false_iff in Hlf as [Hc1 Hl1].
  apply orb_false_iff in Hcr as [Hc2 Hl2].
  simpl. rewrite Hc1, Hc2. destruct l as [|c' l].
  - simpl. by destruct (cur +:+ String c EmptyString) eqn:E;
      [destruct cur; discriminate E|].
  - rewrite IH by done. by rewrite append_assoc.
Qed.

Lemma readline_linesText ls :
  Forall oneLine ls → readline (linesText ls) = ls.
Proof.
  unfold readline. induction 1 as [|l ls Hl _ IH]; [done|].
  simpl. unfold Js.newline. rewrite append_cons, append_nil_l.
  rewrite readlineFrom_line by done. by rewrite append_nil_l, IH.
Qed.

Lemma readline_join ls :
  Forall oneLine ls → Forall (λ l, l ≠ EmptyString) ls →
  readline (Js.join Js.newline ls) = ls.
Proof.
  unfold readline. intros Hls Hne. induction Hls as [|l ls Hl Hls IH]; [done|].
  apply Forall_cons in Hne as [Hne Hne']. destruct ls as [|l' ls].
  - simpl. by rewrite readlineFrom_last.
  - change (Js.join Js.newline (l :: l' :: ls))
      with (l +:+ Js.newline +:+ Js.join Js.newline (l' :: ls)).
    unfold Js.newline at 1. rewrite append_cons, append_nil_l.
    rewrite readlineFrom_line by done. by rewrite append_nil_l, IH.
Qed.

Lemma linesText_join ls :
  ls ≠ [] → linesText ls = Js.join Js.newline ls +:+ Js.newline.
Proof.
  induction ls as [|l ls IH]; [done|]. intros _. destruct ls as [|l' ls].
  - simpl. by rewrite append_nil_r.
  - change (Js.join Js.newline (l :: l' :: ls))
      with (l +:+ Js.newline +:+ Js.join Js.newline (l' :: ls)).
    change (linesText (l :: l' :: ls))
      with (l +:+ Js.newline +:+ linesText (l' :: ls)).
    rewrite IH by done. by rewrite !append_assoc.
Qed.

End reading.

Section helpers.
Implicit Types (w : World).

Lemma isFileExists_run path w :
  isFileExists path w
  = match disk w !! path with
    | Some _ => (Ok true, w)
    | None => (Throw (NoFile path), w)
    end.
Proof.
  unfold isFileExists, pathExists. rewrite run_bind.
  destruct (disk w !! path) as [data|] eqn:Hd.
  - rewrite bool_decide_eq_true_2 by (by eexists). done.
  - rewrite bool_decide_eq_false_2 by (by intros [? ?]). done.
Qed.

Lemma determinateSizeAndLengthFile_run path w :
  determinateSizeAndLengthFile path w
  = match disk w !! path with
    | Some data =>
        (Ok (Some (String.length data, length (Js.split Js.LF data))), w)
    | None => (Ok None, said (ErrorAt (SizeAndLengthOf path) (NoFile path)) w)
    end.
Proof.
  unfold determinateSizeAndLengthFile.
  rewrite run_tryCatch, run_bind, isFileExists_run.
  destruct (disk w !! path) as [data|] eqn:Hd; [|done].
  unfold statSize, readFile. rewrite !run_bind, Hd. simpl.
  rewrite !run_bind, Hd. done.
Qed.

End helpers.

Section compress.
Context `{Externals}.
Implicit Types (w : World) (d : gmap string string) (ls : list string).
Implicit Types (entries : list (string * list string)).

Lemma reportSizeAndLength_run path w :
  Compress.reportSizeAndLength path w
  = match disk w !! path with
    | Some data =>
        (Ok (), said (SizeAndLength (String.length data)
                        (length (Js.split Js.LF data))) w)
    | None =>
        (Throw TypeError, said (ErrorAt (SizeAndLengthOf path) (NoFile path)) w)
    end.
Proof.
  unfold Compress.reportSizeAndLength.
  rewrite run_bind, determinateSizeAndLengthFile_run.
  by destruct (disk w !! path).
Qed.

Lemma Compress_config_run path w :
  Compress.getStylelintConfigContent path w
  = match disk w !! path ≫= JSON_parse with
    | Some config => (Ok (Some config), w)
    | None => (Throw TypeError, w)
    end.
Proof.
  unfold Compress.getStylelintConfigContent.
  rewrite run_tryCatch, run_bind, isFileExists_run.
  destruct (disk w !! path) as [data|] eqn:Hd; [|done].
  unfold readFile, parseConfig. rewrite run_bind, Hd. simpl.
  rewrite run_bind. by destruct (JSON_parse data).
Qed.

Lemma Compress_readerStep_run entries line w :
  Compress.readerStep entries line w
  = (Ok (resolvedEntriesStep (disk w) entries line), w).
Proof.
  unfold Compress.readerStep, resolvedEntriesStep.
  destruct (isEmptyLine line || isCommentLine line); [done|].
  rewrite run_bind. unfold globSync.
  by destruct (length _ =? 0)%nat.
Qed.

Lemma Compress_readerLoop_run lines entries w :
  foldOf lines Compress.readerStep entries w
  = (Ok (foldl (resolvedEntriesStep (disk w)) entries lines), w).
Proof.
  revert entries. induction lines as [|line lines IH]; intros entries; [done|].
  by rewrite foldOf_cons, Compress_readerStep_run, IH.
Qed.

Lemma Compress_reader_run path w :
  Compress.getStylelintIgnoreContent path w
  = match disk w !! path with
    | Some data => (Ok (Some (resolvedEntries (disk w) data)), w)
    | None => (Ok None, said (ErrorAt ReadingIgnore (NoFile path)) w)
    end.
Proof.
  unfold Compress.getStylelintIgnoreContent.
  rewrite run_tryCatch, run_bind, isFileExists_run.
  destruct (disk w !! path) as [data|] eqn:Hd; [|done].
  unfold readFile. rewrite run_bind, Hd. simpl.
  by rewrite run_bind, Compress_readerLoop_run.
Qed.

Lemma writeNewStylelintIgnore_run path c w :
  Compress.writeNewStylelintIgnore path c w
  = match c with
    | Some entries =>
        (Ok (), wrote path (Compress.newStylelintIgnoreContent entries) w)
    | None => (Ok (), said (ErrorAt WritingIgnore TypeError) w)
    end.
Proof. by destruct c. Qed.

Lemma newContent_fold entries (content : string) :
  Forall (λ entry, entry.2 ≠ []) entries →
  foldl (λ content '(line, files),
           if negb (length files =? 0)%nat
           then content +:+ line +:+ Js.newline else content)
        content entries
  = content +:+ linesText entries.*1.
Proof.
  intros Hne. revert content.
  induction Hne as [|[line files] entries Hf _ IH]; intros content; simpl.
  - by rewrite append_nil_r.
  - simpl in Hf. destruct files as [|f files]; [done|]. simpl.
    rewrite IH. by rewrite !append_assoc.
Qed.

Lemma newContent_linesText entries :
  Forall (λ entry, entry.2 ≠ []) entries →
  Compress.newStylelintIgnoreContent entries = linesText entries.*1.
Proof.
  intros Hne. unfold Compress.newStylelintIgnoreContent.
  by rewrite newContent_fold.
Qed.

Lemma MapSet_keys {V} k (v : V) (l : list (string * V)) :
  (Js.MapSet k v l).*1 = if bool_decide (k ∈ l.*1) then l.*1 else l.*1 ++ [k].
Proof.
  unfold Js.MapSet, Js.MapHas. case_bool_decide.
  - apply MapAlter_keys.
  - by rewrite fmap_app.
Qed.

Lemma resolvedEntries_NoDup d lines entries :
  NoDup entries.*1 → NoDup (foldl (resolvedEntriesStep d) entries lines).*1.
Proof.
  revert entries. induction lines as [|line lines IH]; intros entries Hnd;
    [done|].
  simpl. apply IH. unfold resolvedEntriesStep.
  destruct (isEmptyLine line || isCommentLine line); [done|].
  destruct (length _ =? 0)%nat; [done|].
  rewrite MapSet_keys. case_bool_decide; [done|].
  apply NoDup_app. split_and!; [done| |apply NoDup_singleton].
  by intros x Hx ->%list_elem_of_singleton.
Qed.

(** The entries of a manifest of distinct pattern lines that all resolve. *)
Lemma resolvedEntries_lines d ls :
  NoDup ls →
  Forall (λ l, isEmptyLine l = false ∧ isCommentLine l = false
               ∧ glob_sync d (patternOf l) ≠ []) ls →
  foldl (resolvedEntriesStep d) [] ls
  = (λ l, (l, Js.SetOf (glob_sync d (patternOf l)))) <$> ls.
Proof.
  induction ls as [|l ls IH] using rev_ind; [done|].
  intros [Hnd [Hl _]]%NoDup_app [Hls Hlast]%Forall_app.
  apply Forall_inv in Hlast as (He & Hc & Hg).
  rewrite foldl_snoc, IH by done. unfold resolvedEntriesStep.
  rewrite He, Hc. simpl.
  destruct (glob_sync d (patternOf l)) as [|f files] eqn:Hglob; [done|].
  simpl. unfold Js.MapSet, Js.MapHas.
  rewrite bool_decide_eq_false_2.
  - rewrite fmap_app. simpl. by rewrite Hglob.
  - rewrite <- list_fmap_compose. simpl. rewrite list_fmap_id.
    intros Hin. apply (Hl l Hin). left.
Qed.

Lemma SetOf_nonempty (files : list string) : files ≠ [] → Js.SetOf files ≠ [].
Proof. rewrite SetOf_distinct. by destruct files. Qed.

Lemma elem_of_SetOf (files : list string) file :
  file ∈ Js.SetOf files ↔ file ∈ files.
Proof. rewrite SetOf_distinct. apply elem_of_distinct. Qed.

(** Entries whose files can all be read and do not start with the blanket
    disable comment pass the disable-comment filter unchanged. *)
Lemma keptEntries_all d entries :
  Forall (λ entry, entry.2 ≠ []
                   ∧ ∀ file, file ∈ entry.2 →
                             is_Some (d !! file) ∧ skips d file = false)
         entries →
  keptEntries d entries = entries ∧ firstMissingEntry d entries = None.
Proof.
  induction 1 as [|[line files] entries [Hne Hfiles] _ [IH1 IH2]]; [done|].
  simpl in *.
  destruct (kept_readable d files) as [Hm Hk];
    [intros f Hf; by apply Hfiles|].
  rewrite Hm, Hk, IH1, IH2.
  rewrite filter_all by (intros f Hf; by apply Hfiles).
  by destruct files.
Qed.

End compress.

Section roundtrip.
Context `{Externals}.

Lemma isEmptyLine_nonempty l : isEmptyLine l = false → l ≠ EmptyString.
Proof. by intros Hl ->. Qed.

(** The compactor on a manifest of distinct pattern lines that all resolve
    to files that do not start with the blanket disable comment. *)
Lemma compress_run w m ls :
  disk w !! ".stylelintignore"%string = Some m →
  readline m = ls →
  NoDup ls →
  Forall (λ l, isEmptyLine l = false ∧ isCommentLine l = false) ls →
  Forall (λ l, glob_sync (disk w) (patternOf l) ≠ []
               ∧ ∀ file, file ∈ glob_sync (disk w) (patternOf l) →
                         is_Some (disk w !! file) ∧ skips (disk w) file = false)
         ls →
  ∃ r w',
    Compress.compressStylelintIgnore "." w = (r, w')
    ∧ (disk w' !! ".stylelintignore"%string = Some m
       ∨ disk w' !! ".stylelintignore"%string = Some (linesText ls)).
Proof.
  intros Hm Hlines Hnd Hls Hglob.
  unfold Compress.compressStylelintIgnore.
  change (path_join "." ".stylelintignore") with ".stylelintignore"%string.
  change (path_join "." ".stylelintrc.json") with ".stylelintrc.json"%string.
  rewrite run_bind. unfold console_log at 1.
  set (w1 := said StartCompress w).
  rewrite run_bind, reportSizeAndLength_run.
  change (disk w1) with (disk w). rewrite Hm.
  set (w2 := said _ w1).
  rewrite run_bind, Compress_config_run.
  destruct (disk w2 !! ".stylelintrc.json"%string ≫= JSON_parse) as [config|].
  2:{ eexists _, _. split; [reflexivity|]. by left. }
  rewrite run_bind, Compress_reader_run.
  change (disk w2) with (disk w). rewrite Hm.
  unfold resolvedEntries. rewrite Hlines.
  rewrite resolvedEntries_lines.
  2:{ done. }
  2:{ rewrite Forall_forall in Hls, Hglob |- *. intros l Hl.
      destruct (Hls l Hl) as [? ?]. destruct (Hglob l Hl) as [? ?]. done. }
  set (entries := (λ l, (l, Js.SetOf (glob_sync (disk w) (patternOf l)))) <$> ls).
  assert (entries.*1 = ls) as Hkeys.
  { unfold entries. clear. induction ls as [|l ls IH]; [done|].
    simpl. by f_equal. }
  assert (Forall (λ entry, entry.2 ≠ []
                   ∧ ∀ file, file ∈ entry.2 →
                             is_Some (disk w !! file)
                             ∧ skips (disk w) file = false) entries) as Hentries.
  { unfold entries. apply Forall_forall.
    intros entry (l & -> & Hl)%list_elem_of_fmap.
    destruct (proj1 (Forall_forall _ _) Hglob l Hl) as [Hne Hfiles]. split.
    - by apply SetOf_nonempty.
    - intros file Hfile. apply Hfiles. by apply elem_of_SetOf. }
  rewrite run_bind, Compress_filter_run by (by rewrite Hkeys).
  change (disk w2) with (disk w).
  destruct (keptEntries_all (disk w) entries Hentries) as [-> ->].
  simpl reported.
  assert (Forall (λ entry, entry.2 ≠ []) entries) as Hne.
  { eapply Forall_impl; [exact Hentries|]. by intros entry [? _]. }
  destruct (filterFilesWithoutErrors_removes_nothing (Some config) entries w2 m)
    as (w3 & Hrun & Hm3 & _); [done..|].
  rewrite run_bind, Hrun.
  rewrite run_bind, writeNewStylelintIgnore_run.
  rewrite newContent_linesText, Hkeys by done.
  set (w4 := wrote _ _ w3).
  rewrite run_bind. unfold console_log at 1.
  rewrite reportSizeAndLength_run.
  assert (disk (said Success w4) !! ".stylelintignore"%string
          = Some (linesText ls)) as Hm4.
  { unfold w4, wrote, said. simpl. apply lookup_insert_eq. }
  rewrite Hm4. eexists _, _. split; [reflexivity|]. right. exact Hm4.
Qed.

End roundtrip.

(** C7, as the code has it.  For a manifest of distinct pattern lines, none
    blank and none a comment, with line feeds for line ends, every line
    resolving to at least one file, none of the files starting with the
    blanket disable comment, and every file still with errors, the
    compactor leaves the content of the manifest as it is, up to the line
    feed at the very end. *)
Theorem compactor_round_trip `{Externals} w m ls :
  disk w !! ".stylelintignore"%string = Some m →
  m = linesText ls ∨ m = Js.join Js.newline ls →
  NoDup ls →
  Forall (λ l, oneLine l ∧ isEmptyLine l = false ∧ isCommentLine l = false) ls →
  Forall (λ l, glob_sync (disk w) (patternOf l) ≠ []
               ∧ ∀ file, file ∈ glob_sync (disk w) (patternOf l) →
                         is_Some (disk w !! file) ∧ skips (disk w) file = false)
         ls →
  Forall (λ l, ∀ d config results,
               stylelint_lint d config
                 (Js.SetOf (glob_sync (disk w) (patternOf l))) = Some results →
               Forall (λ r, errored r = true) results) ls →
  ∃ r w' m',
    Compress.compressStylelintIgnore "." w = (r, w')
    ∧ disk w' !! ".stylelintignore"%string = Some m'
    ∧ sameUpToFinalNewline m m'.
Proof.
  intros Hm Htext Hnd Hls Hglob _.
  assert (Forall oneLine ls) as Hone
    by (eapply Forall_impl; [exact Hls|]; by intros l (? & _)).
  assert (Forall (λ l, l ≠ EmptyString) ls) as Hnonempty.
  { eapply Forall_impl; [exact Hls|]. intros l (_ & He & _).
    by apply isEmptyLine_nonempty. }
  assert (readline m = ls) as Hlines.
  { destruct Htext as [-> | ->];
      [by apply readline_linesText | by apply readline_join]. }
  destruct (compress_run w m ls Hm Hlines Hnd) as (r & w' & Hrun & Hm').
  { eapply Forall_impl; [exact Hls|]. by intros l (_ & ? & ?). }
  { done. }
  exists r, w'. destruct Hm' as [Hm' | Hm'].
  - exists m. split_and!; [done..|]. by left.
  - exists (linesText ls). split_and!; [done..|].
    destruct Htext as [-> | ->]; [by left|].
    destruct ls as [|l ls']; [by left|].
    right. left. by rewrite linesText_join.
Qed.

(** C7, at a manifest of one pattern line whose file still has errors. *)
Lemma compactor_round_trip_witness :
  let ext := tableExternals [("src/**/*.css", ["src/a.css"])]%string
                            ["src/a.css"%string] in
  let m := ("src/" +:+ Js.newline)%string in
  let w := diskOf [(".stylelintignore", m); (".stylelintrc.json", "{}");
                   ("src/a.css", "a { }")]%string in
  ∃ r w' m',
    Compress.compressStylelintIgnore "." w = (r, w')
    ∧ disk w' !! ".stylelintignore"%string = Some m'
    ∧ sameUpToFinalNewline m m'.
Proof.
  intros ext m w.
  apply (@compactor_round_trip ext w m ["src/"%string]).
  - reflexivity.
  - by left.
  - repeat constructor. by apply not_elem_of_nil.
  - repeat constructor.
  - apply Forall_cons. split; [|constructor]. split; [done|].
    intros file Hfile. apply list_elem_of_singleton in Hfile as ->.
    split; [by eexists | reflexivity].
  - apply Forall_cons. split; [|constructor].
    intros d config results [= <-]. by repeat constructor.
Defined.

(** C7 as written fails: a comment line of the manifest is not an entry,
    and the compactor drops it. *)
Lemma compactor_drops_comment_lines :
  let ext := tableExternals [("src/**/*.css", ["src/a.css"])]%string
                            ["src/a.css"%string] in
  let m := ("# legacy" +:+ Js.newline +:+ "src/" +:+ Js.newline)%string in
  let w := diskOf [(".stylelintignore", m); (".stylelintrc.json", "{}");
                   ("src/a.css", "a { }")]%string in
  (* the one entry resolves to one file, which still has an error *)
  resolvedEntries (disk w) m = [("src/", ["src/a.css"])]%string
  ∧ errored <$> default [] (stylelint_lint (disk w) (Some ()) ["src/a.css"%string])
    = [true]
  (* and the compactor rewrites the manifest without the comment line *)
  ∧ disk (Compress.compressStylelintIgnore "." w).2 !! ".stylelintignore"%string
    = Some ("src/" +:+ Js.newline)%string
  ∧ ¬ sameUpToFinalNewline m ("src/" +:+ Js.newline)%string.
Proof.
  intros ext m w. split_and!; [reflexivity.. |].
  intros [Heq | [Heq | Heq]]; discriminate Heq.
Qed.

(** Two more ways a manifest changes though every entry still has errors:
    a repeated line is written once, and a CR LF line end comes back as
    LF. *)
Example compactor_merges_repeated_lines :
  let ext := tableExternals [("src/**/*.css", ["src/a.css"])]%string
                            ["src/a.css"%string] in
  let files := [(".stylelintrc.json", "{}"); ("src/a.css", "a { }")]%string in
  let repeated := ("src/" +:+ Js.newline +:+ "src/" +:+ Js.newline)%string in
  let crlf := ("src/" +:+ String Js.CR Js.newline)%string in
  disk (Compress.compressStylelintIgnore "."
          (diskOf ((".stylelintignore"%string, repeated) :: files))).2
    !! ".stylelintignore"%string
  = Some ("src/" +:+ Js.newline)%string
  ∧ disk (Compress.compressStylelintIgnore "."
            (diskOf ((".stylelintignore"%string, crlf) :: files))).2
      !! ".stylelintignore"%string
    = Some ("src/" +:+ Js.newline)%string.
Proof. intros ext files repeated crlf. split; vm_compute; reflexivity. Qed.

(** ** What a script prints *)

Create HintDb prints discriminated.

Section prints.
Context (P : Message → Prop).
Implicit Types (w : World).

Lemma growsBy_refl w : growsBy P w w.
Proof. exists []. by rewrite app_nil_r. Qed.

Lemma growsBy_trans w1 w2 w3 :
  growsBy P w1 w2 → growsBy P w2 w3 → growsBy P w1 w3.
Proof.
  intros (msgs1 & H1 & HP1) (msgs2 & H2 & HP2). exists (msgs1 ++ msgs2).
  split; [by rewrite H2, H1, app_assoc | by apply Forall_app].
Qed.

Lemma growsBy_same w w' : console w' = console w → growsBy P w w'.
Proof. intros Hc. exists []. by rewrite app_nil_r. Qed.

Lemma Prints_ret {A} (a : A) : Prints P (mret a).
Proof. intros w. apply growsBy_refl. Qed.

Lemma Prints_throw {A} e : Prints P (throw (A := A) e).
Proof. intros w. apply growsBy_refl. Qed.

Lemma Prints_bind {A B} (m : M World A) (f : A → M World B) :
  Prints P m → (∀ a, Prints P (f a)) → Prints P (m ≫= f).
Proof.
  intros Hm Hf w. rewrite run_bind. specialize (Hm w).
  destruct (m w) as [[a|e] w1]; simpl in *; [|done].
  eapply growsBy_trans; [exact Hm | apply Hf].
Qed.

Lemma Prints_tryCatch {A} (m : M World A) h :
  Prints P m → (∀ e, Prints P (h e)) → Prints P (tryCatch m h).
Proof.
  intros Hm Hh w. rewrite run_tryCatch. specialize (Hm w).
  destruct (m w) as [[a|e] w1]; simpl in *; [done|].
  eapply growsBy_trans; [exact Hm | apply Hh].
Qed.

Lemma Prints_forOf {X} (xs : list X) (body : X → M World ()) :
  (∀ x, Prints P (body x)) → Prints P (forOf xs body).
Proof.
  intros Hbody. induction xs as [|x xs IH]; intros w.
  - apply growsBy_refl.
  - rewrite forOf_cons. specialize (Hbody x w).
    destruct (body x w) as [[[]|e] w1]; simpl in *; [|done].
    eapply growsBy_trans; [exact Hbody | apply IH].
Qed.

Lemma Prints_foldOf {X B} (xs : list X) (body : B → X → M World B) b :
  (∀ b x, Prints P (body b x)) → Prints P (foldOf xs body b).
Proof.
  intros Hbody. revert b. induction xs as [|x xs IH]; intros b w.
  - apply growsBy_refl.
  - rewrite foldOf_cons. specialize (Hbody b x w).
    destruct (body b x w) as [[b'|e] w1]; simpl in *; [|done].
    eapply growsBy_trans; [exact Hbody | apply IH].
Qed.

Lemma Prints_defined {A} (x : option A) : Prints P (defined x).
Proof. intros w. destruct x; apply growsBy_refl. Qed.

Lemma Prints_console_log msg : P msg → Prints P (console_log msg).
Proof. intros HP w. exists [msg]. split; [done | by constructor]. Qed.

Lemma Prints_pathExists path : Prints P (pathExists path).
Proof. intros w. apply growsBy_refl. Qed.

Lemma Prints_readFile path : Prints P (readFile path).
Proof. intros w. unfold readFile. destruct (_ !! _); apply growsBy_refl. Qed.

Lemma Prints_writeFile path data : Prints P (writeFile path data).
Proof. intros w. by apply growsBy_same. Qed.

Lemma Prints_rename a b : Prints P (rename a b).
Proof.
  intros w. unfold rename. destruct (_ !! _); by apply growsBy_same.
Qed.

Lemma Prints_lint `{Externals} config files : Prints P (lint config files).
Proof. intros w. rewrite lint_run. destruct (stylelint_lint _ _ _); apply growsBy_refl. Qed.

Lemma Prints_globSync `{Externals} pattern : Prints P (globSync pattern).
Proof. intros w. apply growsBy_refl. Qed.

Lemma Prints_parseConfig `{Externals} data : Prints P (parseConfig data).
Proof. intros w. unfold parseConfig. destruct (JSON_parse data); apply growsBy_refl. Qed.

(** Computations on a collection. *)
Lemma PrintsOn_ret {C A} (a : A) : PrintsOn P (C := C) (mret a).
Proof. intros c w. apply growsBy_refl. Qed.

Lemma PrintsOn_bind {C A B} (m : M (C * World) A) (f : A → M (C * World) B) :
  PrintsOn P m → (∀ a, PrintsOn P (f a)) → PrintsOn P (m ≫= f).
Proof.
  intros Hm Hf c w. rewrite run_bind. specialize (Hm c w).
  destruct (m (c, w)) as [[a|e] [c1 w1]]; simpl in *; [|done].
  eapply growsBy_trans; [exact Hm | apply Hf].
Qed.

Lemma PrintsOn_tryCatch {C A} (m : M (C * World) A) h :
  PrintsOn P m → (∀ e, PrintsOn P (h e)) → PrintsOn P (tryCatch m h).
Proof.
  intros Hm Hh c w. rewrite run_tryCatch. specialize (Hm c w).
  destruct (m (c, w)) as [[a|e] [c1 w1]]; simpl in *; [done|].
  eapply growsBy_trans; [exact Hm | apply Hh].
Qed.

Lemma PrintsOn_forOf {C X} (xs : list X) (body : X → M (C * World) ()) :
  (∀ x, PrintsOn P (body x)) → PrintsOn P (forOf xs body).
Proof.
  intros Hbody. induction xs as [|x xs IH]; intros c w.
  - apply growsBy_refl.
  - rewrite forOf_cons. specialize (Hbody x c w).
    destruct (body x (c, w)) as [[[]|e] [c1 w1]]; simpl in *; [|done].
    eapply growsBy_trans; [exact Hbody | apply IH].
Qed.

Lemma PrintsOn_inWorld {C A} (m : M World A) :
  Prints P m → PrintsOn P (C := C) (inWorld m).
Proof.
  intros Hm c w. unfold inWorld. specialize (Hm w).
  by destruct (m w) as [r w1].
Qed.

Lemma PrintsOn_getObject {C} : PrintsOn P (getObject (C := C)).
Proof. intros c w. apply growsBy_refl. Qed.

Lemma PrintsOn_modifyObject {C} (f : C → C) : PrintsOn P (modifyObject f).
Proof. intros c w. apply growsBy_refl. Qed.

Lemma PrintsOn_defined {C A} (x : option A) :
  PrintsOn P (C := C) (defined x).
Proof. intros c w. destruct x; apply growsBy_refl. Qed.

Lemma Prints_withObject {C A} (c : C) (m : M (C * World) A) :
  PrintsOn P m → Prints P (withObject c m).
Proof.
  intros Hm w. unfold withObject. specialize (Hm c w).
  by destruct (m (c, w)) as [[a|e] [c1 w1]].
Qed.

End prints.

Global Hint Resolve Prints_ret Prints_throw Prints_defined Prints_pathExists
  Prints_readFile Prints_writeFile Prints_rename Prints_lint Prints_globSync
  Prints_parseConfig PrintsOn_ret PrintsOn_getObject PrintsOn_modifyObject
  PrintsOn_defined : prints.

(** One step through a script: a bind, a [try], a loop, a branch. *)
Ltac prints_step :=
  match goal with
  | |- Prints _ (_ ≫= _) => apply Prints_bind; [|intros ?]
  | |- Prints _ (tryCatch _ _) => apply Prints_tryCatch; [|intros ?]
  | |- Prints _ (forOf _ _) => apply Prints_forOf; intros ?
  | |- Prints _ (foldOf _ _ _) => apply Prints_foldOf; intros ? ?
  | |- Prints _ (withObject _ _) => apply Prints_withObject
  | |- Prints _ (console_log _) => apply Prints_console_log; exact I
  | |- PrintsOn _ (_ ≫= _) => apply PrintsOn_bind; [|intros ?]
  | |- PrintsOn _ (tryCatch _ _) => apply PrintsOn_tryCatch; [|intros ?]
  | |- PrintsOn _ (forOf _ _) => apply PrintsOn_forOf; intros ?
  | |- PrintsOn _ (inWorld _) => apply PrintsOn_inWorld
  | |- Prints _ (if ?b then _ else _) => destruct b
  | |- PrintsOn _ (if ?b then _ else _) => destruct b
  | |- Prints _ (match ?x with _ => _ end) => destruct x
  | |- PrintsOn _ (match ?x with _ => _ end) => destruct x
  | |- _ => solve [auto with prints]
  end.

Ltac prints := repeat prints_step.

Section scripts.
Context `{Externals}.
Context (P : Message → Prop) (HP : ∀ site e, P (ErrorAt site e)).

Lemma Prints_error site e : Prints P (console_log (ErrorAt site e)).
Proof. apply Prints_console_log, HP. Qed.

#[local] Hint Resolve Prints_error : prints.

Lemma Prints_isFileExists path : Prints P (isFileExists path).
Proof. unfold isFileExists. prints. Qed.

#[local] Hint Resolve Prints_isFileExists : prints.

Lemma Prints_skipFile file : Prints P (skipFile file).
Proof. unfold skipFile. prints. Qed.

#[local] Hint Resolve Prints_skipFile : prints.

Lemma Prints_determinate path : Prints P (determinateSizeAndLengthFile path).
Proof. unfold determinateSizeAndLengthFile, statSize. prints. Qed.

Lemma Prints_Compress_config path :
  Prints P (Compress.getStylelintConfigContent path).
Proof. unfold Compress.getStylelintConfigContent. prints. Qed.

Lemma Prints_Compress_reader path :
  Prints P (Compress.getStylelintIgnoreContent path).
Proof.
  unfold Compress.getStylelintIgnoreContent, Compress.readerStep. prints.
Qed.

Lemma Prints_Compress_filterDisable c :
  Prints P (Compress.filterFilesWithDisableComment c).
Proof.
  unfold Compress.filterFilesWithDisableComment, Compress.disableEntryStep,
    Compress.disableFileStep, Compress.dropIfEmpty.
  prints.
Qed.

Lemma Prints_Compress_filterErrors c config :
  Prints P (Compress.filterFilesWithoutErrors c config).
Proof.
  unfold Compress.filterFilesWithoutErrors, Compress.errorsEntryStep,
    Compress.errorsFileStep, Compress.dropIfEmpty.
  prints.
Qed.

Lemma Prints_Compress_write path c :
  Prints P (Compress.writeNewStylelintIgnore path c).
Proof. unfold Compress.writeNewStylelintIgnore. prints. Qed.

Lemma Prints_Delete_config path :
  Prints P (Delete.getStylelintConfigContent path).
Proof. unfold Delete.getStylelintConfigContent. prints. Qed.

Lemma Prints_Delete_reader path :
  Prints P (Delete.getStylelintIgnoreContent path).
Proof.
  unfold Delete.getStylelintIgnoreContent, Delete.readerStep. prints.
Qed.

Lemma Prints_Delete_filter files :
  Prints P (Delete.filterFilesWithDisableComment files).
Proof.
  unfold Delete.filterFilesWithDisableComment, Delete.disableFileStep. prints.
Qed.

Lemma Prints_Delete_count config files :
  Prints P (Delete.getStylelintCountErrors config files).
Proof. unfold Delete.getStylelintCountErrors. prints. Qed.

Lemma Prints_Delete_writer files path config b :
  Prints P (Delete.addingCommentsWithStylelintErrors files path config b).
Proof.
  unfold Delete.addingCommentsWithStylelintErrors, Delete.commentFileStep,
    Delete.helperReadSourceFile, Delete.helperWriteSourceFile.
  prints.
Qed.

End scripts.

Section reports.
Context `{Externals}.
Implicit Types (w : World).

Lemma Delete_config_run path w :
  ∃ w',
    Delete.getStylelintConfigContent path w
    = (Ok (disk w !! path ≫= JSON_parse), w')
    ∧ disk w' = disk w ∧ growsBy isErrorAt w w'.
Proof.
  unfold Delete.getStylelintConfigContent.
  rewrite run_tryCatch, run_bind, isFileExists_run.
  destruct (disk w !! path) as [data|] eqn:Hd.
  - unfold readFile, parseConfig. rewrite run_bind, Hd. simpl.
    rewrite run_bind. destruct (JSON_parse data) as [config|].
    + exists w. split_and!; [done..|]. apply growsBy_refl.
    + eexists. split_and!; [reflexivity|done|].
      eexists. split; [reflexivity|]. by repeat constructor.
  - eexists. split_and!; [reflexivity|done|].
    eexists. split; [reflexivity|]. by repeat constructor.
Qed.

Lemma Delete_config_trace path w :
  trace (Delete.getStylelintConfigContent path w).2 = trace w.
Proof.
  unfold Delete.getStylelintConfigContent.
  rewrite run_tryCatch, run_bind, isFileExists_run.
  destruct (disk w !! path) as [data|] eqn:Hd; [|done].
  unfold readFile, parseConfig. rewrite run_bind, Hd. simpl.
  rewrite run_bind. by destruct (JSON_parse data).
Qed.

Lemma Delete_readerStep_run files line w :
  Delete.readerStep files line w
  = (Ok (resolvedFilesStep (disk w) files line), w).
Proof.
  unfold Delete.readerStep, resolvedFilesStep.
  destruct (isEmptyLine line || isCommentLine line); [done|].
  rewrite run_bind. unfold globSync.
  by destruct (length _ =? 0)%nat.
Qed.

Lemma Delete_readerLoop_run lines files w :
  foldOf lines Delete.readerStep files w
  = (Ok (foldl (resolvedFilesStep (disk w)) files lines), w).
Proof.
  revert files. induction lines as [|line lines IH]; intros files; [done|].
  by rewrite foldOf_cons, Delete_readerStep_run, IH.
Qed.

Lemma Delete_reader_run path w :
  Delete.getStylelintIgnoreContent path w
  = match disk w !! path with
    | Some data => (Ok (Some (resolvedFiles (disk w) data)), w)
    | None => (Ok None, said (ErrorAt ReadingIgnore (NoFile path)) w)
    end.
Proof.
  unfold Delete.getStylelintIgnoreContent.
  rewrite run_tryCatch, run_bind, isFileExists_run.
  destruct (disk w !! path) as [data|] eqn:Hd; [|done].
  unfold readFile. rewrite run_bind, Hd. simpl.
  by rewrite run_bind, Delete_readerLoop_run.
Qed.

(** Every message of the compactor is the start, a size and length, the
    success, or the report of a [catch] block. *)
Lemma Prints_compress (P : Message → Prop) baseUrl :
  (∀ site e, P (ErrorAt site e)) → P StartCompress → P Success →
  (∀ size length, P (SizeAndLength size length)) →
  Prints P (Compress.compressStylelintIgnore baseUrl).
Proof.
  intros HE HS HX HL.
  assert (∀ path, Prints P (Compress.reportSizeAndLength path)) as Hreport.
  { intros path. unfold Compress.reportSizeAndLength.
    apply Prints_bind; [by apply Prints_determinate|].
    intros [[size length]|]; simpl.
    - apply Prints_bind; [apply Prints_ret|]. intros [? ?].
      by apply Prints_console_log.
    - apply Prints_bind; [apply Prints_throw|]. intros [? ?].
      by apply Prints_console_log. }
  unfold Compress.compressStylelintIgnore.
  apply Prints_bind; [by apply Prints_console_log|]. intros _.
  apply Prints_bind; [apply Hreport|]. intros _.
  apply Prints_bind; [by apply Prints_Compress_config|]. intros config.
  apply Prints_bind; [by apply Prints_Compress_reader|]. intros c1.
  apply Prints_bind; [by apply Prints_Compress_filterDisable|]. intros c2.
  apply Prints_bind; [by apply Prints_Compress_filterErrors|]. intros c3.
  apply Prints_bind; [by apply Prints_Compress_write|]. intros _.
  apply Prints_bind; [by apply Prints_console_log|]. intros _.
  apply Hreport.
Qed.

(** What a run of the compactor that ends well has printed. *)
Lemma compress_reports w w' :
  Compress.compressStylelintIgnore "." w = (Ok (), w') →
  ∃ m m' msgs,
    disk w !! ".stylelintignore"%string = Some m
    ∧ disk w' !! ".stylelintignore"%string = Some m'
    ∧ Forall isErrorAt msgs
    ∧ console w'
      = console w
        ++ [StartCompress;
            SizeAndLength (String.length m) (length (Js.split Js.LF m))]
        ++ msgs
        ++ [Success;
            SizeAndLength (String.length m') (length (Js.split Js.LF m'))].
Proof.
  unfold Compress.compressStylelintIgnore.
  change (path_join "." ".stylelintignore") with ".stylelintignore"%string.
  change (path_join "." ".stylelintrc.json") with ".stylelintrc.json"%string.
  rewrite run_bind. unfold console_log at 1.
  set (w1 := said StartCompress w).
  rewrite run_bind, reportSizeAndLength_run. change (disk w1) with (disk w).
  destruct (disk w !! ".stylelintignore"%string) as [m|] eqn:Hm; [|done].
  set (w2 := said _ w1).
  rewrite run_bind.
  pose proof (Prints_Compress_config isErrorAt ".stylelintrc.json" w2) as G1.
  destruct (Compress.getStylelintConfigContent _ w2) as [[config|e] w3];
    [|done].
  rewrite run_bind.
  pose proof (Prints_Compress_reader isErrorAt (λ _ _, I)
                ".stylelintignore" w3) as G2.
  destruct (Compress.getStylelintIgnoreContent _ w3) as [[c1|e] w4]; [|done].
  rewrite run_bind.
  pose proof (Prints_Compress_filterDisable isErrorAt (λ _ _, I) c1 w4) as G3.
  destruct (Compress.filterFilesWithDisableComment c1 w4) as [[c2|e] w5];
    [|done].
  rewrite run_bind.
  pose proof (Prints_Compress_filterErrors isErrorAt (λ _ _, I) c2 config w5)
    as G4.
  destruct (Compress.filterFilesWithoutErrors c2 config w5) as [[c3|e] w6];
    [|done].
  rewrite run_bind.
  pose proof (Prints_Compress_write isErrorAt (λ _ _, I)
                ".stylelintignore" c3 w6) as G5.
  destruct (Compress.writeNewStylelintIgnore _ c3 w6) as [[[]|e] w7]; [|done].
  rewrite run_bind. unfold console_log at 1.
  rewrite reportSizeAndLength_run. change (disk (said Success w7)) with (disk w7).
  destruct (disk w7 !! ".stylelintignore"%string) as [m'|] eqn:Hm'; [|done].
  intros [= <-]. simpl in G1, G2, G3, G4, G5.
  pose proof (growsBy_trans _ _ _ _ G1
                (growsBy_trans _ _ _ _ G2
                   (growsBy_trans _ _ _ _ G3
                      (growsBy_trans _ _ _ _ G4 G5)))) as (msgs & Hc & Hmsgs).
  exists m, m', msgs. split_and!; try done.
  simpl. rewrite Hc. unfold w2, w1. simpl. by rewrite <- !app_assoc.
Qed.

(** What a run of the eliminator that ends well has printed. *)
Lemma delete_reports w w' :
  Delete.deleteStylelintIgnore "." w = (Ok (), w') →
  ∃ m results w0 w3 m3 results' msgs1 msgs2 msgs3,
    let config := disk w !! ".stylelintrc.json"%string ≫= JSON_parse in
    let files := resolvedFiles (disk w) m in
    let files' := kept (delete "hash"%string (disk w)) files in
    disk w !! ".stylelintignore"%string = Some m
    ∧ stylelint_lint (disk (hidden m w)) config files = Some results
    ∧ disk w0 = delete "hash"%string (disk w)
    ∧ trace w0 = trace w ++ [Renamed ".stylelintignore" "hash";
                             Renamed "hash" ".stylelintignore"]
    ∧ console w0
      = console w ++ [StartDelete] ++ msgs1
        ++ [ErrorsPrevious (Delete.countErrors results)] ++ msgs2
    ∧ Delete.addingCommentsWithStylelintErrors
        (Some files') ".stylelintignore" config true w0 = (Ok (), w3)
    ∧ console w3 = console w0 ++ msgs3
    ∧ disk w3 !! ".stylelintignore"%string = Some m3
    ∧ stylelint_lint (disk (hidden m3 w3)) config files' = Some results'
    ∧ disk w' = delete "hash"%string (disk w3)
    ∧ trace w' = trace w3 ++ [Renamed ".stylelintignore" "hash";
                              Renamed "hash" ".stylelintignore"]
    ∧ Forall isErrorAt msgs1 ∧ Forall isErrorAt msgs2
    ∧ Forall isErrorAt msgs3
    ∧ console w'
      = console w ++ [StartDelete] ++ msgs1
        ++ [ErrorsPrevious (Delete.countErrors results)] ++ msgs2 ++ msgs3
        ++ [ErrorsCurrent (Delete.countErrors results')].
Proof.
  unfold Delete.deleteStylelintIgnore.
  change (path_join "." ".stylelintignore") with ".stylelintignore"%string.
  change (path_join "." ".stylelintrc.json") with ".stylelintrc.json"%string.
  rewrite run_bind. unfold console_log at 1.
  set (w1 := said StartDelete w).
  pose proof (Delete_config_trace ".stylelintrc.json" w1) as Ht2.
  destruct (Delete_config_run ".stylelintrc.json" w1)
    as (w2 & Hconfig & Hd2 & (msgs1 & Hc2 & Hmsgs1)).
  change (disk w1) with (disk w) in Hconfig, Hd2.
  rewrite Hconfig in Ht2. change (trace w1) with (trace w) in Ht2.
  simpl in Ht2.
  rewrite run_bind, Hconfig.
  set (config := disk w !! ".stylelintrc.json"%string ≫= JSON_parse).
  rewrite run_bind, Delete_reader_run, Hd2.
  destruct (disk w !! ".stylelintignore"%string) as [m|] eqn:Hm.
  2:{ rewrite run_bind, getStylelintCountErrors_run. simpl. rewrite Hd2, Hm.
      done. }
  rewrite run_bind, getStylelintCountErrors_run, Hd2, Hm.
  set (files := resolvedFiles (disk w) m).
  assert (disk (hidden m w2) = disk (hidden m w)) as Hh
    by (unfold hidden, moved; simpl; by rewrite Hd2).
  rewrite Hh.
  destruct (stylelint_lint (disk (hidden m w)) config files)
    as [results|] eqn:Hlint; [|done].
  rewrite run_bind. unfold console_log at 1.
  set (w5 := said _ (shown m (hidden m w2))).
  assert (disk w5 = delete "hash"%string (disk w)) as Hd5.
  { unfold w5. simpl disk. rewrite <- Hd2. apply shown_hidden_disk.
    by rewrite Hd2. }
  rewrite run_bind, Delete_filter_run, Hd5.
  set (files' := kept (delete "hash"%string (disk w)) files).
  set (w6 := reported _ _ w5).
  assert (growsBy isErrorAt w5 w6) as G6.
  { unfold w6. destruct (firstMissing _ _); simpl.
    - eexists. split; [reflexivity|]. by repeat constructor.
    - apply growsBy_refl. }
  rewrite run_bind.
  pose proof (Prints_Delete_writer isErrorAt (λ _ _, I) (Some files')
                ".stylelintignore" config true w6) as G7.
  destruct (Delete.addingCommentsWithStylelintErrors _ _ _ _ w6)
    as [[[]|e] w7] eqn:Hwriter; [|done].
  simpl in G7.
  rewrite run_bind, getStylelintCountErrors_run.
  destruct (disk w7 !! ".stylelintignore"%string) as [m3|] eqn:Hm3; [|done].
  destruct (stylelint_lint (disk (hidden m3 w7)) config files')
    as [results'|] eqn:Hlint'; [|done].
  unfold console_log. intros [= <-].
  destruct G6 as (msgs2 & Hc6 & Hmsgs2). destruct G7 as (msgs3 & Hc7 & Hmsgs3).
  assert (console w5
          = console w ++ [StartDelete] ++ msgs1
            ++ [ErrorsPrevious (Delete.countErrors results)]) as Hc5.
  { unfold w5. simpl. rewrite Hc2. unfold w1. simpl.
    by rewrite <- !app_assoc. }
  assert (disk w6 = delete "hash"%string (disk w)) as Hd6.
  { rewrite <- Hd5. unfold w6. by destruct (firstMissing _ _). }
  assert (trace w6 = trace w ++ [Renamed ".stylelintignore" "hash";
                                 Renamed "hash" ".stylelintignore"]) as Ht6.
  { transitivity (trace (shown m (hidden m w2))).
    - unfold w6. by destruct (firstMissing _ _).
    - by rewrite shown_hidden_trace, Ht2. }
  exists m, results, w6, w7, m3, results', msgs1, msgs2, msgs3.
  split_and!; try done.
  - rewrite Hc6, Hc5. by rewrite <- !app_assoc.
  - by apply shown_hidden_disk.
  - apply shown_hidden_trace.
  - simpl. rewrite Hc7, Hc6, Hc5. by rewrite <- !app_assoc.
Qed.

End reports.

(** C9, as the code has it.  The compactor never prints a count of
    errors: a run that ends well prints the size and the number of lines of
    the manifest before and after.  A run of the eliminator that ends well
    prints two counts.  The first is what the lint engine finds in the
    files the manifest resolves to, on the file system as the run found
    it, the manifest hidden.  Up to the world [w0] nothing has been
    written: the trace has the two renames of the first count, the disk
    is as before but for [hash].  The writer runs from [w0] and leaves
    [w3].  The second count is what the lint engine finds on the file
    system of [w3], the manifest hidden, in the files that do not start
    with the blanket disable comment; after it the run only renames the
    manifest back and prints the count. *)
Theorem before_after_reports `{Externals} :
  (∀ baseUrl w,
     growsBy (λ msg, ¬ isErrorCount msg) w
             (Compress.compressStylelintIgnore baseUrl w).2)
  ∧ (∀ w w',
       Compress.compressStylelintIgnore "." w = (Ok (), w') →
       ∃ m m' msgs,
         disk w !! ".stylelintignore"%string = Some m
         ∧ disk w' !! ".stylelintignore"%string = Some m'
         ∧ Forall isErrorAt msgs
         ∧ console w'
           = console w
             ++ [StartCompress;
                 SizeAndLength (String.length m) (length (Js.split Js.LF m))]
             ++ msgs
             ++ [Success;
                 SizeAndLength (String.length m') (length (Js.split Js.LF m'))])
  ∧ (∀ w w',
       Delete.deleteStylelintIgnore "." w = (Ok (), w') →
       ∃ m results w0 w3 m3 results' msgs1 msgs2 msgs3,
         let config := disk w !! ".stylelintrc.json"%string ≫= JSON_parse in
         let files := resolvedFiles (disk w) m in
         let files' := kept (delete "hash"%string (disk w)) files in
         disk w !! ".stylelintignore"%string = Some m
         ∧ stylelint_lint (disk (hidden m w)) config files = Some results
         ∧ disk w0 = delete "hash"%string (disk w)
         ∧ trace w0 = trace w ++ [Renamed ".stylelintignore" "hash";
                                  Renamed "hash" ".stylelintignore"]
         ∧ console w0
           = console w ++ [StartDelete] ++ msgs1
             ++ [ErrorsPrevious (Delete.countErrors results)] ++ msgs2
         ∧ Delete.addingCommentsWithStylelintErrors
             (Some files') ".stylelintignore" config true w0 = (Ok (), w3)
         ∧ console w3 = console w0 ++ msgs3
         ∧ disk w3 !! ".stylelintignore"%string = Some m3
         ∧ stylelint_lint (disk (hidden m3 w3)) config files' = Some results'
         ∧ disk w' = delete "hash"%string (disk w3)
         ∧ trace w' = trace w3 ++ [Renamed ".stylelintignore" "hash";
                                   Renamed "hash" ".stylelintignore"]
         ∧ Forall isErrorAt msgs1 ∧ Forall isErrorAt msgs2
         ∧ Forall isErrorAt msgs3
         ∧ console w'
           = console w ++ [StartDelete] ++ msgs1
             ++ [ErrorsPrevious (Delete.countErrors results)] ++ msgs2 ++ msgs3
             ++ [ErrorsCurrent (Delete.countErrors results')]).
Proof.
  split_and!.
  - intros baseUrl w. apply Prints_compress; intros; exact id.
  - apply compress_reports.
  - apply delete_reports.
Qed.

(** C9, at a manifest of one directory with two files. *)
Lemma before_after_reports_witness :
  let ext := tableExternals [("src/**/*.css", ["src/a.css"; "src/b.css"])]%string
                            ["src/a.css"%string] in
  let w := diskOf [(".stylelintignore", "src/"); (".stylelintrc.json", "{}");
                   ("src/a.css", "a { }");
                   ("src/b.css", "/* stylelint-disable */")]%string in
  (∃ m m' msgs,
     disk w !! ".stylelintignore"%string = Some m
     ∧ disk (Compress.compressStylelintIgnore "." w).2
         !! ".stylelintignore"%string = Some m'
     ∧ Forall isErrorAt msgs
     ∧ console (Compress.compressStylelintIgnore "." w).2
       = console w
         ++ [StartCompress;
             SizeAndLength (String.length m) (length (Js.split Js.LF m))]
         ++ msgs
         ++ [Success;
             SizeAndLength (String.length m') (length (Js.split Js.LF m'))])
  ∧ (∃ m results w0 w3 m3 results' msgs1 msgs2 msgs3,
       let config := disk w !! ".stylelintrc.json"%string ≫= JSON_parse in
       let files := resolvedFiles (disk w) m in
       let files' := kept (delete "hash"%string (disk w)) files in
       disk w !! ".stylelintignore"%string = Some m
       ∧ stylelint_lint (disk (hidden m w)) config files = Some results
       ∧ disk w0 = delete "hash"%string (disk w)
       ∧ trace w0 = trace w ++ [Renamed ".stylelintignore" "hash";
                                Renamed "hash" ".stylelintignore"]
       ∧ console w0
         = console w ++ [StartDelete] ++ msgs1
           ++ [ErrorsPrevious (Delete.countErrors results)] ++ msgs2
       ∧ Delete.addingCommentsWithStylelintErrors
           (Some files') ".stylelintignore" config true w0 = (Ok (), w3)
       ∧ console w3 = console w0 ++ msgs3
       ∧ disk w3 !! ".stylelintignore"%string = Some m3
       ∧ stylelint_lint (disk (hidden m3 w3)) config files' = Some results'
       ∧ disk (Delete.deleteStylelintIgnore "." w).2
         = delete "hash"%string (disk w3)
       ∧ trace (Delete.deleteStylelintIgnore "." w).2
         = trace w3 ++ [Renamed ".stylelintignore" "hash";
                        Renamed "hash" ".stylelintignore"]
       ∧ Forall isErrorAt msgs1 ∧ Forall isErrorAt msgs2
       ∧ Forall isErrorAt msgs3
       ∧ console (Delete.deleteStylelintIgnore "." w).2
         = console w ++ [StartDelete] ++ msgs1
           ++ [ErrorsPrevious (Delete.countErrors results)] ++ msgs2 ++ msgs3
           ++ [ErrorsCurrent (Delete.countErrors results')]).
Proof.
  intros ext w. split.
  - apply (proj1 (proj2 (@before_after_reports ext)) w). vm_compute. reflexivity.
  - apply (proj2 (proj2 (@before_after_reports ext)) w). vm_compute. reflexivity.
Defined.

(** The second count sees what the writer wrote.  With a lint engine
    that reads the files, a file with one error is counted before the
    pass; the pass puts it between the comments for its rule, and the
    count after the pass finds no error in it. *)
Example eliminator_counts_after_the_pass :
  let ext := readingExternals [("a.css", ["a.css"])]%string in
  let w := diskOf [(".stylelintignore", "a.css"); (".stylelintrc.json", "{}");
                   ("a.css", "a { }")]%string in
  console (Delete.deleteStylelintIgnore "." w).2
  = [StartDelete; ErrorsPrevious 1; ErrorsCurrent 0]
  ∧ disk (Delete.deleteStylelintIgnore "." w).2 !! "a.css"%string
    = Some ("/* stylelint-disable x */" +:+ Js.newline +:+ "a { }"
            +:+ Js.newline +:+ "/* stylelint-enable x */")%string.
Proof. intros ext w. split; vm_compute; reflexivity. Qed.

(** C9 as written fails.  The file the manifest resolves to has an error,
    and the compactor prints sizes and lengths and no count of errors; and
    the eliminator counts a second time over fewer files than the first
    time when one of them starts with the blanket disable comment. *)
Lemma compactor_reports_no_error_count :
  let ext := tableExternals [("src/**/*.css", ["src/a.css"; "src/b.css"])]%string
                            ["src/a.css"%string] in
  let w := diskOf [(".stylelintignore", "src/"); (".stylelintrc.json", "{}");
                   ("src/a.css", "a { }");
                   ("src/b.css", "/* stylelint-disable */")]%string in
  Delete.countErrors
    (default [] (stylelint_lint (disk w) (Some ())
                   (resolvedFiles (disk w) "src/"))) = 1%nat
  ∧ Compress.compressStylelintIgnore "." w
    = (Ok (), (Compress.compressStylelintIgnore "." w).2)
  ∧ console (Compress.compressStylelintIgnore "." w).2
    = [StartCompress; SizeAndLength 4 1; Success; SizeAndLength 5 2]
  ∧ ¬ Exists isErrorCount (console (Compress.compressStylelintIgnore "." w).2)
  ∧ resolvedFiles (disk w) "src/" = ["src/a.css"; "src/b.css"]%string
  ∧ kept (delete "hash"%string (disk w)) (resolvedFiles (disk w) "src/")
    = ["src/a.css"%string].
Proof.
  intros ext w.
  assert (console (Compress.compressStylelintIgnore "." w).2
          = [StartCompress; SizeAndLength 4 1; Success; SizeAndLength 5 2])
    as Hconsole by (vm_compute; reflexivity).
  split_and!; [vm_compute; reflexivity | vm_compute; reflexivity | exact Hconsole
              | | vm_compute; reflexivity | vm_compute; reflexivity].
  rewrite Hconsole. intros Hex.
  repeat (apply Exists_cons in Hex as [[]|Hex]). by apply Exists_nil in Hex.
Qed.

(** C4 fails in the code: the query stage hands the result object of the
    lint engine to [files.delete], which deletes no path.  Whatever the
    lint engine answers, a collection without empty sets leaves the query
    stage as it entered it; a manifest of one file without errors is
    rewritten with the file still in it. *)
Theorem compactor_keeps_clean_file :
  (∀ (ext : Externals) config entries w m,
     Forall (λ entry, entry.2 ≠ []) entries →
     disk w !! ".stylelintignore"%string = Some m →
     ∃ w',
       Compress.filterFilesWithoutErrors (Some entries) config w
       = (Ok (Some entries), w')
       ∧ disk w' !! ".stylelintignore"%string = Some m)
  ∧ (let ext := tableExternals [("a.css", ["a.css"])]%string [] in
     let m := ("a.css" +:+ Js.newline)%string in
     let w := diskOf [(".stylelintignore", m); (".stylelintrc.json", "{}");
                      ("a.css", "a { }")]%string in
     stylelint_lint (disk (hidden m w)) (Some ()) ["a.css"%string]
     = Some [ {| source := "a.css"; errored := false; warnings := [] |} ]
     ∧ (Compress.filterFilesWithoutErrors
          (Some [("a.css", ["a.css"])]%string) (Some ()) w).1
       = Ok (Some [("a.css", ["a.css"])]%string)
     ∧ (Compress.compressStylelintIgnore "." w).1 = Ok ()
     ∧ disk (Compress.compressStylelintIgnore "." w).2
         !! ".stylelintignore"%string = Some m).
Proof.
  split.
  - intros ext config entries w m Hne Hm.
    destruct (filterFilesWithoutErrors_removes_nothing config entries w m
                Hne Hm) as (w' & Hrun & Hm' & _).
    by exists w'.
  - intros ext m w. split_and!; vm_compute; reflexivity.
Qed.

(** C4, at the manifest of one file without errors. *)
Lemma compactor_keeps_clean_file_witness :
  let ext := tableExternals [("a.css", ["a.css"])]%string [] in
  let m := ("a.css" +:+ Js.newline)%string in
  let w := diskOf [(".stylelintignore", m); (".stylelintrc.json", "{}");
                   ("a.css", "a { }")]%string in
  ∃ w',
    Compress.filterFilesWithoutErrors
      (Some [("a.css", ["a.css"])]%string) (Some ()) w
    = (Ok (Some [("a.css", ["a.css"])]%string), w')
    ∧ disk w' !! ".stylelintignore"%string = Some m.
Proof.
  intros ext m w.
  apply (proj1 compactor_keeps_clean_file ext).
  - by repeat constructor.
  - reflexivity.
Defined.

(** C5 fails at one of the three call sites.  When the lint engine rejects
    inside the counter of errors, the counter ends with the manifest still
    called [hash]: it has no [catch].  The query stage of the compactor and
    the writer of the eliminator do end with the manifest under its name,
    on every path. *)
Theorem count_leaves_manifest_hidden :
  (∀ (ext : Externals) config files w m,
     disk w !! ".stylelintignore"%string = Some m →
     stylelint_lint (disk (hidden m w)) config files = None →
     ∃ w',
       Delete.getStylelintCountErrors config (Some files) w
       = (Throw LintError, w')
       ∧ disk w' !! ".stylelintignore"%string = None
       ∧ disk w' !! "hash"%string = Some m)
  ∧ (∀ (ext : Externals) config entries w m,
       disk w !! ".stylelintignore"%string = Some m →
       ∃ c' w',
         Compress.filterFilesWithoutErrors (Some entries) config w = (Ok c', w')
         ∧ disk w' !! ".stylelintignore"%string = Some m)
  ∧ (∀ (ext : Externals) files path config b w m,
       disk w !! ".stylelintignore"%string = Some m →
       is_Some (disk (Delete.addingCommentsWithStylelintErrors
                        files path config b w).2
                  !! ".stylelintignore"%string)).
Proof.
  split_and!.
  - intros ext config files w m Hm Hlint. exists (hidden m w).
    rewrite getStylelintCountErrors_run, Hm, Hlint.
    split_and!; [done | apply hidden_manifest | apply hidden_hash].
  - intros ext. apply filterFilesWithoutErrors_restores.
  - intros ext. apply addingComments_restores.
Qed.

(** C5, at a lint engine that rejects. *)
Lemma count_leaves_manifest_hidden_witness :
  let ext := rejectingExternals [] in
  let w := diskOf [(".stylelintignore", "src/"); ("src/a.css", "a")]%string in
  (∃ w',
     Delete.getStylelintCountErrors (Some ()) (Some ["src/a.css"%string]) w
     = (Throw LintError, w')
     ∧ disk w' !! ".stylelintignore"%string = None
     ∧ disk w' !! "hash"%string = Some "src/"%string)
  ∧ (∃ c' w',
       Compress.filterFilesWithoutErrors
         (Some [("src/", ["src/a.css"])]%string) (Some ()) w = (Ok c', w')
       ∧ disk w' !! ".stylelintignore"%string = Some "src/"%string)
  ∧ is_Some (disk (Delete.addingCommentsWithStylelintErrors
                     (Some ["src/a.css"%string]) ".stylelintignore" (Some ())
                     true w).2 !! ".stylelintignore"%string).
Proof.
  intros ext w. split_and!.
  - apply (proj1 count_leaves_manifest_hidden ext (Some ())
             ["src/a.css"%string] w "src/"%string); reflexivity.
  - apply (proj1 (proj2 count_leaves_manifest_hidden) ext). reflexivity.
  - apply (proj2 (proj2 count_leaves_manifest_hidden) ext _ _ _ _ w
             "src/"%string). reflexivity.
Defined.

(** * Further properties of the code *)

(** ** Lines of a text *)

Section lines.

Lemma split_nonempty sep s : Js.split sep s ≠ [].
Proof.
  destruct s as [|c s]; simpl; [done|].
  destruct (Ascii.eqb c sep); [done|]. by destruct (Js.split sep s).
Qed.

Lemma length_split sep s : length (Js.split sep s) = S (countOf sep s).
Proof.
  induction s as [|c s IH]; simpl; [done|].
  destruct (Ascii.eqb c sep); simpl; [by rewrite IH|].
  destruct (Js.split sep s); simpl in *; lia.
Qed.

Lemma join_cons2 sep x y rest :
  Js.join sep (x :: y :: rest) = x +:+ sep +:+ Js.join sep (y :: rest).
Proof. reflexivity. Qed.

Lemma join_split s : Js.join Js.newline (Js.split Js.LF s) = s.
Proof.
  induction s as [|c s IH]; [done|]. simpl.
  pose proof (split_nonempty Js.LF s) as Hne.
  destruct (Js.split Js.LF s) as [|h t] eqn:E; [done|].
  destruct (Ascii.eqb_spec c Js.LF) as [->|Hc].
  - rewrite join_cons2, IH. reflexivity.
  - destruct t as [|h2 t].
    + simpl in *. by rewrite IH.
    + rewrite join_cons2, append_cons. f_equal.
      by rewrite join_cons2 in IH.
Qed.

Lemma split_join ls :
  ls ≠ [] → Forall (λ l, occurs Js.LF l = false) ls →
  Js.split Js.LF (Js.join Js.newline ls) = ls.
Proof.
  intros Hne Hls. induction Hls as [|l ls Hl Hls IH]; [done|].
  destruct ls as [|l2 ls].
  - simpl. by apply split_no_sep.
  - rewrite join_cons2. unfold Js.newline. rewrite append_cons, append_nil_l.
    rewrite split_append by done. f_equal. by apply IH.
Qed.

End lines.

(** ** The writer keeps the file *)

Section keeps_lines.
Implicit Types (buf : list string) (plan : list (string * list string)).

Lemma splice_sublist {A} (arr : list A) start x :
  arr `sublist_of` Js.splice arr start x.
Proof.
  unfold Js.splice. set (i := Js.spliceStart _ _).
  rewrite <- (take_drop i arr) at 1.
  apply sublist_app; [done|]. by apply sublist_cons.
Qed.

Lemma splice_perm {A} (arr : list A) start x :
  Js.splice arr start x ≡ₚ arr ++ [x].
Proof.
  unfold Js.splice. set (i := Js.spliceStart _ _).
  rewrite <- (take_drop i arr) at 3.
  rewrite <- Permutation_middle, <- app_assoc.
  rewrite (Permutation_app_comm (drop i arr) [x]). simpl.
  by rewrite <- Permutation_middle.
Qed.

Lemma commentStep_keeps b buf c entry :
  buf `sublist_of` (commentStep b (buf, c) entry).1
  ∧ (commentStep b (buf, c) entry).1 ≡ₚ buf ++ commentsOf b [entry].
Proof.
  destruct entry as [lines rules]. unfold commentStep, commentsOf.
  destruct b; simpl.
  - split.
    + etrans; apply splice_sublist.
    + rewrite splice_perm, splice_perm, <- app_assoc. done.
  - split; [apply splice_sublist | apply splice_perm].
Qed.

Lemma commentsOf_snoc b plan entry :
  commentsOf b (plan ++ [entry]) = commentsOf b plan ++ commentsOf b [entry].
Proof. unfold commentsOf. by rewrite bind_app. Qed.

Lemma commentLoop_keeps b plan buf :
  buf `sublist_of` (commentLoop b plan buf).1
  ∧ (commentLoop b plan buf).1 ≡ₚ buf ++ commentsOf b plan.
Proof.
  unfold commentLoop.
  induction plan as [|entry plan IH] using rev_ind.
  - simpl. by rewrite app_nil_r.
  - rewrite foldl_snoc.
    destruct (foldl (commentStep b) (buf, 0) plan) as [cur c].
    simpl in IH. destruct IH as [IH1 IH2].
    destruct (commentStep_keeps b cur c entry) as [H1 H2]. split.
    + by etrans.
    + by rewrite H2, IH2, commentsOf_snoc, app_assoc.
Qed.

Lemma length_commentsOf b plan :
  length (commentsOf b plan) = ((if b then 2 else 1) * length plan)%nat.
Proof.
  induction plan as [|entry plan IH]; [by destruct b|].
  unfold commentsOf in *. rewrite bind_cons, length_app, IH.
  destruct b; simpl; lia.
Qed.

Lemma length_planOf ws :
  length (planOf ws) = length (distinct (rangeOf <$> errorsOf ws)).
Proof.
  rewrite planOf_perm. unfold groupByRange. by rewrite length_fmap.
Qed.

End keeps_lines.

(** ** The marker of the filter *)

Section marker.

Lemma stripPrefix_Some p s r : Js.stripPrefix p s = Some r ↔ s = p +:+ r.
Proof.
  revert s. induction p as [|a p IH]; intros s; simpl.
  - rewrite append_nil_l. split; congruence.
  - destruct s as [|b s]; [by rewrite append_cons|].
    rewrite append_cons. destruct (Ascii.eqb_spec a b) as [->|Hab].
    + rewrite IH. split; congruence.
    + split; congruence.
Qed.

Lemma trimStart_blank a s : isBlank a = true → Js.trimStart (a +:+ s) = Js.trimStart s.
Proof.
  induction a as [|c a IH]; [done|]. rewrite append_cons. simpl.
  intros [Hc Ha]%andb_true_iff. rewrite Hc. auto.
Qed.

(** What [trimStart] takes off is white space, and what it leaves does
    not start with white space. *)
Lemma trimStart_split s :
  ∃ a, isBlank a = true ∧ s = a +:+ Js.trimStart s.
Proof.
  induction s as [|c s (a & Ha & IH)]; [by exists EmptyString|]. simpl.
  destruct (Js.isSpace c) eqn:Hc.
  - exists (String c a). simpl. rewrite Hc, append_cons. split; [done|].
    by f_equal.
  - by exists EmptyString.
Qed.

Lemma trimStart_blank_nil s : Js.trimStart s = EmptyString ↔ isBlank s = true.
Proof.
  induction s as [|c s IH]; [done|]. simpl.
  destruct (Js.isSpace c); simpl; [done|]. split; congruence.
Qed.

Lemma trimStart_append a s :
  Js.trimStart (a +:+ s)
  = match Js.trimStart a with
    | EmptyString => Js.trimStart s
    | t => t +:+ s
    end.
Proof.
  induction a as [|c a IH]; [done|]. rewrite append_cons. simpl.
  destruct (Js.isSpace c); [done|]. by rewrite append_cons.
Qed.

Lemma trimEnd_last s c :
  Js.isSpace c = false →
  Js.trimEnd (s +:+ String c EmptyString) = s +:+ String c EmptyString.
Proof.
  intros Hc. induction s as [|x s IH].
  - simpl. by rewrite Hc.
  - rewrite append_cons. simpl. rewrite IH.
    destruct s; reflexivity.
Qed.

(** A text that starts and ends with a character that is not white space
    is its own trim. *)
Lemma trim_tight c s c' :
  Js.isSpace c = false → Js.isSpace c' = false →
  Js.trim (String c (s +:+ String c' EmptyString))
  = String c (s +:+ String c' EmptyString).
Proof.
  intros Hc Hc'. unfold Js.trim. simpl. rewrite Hc.
  change (String c (s +:+ String c' EmptyString))
    with (String c s +:+ String c' EmptyString).
  by apply trimEnd_last.
Qed.

Lemma comment_shape rules commentType :
  comment rules commentType
  = String "/" ((String "*" (" stylelint-" +:+ commentType +:+ " "
                             +:+ Js.join "," rules +:+ " *"))
                +:+ String "/" EmptyString).
Proof.
  unfold comment, helperCommentDisableFromArrayRules. cbv zeta.
  rewrite (append_cons "*"), !append_assoc. reflexivity.
Qed.

Lemma trim_comment rules commentType :
  Js.trim (comment rules commentType) = comment rules commentType.
Proof. rewrite comment_shape. by apply trim_tight. Qed.

End marker.

Section blank.

Lemma isBlank_trimStart s : isBlank (Js.trimStart s) = isBlank s.
Proof.
  induction s as [|c s IH]; [done|]. simpl.
  destruct (Js.isSpace c) eqn:Hc; simpl; [done|]. by rewrite Hc.
Qed.

Lemma trimEnd_blank_nil s : Js.trimEnd s = EmptyString ↔ isBlank s = true.
Proof.
  induction s as [|c s IH]; [done|]. simpl.
  destruct (Js.trimEnd s) as [|x t].
  - destruct (Js.isSpace c); simpl; [tauto|]. split; congruence.
  - split; [congruence|]. intros [_ Hs]%andb_true_iff.
    apply IH in Hs. congruence.
Qed.

Lemma trim_blank_nil s : Js.trim s = EmptyString ↔ isBlank s = true.
Proof.
  unfold Js.trim. by rewrite trimEnd_blank_nil, isBlank_trimStart.
Qed.

Lemma trim_eqb_blank s : String.eqb (Js.trim s) EmptyString = isBlank s.
Proof.
  destruct (isBlank s) eqn:Hs.
  - apply trim_blank_nil in Hs. by rewrite Hs.
  - apply String.eqb_neq. intros Ht%trim_blank_nil. congruence.
Qed.

Lemma isBlank_append a b : isBlank (a +:+ b) = isBlank a && isBlank b.
Proof.
  induction a as [|c a IH]; [done|]. rewrite append_cons. simpl.
  by rewrite IH, andb_assoc.
Qed.

End blank.

Section suffix.

Lemma revString_acc acc s :
  Js.revString acc s = Js.revString EmptyString s +:+ acc.
Proof.
  revert acc. induction s as [|c s IH]; intros acc; [done|]. simpl.
  rewrite (IH (String c acc)), (IH (String c EmptyString)).
  by rewrite append_assoc.
Qed.

Lemma revString_append a b :
  Js.revString EmptyString (a +:+ b)
  = Js.revString EmptyString b +:+ Js.revString EmptyString a.
Proof.
  induction a as [|c a IH]; [by rewrite append_nil_l, append_nil_r|].
  rewrite append_cons. simpl.
  rewrite (revString_acc (String c EmptyString) (a +:+ b)), IH.
  rewrite (revString_acc (String c EmptyString) a). by rewrite append_assoc.
Qed.

Lemma revString_involutive s :
  Js.revString EmptyString (Js.revString EmptyString s) = s.
Proof.
  induction s as [|c s IH]; [done|]. simpl.
  by rewrite (revString_acc (String c EmptyString) s), revString_append, IH.
Qed.

Lemma endsWith_spec s suffix :
  Js.endsWith s suffix = true ↔ ∃ prefix, s = prefix +:+ suffix.
Proof.
  unfold Js.endsWith. rewrite bool_decide_eq_true. split.
  - intros [r Hr]. apply stripPrefix_Some in Hr.
    exists (Js.revString EmptyString r).
    rewrite <- (revString_involutive s), Hr, revString_append.
    by rewrite revString_involutive.
  - intros [p ->]. exists (Js.revString EmptyString p).
    apply stripPrefix_Some, revString_append.
Qed.

End suffix.

Section counting.

Lemma countWarnings_fold (ws : list Warning) (acc : nat) :
  foldl (λ acc w, if String.eqb (severity w) "error" then (acc + 1)%nat else acc)
        acc ws
  = (acc + length (errorsOf ws))%nat.
Proof.
  revert acc. induction ws as [|w ws IH]; intros acc; simpl; [lia|].
  rewrite IH. unfold errorsOf. rewrite filter_cons. unfold isError at 2.
  rewrite eqb_decide. case_bool_decide; destruct (decide _); simpl; done || lia.
Qed.

Lemma countErrors_fold (results : list LintResult) (acc : nat) :
  foldl (λ acc file,
           (acc + foldl (λ acc w,
                           if String.eqb (severity w) "error"
                           then (acc + 1)%nat else acc)
                        0%nat (warnings file))%nat)
        acc results
  = (acc + length (errorsOf (results ≫= warnings)))%nat.
Proof.
  revert acc. induction results as [|r results IH]; intros acc; [simpl; lia|].
  rewrite bind_cons. cbn [foldl]. rewrite IH, countWarnings_fold.
  unfold errorsOf. rewrite filter_app, length_app. lia.
Qed.

Lemma length_distinct {A} `{EqDecision A} (l : list A) :
  (length (distinct l) ≤ length l)%nat.
Proof.
  apply submseteq_length, NoDup_submseteq; [apply NoDup_distinct|].
  intros x. by rewrite elem_of_distinct.
Qed.

End counting.

(** ** Helpers: the size and the number of lines of a file *)

(** X1.  [determinateSizeAndLengthFile] never throws.  For a file that is
    there it returns the number of its bytes and one more than the number
    of its line feeds (an empty file has one line), and leaves the world
    as it is; for a path that is not there it prints the error of
    [isFileExists] and returns [undefined]. *)
Theorem size_and_length_of_file path w :
  determinateSizeAndLengthFile path w
  = match disk w !! path with
    | Some data =>
        (Ok (Some (String.length data, S (countOf Js.LF data))), w)
    | None => (Ok None, said (ErrorAt (SizeAndLengthOf path) (NoFile path)) w)
    end.
Proof.
  rewrite determinateSizeAndLengthFile_run.
  destruct (disk w !! path); [|done]. by rewrite length_split.
Qed.

(** ** The writer: reading and writing a source file *)

(** X2.  [helperReadSourceFile] and [helperWriteSourceFile] are inverse to
    each other: the lines of a text joined by line feeds are the text, the
    text of lines without a line feed splits into these lines, and a file
    read and written back has the content it had. *)
Theorem source_lines_round_trip :
  (∀ data, Js.join Js.newline (Js.split Js.LF data) = data)
  ∧ (∀ lines,
       lines ≠ [] → Forall (λ l, occurs Js.LF l = false) lines →
       Js.split Js.LF (Js.join Js.newline lines) = lines)
  ∧ (∀ path data w,
       disk w !! path = Some data →
       (lines ← Delete.helperReadSourceFile path;
        Delete.helperWriteSourceFile path (inl lines)) w
       = (Ok (), wrote path data w)).
Proof.
  split_and!.
  - apply join_split.
  - apply split_join.
  - intros path data w Hd.
    unfold Delete.helperReadSourceFile, Delete.helperWriteSourceFile.
    rewrite !run_bind. unfold readFile. rewrite Hd. simpl.
    unfold writeFile. by rewrite join_split.
Qed.

(** X2, at a file of two lines. *)
Lemma source_lines_round_trip_witness :
  let lines := ["a { }"; "b { }"]%string in
  let w := diskOf [("a.css", "a { }" +:+ Js.newline +:+ "b { }")]%string in
  Js.split Js.LF (Js.join Js.newline lines) = lines
  ∧ (lines ← Delete.helperReadSourceFile "a.css";
     Delete.helperWriteSourceFile "a.css" (inl lines)) w
    = (Ok (), wrote "a.css" ("a { }" +:+ Js.newline +:+ "b { }") w).
Proof.
  intros lines w. split.
  - apply (proj1 (proj2 source_lines_round_trip) lines);
      [done | by repeat constructor].
  - apply (proj2 (proj2 source_lines_round_trip) "a.css"%string _ w).
    reflexivity.
Defined.

(** X3.  The writer only adds lines.  For every list of warnings, every
    buffer and both kinds of comment, the lines of the file are still
    there in their order, what was added is exactly the comments of the
    plan (also when a planned line is not a line of the file, where
    [splice] clamps the index), and the file grows by one line, or two,
    for each pair of lines that has an error. *)
Theorem writer_keeps_every_line b ws buf :
  buf `sublist_of` commentedLines b ws buf
  ∧ commentedLines b ws buf ≡ₚ buf ++ commentsOf b (planOf ws)
  ∧ length (commentedLines b ws buf)
    = (length buf
       + (if b then 2 else 1) * length (distinct (rangeOf <$> errorsOf ws)))%nat.
Proof.
  change (commentedLines b ws buf) with (commentLoop b (planOf ws) buf).1.
  destruct (commentLoop_keeps b (planOf ws) buf) as [H1 H2].
  split_and!; [done..|].
  by rewrite H2, length_app, length_commentsOf, length_planOf.
Qed.

(** X4.  Every error gets a comment that names its rule: for a warning of
    severity error the file written has the comment (the pair of comments
    in block mode) of an entry of the plan for the lines of the warning,
    and the rule of the warning is one of the rules the comment lists. *)
Theorem every_error_gets_its_comment b ws buf w :
  w ∈ ws → isError w →
  ∃ rules,
    rule w ∈ rules
    ∧ (key (line w) (endLine w), rules) ∈ planOf ws
    ∧ Forall (λ c, c ∈ commentedLines b ws buf)
             (commentsOf b [(key (line w) (endLine w), rules)]).
Proof.
  intros Hw He. exists (rulesAt (rangeOf w) ws).
  assert ((key (line w) (endLine w), rulesAt (rangeOf w) ws) ∈ planOf ws)
    as Hin.
  { rewrite planOf_perm. apply elem_of_groupByRange. exists (rangeOf w).
    split; [done|]. apply elem_of_ranges. by exists w. }
  split_and!; [|done|].
  - apply elem_of_rulesAt. by exists w.
  - apply Forall_forall. intros c Hc.
    change (commentedLines b ws buf) with (commentLoop b (planOf ws) buf).1.
    rewrite (proj2 (commentLoop_keeps b (planOf ws) buf)).
    apply elem_of_app. right. unfold commentsOf in *.
    apply list_elem_of_bind in Hc as (entry & Hc & ->%list_elem_of_singleton).
    apply list_elem_of_bind. by eexists.
Qed.

(** X4, at a file of two lines with an error of rule [x] at line 2. *)
Lemma every_error_gets_its_comment_witness :
  let w := {| severity := "error"; line := 2; endLine := 2; rule := "x" |} in
  ∃ rules,
    rule w ∈ rules
    ∧ (key (line w) (endLine w), rules) ∈ planOf [w]
    ∧ Forall (λ c, c ∈ commentedLines true [w] ["a { }"; "b { }"]%string)
             (commentsOf true [(key (line w) (endLine w), rules)]).
Proof.
  intros w.
  apply (every_error_gets_its_comment true [w] ["a { }"; "b { }"]%string w).
  - by left.
  - reflexivity.
Defined.

(** ** The planner: keys and counts *)

(** X5.  The key of the collection is read back as it was made: the text
    before the bar of [`${line}|${endLine}`] is the number [line], the
    text after it the number [endLine], also for negative numbers and 0. *)
Theorem key_round_trip s e :
  startLineOf (key s e) = Some s ∧ endLineOf (key s e) = Some e.
Proof. split; [apply startLineOf_key | apply endLineOf_key]. Qed.

(** X6.  The count of [getStylelintCountErrors] is the number of warnings
    of severity error in all results; whether a result is flagged
    [errored] does not count, nor does any other severity.  The plan of a
    file never has more entries than the file has errors. *)
Theorem count_is_number_of_errors (results : list LintResult) :
  Delete.countErrors results = length (errorsOf (results ≫= warnings))
  ∧ ∀ r : LintResult,
      (length (planOf (warnings r)) ≤ Delete.countErrors [r])%nat.
Proof.
  assert (∀ results : list LintResult,
            Delete.countErrors results
            = length (errorsOf (results ≫= warnings))) as Hcount.
  { intros rs. unfold Delete.countErrors. by rewrite countErrors_fold. }
  split; [apply Hcount|]. intros r. rewrite Hcount, length_planOf.
  etrans; [apply length_distinct|]. rewrite length_fmap.
  simpl. by rewrite app_nil_r.
Qed.

(** ** The disable-comment filter: what counts as the marker *)

(** X7.  On a text of ASCII characters the test of the filter accepts
    exactly the texts the regular expression
    [/^\/\*\s*stylelint-disable\s*\*\/$/] describes: the opening of a
    comment, white space or none, [stylelint-disable], white space or
    none, the closing of the comment, and nothing else.  The test reads
    [\s] as the ASCII white space, which is what [\s] is in such a text;
    a text with other characters (a no-break space, a byte order mark) is
    outside the statement. *)
Theorem disable_marker_language s :
  isAscii s = true →
  (matchDisableComment s = true ↔
   ∃ a b, isBlank a = true ∧ isBlank b = true
          ∧ s = "/*" +:+ a +:+ "stylelint-disable" +:+ b +:+ "*/").
Proof.
  intros _. unfold matchDisableComment. split.
  - destruct (Js.stripPrefix "/*" s) as [rest|] eqn:H1; [|done].
    apply stripPrefix_Some in H1.
    destruct (Js.stripPrefix "stylelint-disable" (Js.trimStart rest))
      as [rest'|] eqn:H2; [|done].
    apply stripPrefix_Some in H2. intros H3%String.eqb_eq.
    destruct (trimStart_split rest) as (a & Ha & Hrest).
    destruct (trimStart_split rest') as (b & Hb & Hrest').
    exists a, b. split_and!; [done..|].
    by rewrite H1, Hrest, H2, Hrest', H3 at 1.
  - intros (a & b & Ha & Hb & ->).
    rewrite (proj2 (stripPrefix_Some "/*" _ _) eq_refl).
    rewrite (trimStart_blank a) by done.
    change (Js.trimStart ("stylelint-disable" +:+ b +:+ "*/"))
      with ("stylelint-disable" +:+ b +:+ "*/").
    rewrite (proj2 (stripPrefix_Some "stylelint-disable" _ _) eq_refl).
    by rewrite (trimStart_blank b).
Qed.

(** X7, at the marker with a tabulator before the word and two spaces
    after it. *)
Lemma disable_marker_language_witness :
  let s := ("/*" +:+ String "009" "stylelint-disable  */")%string in
  matchDisableComment s = true ↔
  ∃ a b, isBlank a = true ∧ isBlank b = true
         ∧ s = "/*" +:+ a +:+ "stylelint-disable" +:+ b +:+ "*/".
Proof.
  intros s. apply (disable_marker_language s). reflexivity.
Defined.

(** X8.  Of a file only the first line that is not blank decides: the
    file is taken for disabled exactly when there is such a line and,
    trimmed, it is the marker.  What follows that line is never looked at,
    and a file that is empty or all white space is kept. *)
Theorem first_line_decides lines :
  skipFileFrom lines = true ↔
  ∃ blanks l rest,
    lines = blanks ++ l :: rest
    ∧ Forall (λ x, isBlank x = true) blanks
    ∧ isBlank l = false
    ∧ matchDisableComment (Js.trim l) = true.
Proof.
  induction lines as [|x lines IH]; simpl.
  - split; [done|]. intros (blanks & l & rest & Hl & _).
    by destruct blanks.
  - rewrite trim_eqb_blank. destruct (isBlank x) eqn:Hx.
    + rewrite IH. split.
      * intros (blanks & l & rest & -> & Hb & Hl & Hm).
        exists (x :: blanks), l, rest. split_and!; try done.
        by constructor.
      * intros (blanks & l & rest & Heq & Hb & Hl & Hm).
        destruct blanks as [|y blanks]; simplify_eq/=; [congruence|].
        apply Forall_cons in Hb as [_ Hb]. by exists blanks, l, rest.
    + split.
      * intros Hm. by exists [], x, lines.
      * intros (blanks & l & rest & Heq & Hb & Hl & Hm).
        destruct blanks as [|y blanks]; simplify_eq/=; [done|].
        apply Forall_cons in Hb as [Hy _]. congruence.
Qed.

(** X9.  The comments the writer adds are not taken for the marker: a
    [disable-next-line] comment and an [enable] comment never are, and a
    [disable] comment is only when the text of its rules is white space or
    empty, so a file the eliminator has annotated at its first line is
    not skipped by the filter for that. *)
Theorem written_comment_is_no_marker rules :
  matchDisableComment (Js.trim (comment rules "disable-next-line")) = false
  ∧ matchDisableComment (Js.trim (comment rules "enable")) = false
  ∧ (matchDisableComment (Js.trim (comment rules "disable")) = true
     ↔ isBlank (Js.join "," rules) = true).
Proof.
  rewrite !trim_comment. split_and!; [reflexivity..|].
  change (matchDisableComment (comment rules "disable"))
    with (String.eqb (Js.trimStart (Js.join "," rules +:+ " */")) "*/").
  rewrite trimStart_append, <- trimStart_blank_nil.
  destruct (Js.trimStart (Js.join "," rules)) as [|c t]; [done|].
  split; [|done]. intros Heq%String.eqb_eq. exfalso.
  rewrite append_cons in Heq. injection Heq as _ Heq.
  destruct t as [|c' t]; [done|]. rewrite append_cons in Heq.
  injection Heq as _ Heq. by destruct t.
Qed.

(** ** The readers: the pattern of a line *)

(** X10.  A line of the manifest that ends in [.css] is the pattern of a
    single file and is expanded as it stands; to every other line
    [**/*.css] is appended as it stands, with no separator added. *)
Theorem pattern_of_line line :
  ((∃ prefix, line = prefix +:+ ".css") ∧ patternOf line = line)
  ∨ ((∀ prefix, line ≠ prefix +:+ ".css")
     ∧ patternOf line = line +:+ "**/*.css").
Proof.
  unfold patternOf. destruct (Js.endsWith line ".css") eqn:He; simpl.
  - left. split; [by apply endsWith_spec|done].
  - right. split; [|done]. intros p Hp.
    assert (Js.endsWith line ".css" = true) by (apply endsWith_spec; eauto).
    congruence.
Qed.

(** ** What the readers resolve *)

Section readers.
Context `{Externals}.
Implicit Types (d : gmap string string).

Lemma foldl_SetAdd_distinct (xs files : list string) :
  foldl (λ s file, Js.SetAdd file s) (distinct xs) files
  = distinct (xs ++ files).
Proof.
  revert xs. induction files as [|file files IH]; intros xs; simpl.
  - by rewrite app_nil_r.
  - rewrite SetAdd_distinct, IH, <- app_assoc. done.
Qed.

Lemma length_eqb_nil {A} (l : list A) :
  (length l =? 0)%nat = bool_decide (l = []).
Proof. by destruct l. Qed.

Lemma resolvedFiles_distinct d lines xs :
  foldl (resolvedFilesStep d) (distinct xs) lines
  = distinct
      (xs ++ (filter (λ l, isEmptyLine l = false ∧ isCommentLine l = false)
                     lines
              ≫= λ l, glob_sync d (patternOf l))).
Proof.
  revert xs. induction lines as [|l lines IH]; intros xs.
  - simpl. by rewrite app_nil_r.
  - cbn [foldl]. rewrite filter_cons. unfold resolvedFilesStep at 2.
    destruct (decide (isEmptyLine l = false ∧ isCommentLine l = false))
      as [[He Hc]|Hn].
    + rewrite He, Hc. cbn [orb]. rewrite bind_cons, length_eqb_nil.
      case_bool_decide as Hg.
      * rewrite Hg. apply IH.
      * rewrite foldl_SetAdd_distinct, IH, <- app_assoc. done.
    + replace (isEmptyLine l || isCommentLine l) with true; [apply IH|].
      destruct (isEmptyLine l), (isCommentLine l); try done.
      by destruct Hn.
Qed.

Lemma resolves_step d acc l :
  resolvedEntriesStep d acc l
  = if decide (resolves d l)
    then Js.MapSet l (Js.SetOf (glob_sync d (patternOf l))) acc
    else acc.
Proof.
  unfold resolvedEntriesStep.
  destruct (decide (resolves d l)) as [(He & Hc & Hg)|Hn].
  - rewrite He, Hc. cbn [orb].
    by rewrite length_eqb_nil, bool_decide_eq_false_2.
  - destruct (isEmptyLine l) eqn:He; [done|].
    destruct (isCommentLine l) eqn:Hc; [done|]. cbn [orb].
    rewrite length_eqb_nil. case_bool_decide as Hg; [done|].
    by destruct Hn.
Qed.

Lemma resolvedEntries_distinct d lines :
  foldl (resolvedEntriesStep d) [] lines
  = (λ l, (l, distinct (glob_sync d (patternOf l))))
      <$> distinct (filter (resolves d) lines).
Proof.
  induction lines as [|l lines IH] using rev_ind; [done|].
  rewrite foldl_snoc, IH, resolves_step, filter_app, filter_cons, filter_nil.
  destruct (decide (resolves d l)) as [Hl|Hl]; [|by rewrite app_nil_r].
  set (ks := filter (resolves d) lines).
  pose proof (NoDup_distinct ks) as Hnd.
  assert (∀ ls : list string,
            ((λ l, (l, distinct (glob_sync d (patternOf l)))) <$> ls).*1 = ls)
    as Hkeys.
  { intros ls. induction ls as [|x ls IHls]; [done|].
    rewrite !fmap_cons. by f_equal. }
  rewrite distinct_snoc. unfold Js.MapSet, Js.MapHas.
  rewrite Hkeys, SetOf_distinct.
  case_bool_decide as Hin.
  - rewrite decide_True by (by apply elem_of_distinct).
    pose proof (MapAlter_fmap (λ _, distinct (glob_sync d (patternOf l))) id
                  (λ i, distinct (glob_sync d (patternOf i)))
                  (distinct ks) l Hnd) as Hm.
    unfold id in Hm. rewrite Hm.
    apply list_fmap_ext. intros i k Hk. simpl.
    by destruct (decide (k = l)) as [->|].
  - rewrite decide_False by (by rewrite <- elem_of_distinct).
    by rewrite fmap_app.
Qed.

End readers.

(** ** Lines of the manifest *)

Section one_line.

Lemma oneLine_snoc cur c :
  oneLine cur → Ascii.eqb c Js.LF = false → Ascii.eqb c Js.CR = false →
  oneLine (cur +:+ String c EmptyString).
Proof.
  intros [H1 H2] HLF HCR. unfold oneLine.
  rewrite !occurs_append. simpl. rewrite H1, H2, HLF, HCR. done.
Qed.

Lemma oneLine_nil : oneLine EmptyString.
Proof. done. Qed.

Lemma readlineFrom_oneLine n input cur :
  (String.length input ≤ n)%nat → oneLine cur →
  Forall oneLine (readlineFrom cur input).
Proof.
  revert input cur. induction n as [|n IH]; intros input cur Hn Hcur.
  - destruct input; simpl in Hn; [|lia]. simpl.
    destruct cur; [constructor | constructor; [assumption | constructor]].
  - destruct input as [|c rest]; simpl.
    { destruct cur; [constructor | constructor; [assumption | constructor]]. }
    simpl in Hn.
    destruct (Ascii.eqb c Js.LF) eqn:HLF.
    { constructor; [done|]. apply IH; [lia | apply oneLine_nil]. }
    destruct (Ascii.eqb c Js.CR) eqn:HCR.
    + destruct rest as [|c' rest'].
      * constructor; [done|]. apply IH; [simpl; lia | apply oneLine_nil].
      * simpl in Hn. destruct (Ascii.eqb c' Js.LF).
        -- constructor; [done|]. apply IH; [lia | apply oneLine_nil].
        -- constructor; [done|]. apply IH; [simpl; lia | apply oneLine_nil].
    + apply IH; [lia|]. by apply oneLine_snoc.
Qed.

(** A line that [readline] delivers has no line end in it. *)
Lemma readline_oneLine input : Forall oneLine (readline input).
Proof.
  apply (readlineFrom_oneLine (String.length input)); [lia | apply oneLine_nil].
Qed.

End one_line.

Section new_content.

Lemma newContent_fold_filter (entries : list (string * list string))
    (content : string) :
  foldl (λ content '(line, files),
           if negb (length files =? 0)%nat
           then content +:+ line +:+ Js.newline else content)
        content entries
  = content +:+ linesText (filter (λ entry, entry.2 ≠ []) entries).*1.
Proof.
  revert content. induction entries as [|[line files] entries IH];
    intros content.
  - simpl. by rewrite append_nil_r.
  - cbn [foldl]. rewrite IH, filter_cons. destruct files as [|f files]; simpl.
    + done.
    + rewrite !append_assoc. done.
Qed.

Lemma keptEntries_removes d entries line files' :
  (line, files') ∈ keptEntries d entries →
  ∃ files, (line, files) ∈ entries ∧ files' `sublist_of` files
           ∧ ∀ file, file ∈ files → file ∉ files' → skips d file = true.
Proof.
  assert (∀ files,
            kept d files `sublist_of` files
            ∧ ∀ file, file ∈ files → file ∉ kept d files →
                      skips d file = true) as Hkept.
  { intros files. split; [apply sublist_filter|].
    intros file Hin Hout. apply (skipped_skips d files).
    destruct (decide (file ∈ skipped d files)) as [|Hs]; [done|].
    exfalso. apply Hout. unfold kept. by apply list_elem_of_filter. }
  induction entries as [|[l files] entries IH]; simpl.
  { by intros ?%not_elem_of_nil. }
  destruct (firstMissing d files).
  - intros [Heq|Hin]%elem_of_cons.
    + injection Heq as -> ->. exists files.
      split; [by left | apply Hkept].
    + exists files'. split_and!; [by right | done | done].
  - intros [Hin|Hin]%elem_of_app.
    + destruct (length (kept d files) =? 0)%nat;
        [by apply not_elem_of_nil in Hin|].
      apply list_elem_of_singleton in Hin. injection Hin as -> ->.
      exists files. split; [by left | apply Hkept].
    + destruct (IH Hin) as (fs & Hfs & Hsub). exists fs.
      split; [by right | done].
Qed.

End new_content.

(** X11.  The reader of the eliminator never throws.  From a manifest
    that is there it returns the files its lines resolve to: the lines
    that are neither blank nor a [#] comment, each expanded by its
    pattern, all files in the order they were found and each once; the
    file system is left as it is.  Without a manifest it prints the error
    and returns [undefined]. *)
Theorem eliminator_reader_resolves `{Externals} path w :
  Delete.getStylelintIgnoreContent path w
  = match disk w !! path with
    | Some data =>
        (Ok (Some (distinct
                     (filter (λ l, isEmptyLine l = false
                                   ∧ isCommentLine l = false)
                             (readline data)
                      ≫= λ l, glob_sync (disk w) (patternOf l)))), w)
    | None => (Ok None, said (ErrorAt ReadingIgnore (NoFile path)) w)
    end.
Proof.
  rewrite Delete_reader_run. destruct (disk w !! path) as [data|]; [|done].
  unfold resolvedFiles.
  by rewrite (resolvedFiles_distinct (disk w) (readline data) []).
Qed.

(** X12.  The reader of the compactor never throws.  From a manifest that
    is there it returns one entry for each line that is neither blank nor
    a comment and resolves to a file, at the place of the first time the
    line occurs, with the files of the line, each once; no entry has an
    empty set.  Without a manifest it prints the error and returns
    [undefined]. *)
Theorem compactor_reader_resolves `{Externals} path w :
  Compress.getStylelintIgnoreContent path w
  = match disk w !! path with
    | Some data =>
        (Ok (Some ((λ l, (l, distinct (glob_sync (disk w) (patternOf l))))
                     <$> distinct (filter (resolves (disk w))
                                          (readline data)))), w)
    | None => (Ok None, said (ErrorAt ReadingIgnore (NoFile path)) w)
    end.
Proof.
  rewrite Compress_reader_run. destruct (disk w !! path) as [data|]; [|done].
  unfold resolvedEntries. by rewrite resolvedEntries_distinct.
Qed.

(** X13.  The two readers of the configuration differ in their [catch]
    block.  The one of the eliminator never throws: when the file is
    missing or is not JSON it prints the error and returns [undefined].
    The one of the compactor calls [e.message()], which is not a function:
    in both cases it throws a [TypeError] and prints nothing. *)
Theorem config_readers `{Externals} path w :
  Delete.getStylelintConfigContent path w
  = match disk w !! path with
    | None => (Ok None, said (ErrorAt ReadingConfig (NoFile path)) w)
    | Some data =>
        match JSON_parse data with
        | Some config => (Ok (Some config), w)
        | None => (Ok None, said (ErrorAt ReadingConfig SyntaxError) w)
        end
    end
  ∧ Compress.getStylelintConfigContent path w
    = match disk w !! path with
      | None => (Throw TypeError, w)
      | Some data =>
          match JSON_parse data with
          | Some config => (Ok (Some config), w)
          | None => (Throw TypeError, w)
          end
      end.
Proof.
  split.
  - unfold Delete.getStylelintConfigContent.
    rewrite run_tryCatch, run_bind, isFileExists_run.
    destruct (disk w !! path) as [data|] eqn:Hd; [|done].
    unfold readFile, parseConfig. rewrite run_bind, Hd. simpl.
    rewrite run_bind. by destruct (JSON_parse data).
  - rewrite Compress_config_run. by destruct (disk w !! path).
Qed.

(** X14.  [writeNewStylelintIgnore] never throws.  It writes one line,
    ended by a line feed, for each entry whose set is not empty, in the
    order of the map, and nothing for the others; handed [undefined] it
    writes nothing and prints the error.  When no key has a line end in
    it, what was written reads back as these lines. *)
Theorem new_manifest_content path c w :
  Compress.writeNewStylelintIgnore path c w
  = match c with
    | Some entries =>
        (Ok (), wrote path
                  (linesText (filter (λ entry, entry.2 ≠ []) entries).*1) w)
    | None => (Ok (), said (ErrorAt WritingIgnore TypeError) w)
    end
  ∧ ∀ entries,
      c = Some entries → Forall oneLine entries.*1 →
      readline (Compress.newStylelintIgnoreContent entries)
      = (filter (λ entry, entry.2 ≠ []) entries).*1.
Proof.
  assert (∀ entries,
            Compress.newStylelintIgnoreContent entries
            = linesText (filter (λ entry, entry.2 ≠ []) entries).*1) as Hnew.
  { intros entries. unfold Compress.newStylelintIgnoreContent.
    by rewrite newContent_fold_filter. }
  split.
  - rewrite writeNewStylelintIgnore_run. destruct c; [|done].
    by rewrite Hnew.
  - intros entries _ Hone. rewrite Hnew. apply readline_linesText.
    apply Forall_forall.
    intros l (entry & -> & [_ Hin]%list_elem_of_filter)%list_elem_of_fmap.
    apply (proj1 (Forall_forall _ _) Hone). apply list_elem_of_fmap.
    by exists entry.
Qed.

(** X14, at a collection of two entries, the second of them empty. *)
Lemma new_manifest_content_witness :
  let entries := [("src/", ["src/a.css"]); ("lib/", [])]%string in
  readline (Compress.newStylelintIgnoreContent entries) = ["src/"%string].
Proof.
  intros entries.
  apply (proj2 (new_manifest_content ".stylelintignore" (Some entries)
                  (diskOf [])) entries eq_refl).
  by repeat constructor.
Defined.

(** X15.  The disable-comment filter only removes, and only files that
    start with the marker: whether the loop ends or stops at a file that
    cannot be read, what the eliminator's filter returns is the set
    without some files that can be read and start with the blanket disable
    comment, in the order it had, and every entry the compactor's filter
    leaves is an entry it was handed, without some such files.  Neither
    changes a file. *)
Theorem filter_removes_only_marked_files :
  (∀ files w, ∃ files' w',
     Delete.filterFilesWithDisableComment (Some files) w
     = (Ok (Some files'), w')
     ∧ disk w' = disk w ∧ trace w' = trace w
     ∧ files' `sublist_of` files
     ∧ ∀ file, file ∈ files → file ∉ files' → skips (disk w) file = true)
  ∧ (∀ entries w,
       NoDup entries.*1 →
       ∃ entries' w',
         Compress.filterFilesWithDisableComment (Some entries) w
         = (Ok (Some entries'), w')
         ∧ disk w' = disk w ∧ trace w' = trace w
         ∧ entries'.*1 `sublist_of` entries.*1
         ∧ ∀ line files', (line, files') ∈ entries' →
             ∃ files, (line, files) ∈ entries ∧ files' `sublist_of` files
                      ∧ ∀ file, file ∈ files → file ∉ files' →
                                skips (disk w) file = true).
Proof.
  assert (∀ e w, disk (reported FilteringDisable e w) = disk w
                 ∧ trace (reported FilteringDisable e w) = trace w) as Hrep
    by (by intros [e|]).
  split.
  - intros files w. eexists _, _. split; [apply Delete_filter_run|].
    split; [apply Hrep|]. split; [apply Hrep|].
    split; [apply sublist_filter|].
    intros file Hin Hout. apply (skipped_skips (disk w) files).
    destruct (decide (file ∈ skipped (disk w) files)) as [|Hs]; [done|].
    exfalso. apply Hout. unfold kept. by apply list_elem_of_filter.
  - intros entries w Hnd. eexists _, _.
    split; [by apply Compress_filter_run|].
    split; [apply Hrep|]. split; [apply Hrep|].
    split; [apply keptEntries_keys|].
    intros line files'. apply keptEntries_removes.
Qed.

(** X15, at a collection of one entry with a file that starts with the
    marker and one that does not. *)
Lemma filter_removes_only_marked_files_witness :
  let w := diskOf [("a.css", "/* stylelint-disable */"); ("b.css", "a { }")]%string in
  let entries := [("src/", ["a.css"; "b.css"])]%string in
  ∃ entries' w',
    Compress.filterFilesWithDisableComment (Some entries) w
    = (Ok (Some entries'), w')
    ∧ disk w' = disk w ∧ trace w' = trace w
    ∧ entries'.*1 `sublist_of` entries.*1
    ∧ ∀ line files', (line, files') ∈ entries' →
        ∃ files, (line, files) ∈ entries ∧ files' `sublist_of` files
                 ∧ ∀ file, file ∈ files → file ∉ files' →
                           skips (disk w) file = true.
Proof.
  intros w entries.
  apply (proj2 filter_removes_only_marked_files entries w).
  repeat constructor. by apply not_elem_of_nil.
Defined.

(** X16.  A count that goes well.  Without a manifest
    [getStylelintCountErrors] throws at once and changes nothing.  With a
    manifest, the lint engine is asked on a file system where the manifest
    is called [hash] and [.stylelintignore] is not there; when it answers,
    the count of its errors is returned, nothing is printed, the manifest
    has its name and content again, and no file is called [hash] any more,
    also if one was before. *)
Theorem count_hides_and_restores `{Externals} config files w :
  (disk w !! ".stylelintignore"%string = None →
   Delete.getStylelintCountErrors config files w
   = (Throw (ENOENT ".stylelintignore"), w))
  ∧ (∀ m fs results,
       disk w !! ".stylelintignore"%string = Some m → files = Some fs →
       stylelint_lint (<["hash"%string := m]>
                         (delete ".stylelintignore"%string (disk w)))
                      config fs = Some results →
       ∃ w',
         Delete.getStylelintCountErrors config files w
         = (Ok (Delete.countErrors results), w')
         ∧ disk w' = delete "hash"%string (disk w)
         ∧ disk w' !! ".stylelintignore"%string = Some m
         ∧ disk w' !! "hash"%string = None
         ∧ console w' = console w
         ∧ trace w' = trace w ++ [Renamed ".stylelintignore" "hash";
                                  Renamed "hash" ".stylelintignore"]).
Proof.
  split.
  - intros Hm. by rewrite getStylelintCountErrors_run, Hm.
  - intros m fs results Hm -> Hlint.
    rewrite getStylelintCountErrors_run, Hm.
    change (disk (hidden m w))
      with (<["hash"%string := m]>
              (delete ".stylelintignore"%string (disk w))).
    rewrite Hlint. eexists. split; [reflexivity|].
    pose proof (shown_hidden_disk w m Hm) as Hd.
    split_and!.
    + done.
    + apply shown_manifest.
    + rewrite Hd. apply lookup_delete_eq.
    + done.
    + apply shown_hidden_trace.
Qed.

(** X16, at a manifest of one file with an error, beside a file called
    [hash]. *)
Lemma count_hides_and_restores_witness :
  let ext := tableExternals [] ["a.css"%string] in
  let w := diskOf [(".stylelintignore", "a.css"); ("a.css", "a { }");
                   ("hash", "kept elsewhere")]%string in
  let results :=
    [ {| source := "a.css"; errored := true;
         warnings := [ {| severity := "error"; line := 2; endLine := 2;
                          rule := "x" |} ] |} ] in
  (∃ w',
     Delete.getStylelintCountErrors (Some ()) (Some ["a.css"%string]) w
     = (Ok (Delete.countErrors results), w')
     ∧ disk w' = delete "hash"%string (disk w)
     ∧ disk w' !! ".stylelintignore"%string = Some "a.css"%string
     ∧ disk w' !! "hash"%string = None
     ∧ console w' = console w
     ∧ trace w' = trace w ++ [Renamed ".stylelintignore" "hash";
                              Renamed "hash" ".stylelintignore"])
  ∧ Delete.getStylelintCountErrors (Some ()) (Some ["a.css"%string]) (diskOf [])
    = (Throw (ENOENT ".stylelintignore"), diskOf []).
Proof.
  intros ext w results. split.
  - apply (proj2 (@count_hides_and_restores ext (Some ())
                    (Some ["a.css"%string]) w)
             "a.css"%string ["a.css"%string] results eq_refl eq_refl).
    reflexivity.
  - apply (proj1 (@count_hides_and_restores ext (Some ())
                    (Some ["a.css"%string]) (diskOf []))).
    reflexivity.
Defined.

(** ** What a script leaves alone *)

Create HintDb keeps discriminated.

Section keeps.
Context (p : string).
Implicit Types (w : World).

Lemma Keeps_ret {A} (a : A) : Keeps p (mret a).
Proof. by intros w. Qed.

Lemma Keeps_throw {A} e : Keeps p (throw (A := A) e).
Proof. by intros w. Qed.

(** The rest of a computation need only keep [p] for the values the
    first part can return. *)
Lemma Keeps_bind_ok {A B} (m : M World A) (f : A → M World B) :
  Keeps p m → (∀ w a w', m w = (Ok a, w') → Keeps p (f a)) →
  Keeps p (m ≫= f).
Proof.
  intros Hm Hf w. rewrite run_bind. specialize (Hm w). specialize (Hf w).
  destruct (m w) as [[a|e] w1]; simpl in *; [|done].
  by rewrite (Hf a w1 eq_refl w1).
Qed.

Lemma Keeps_bind {A B} (m : M World A) (f : A → M World B) :
  Keeps p m → (∀ a, Keeps p (f a)) → Keeps p (m ≫= f).
Proof. intros Hm Hf. apply Keeps_bind_ok; [done|]. intros _ a _ _. apply Hf. Qed.

Lemma Keeps_tryCatch {A} (m : M World A) h :
  Keeps p m → (∀ e, Keeps p (h e)) → Keeps p (tryCatch m h).
Proof.
  intros Hm Hh w. rewrite run_tryCatch. specialize (Hm w).
  destruct (m w) as [[a|e] w1]; simpl in *; [done|].
  by rewrite (Hh e w1).
Qed.

Lemma Keeps_forOf_in {X} (xs : list X) (body : X → M World ()) :
  (∀ x, x ∈ xs → Keeps p (body x)) → Keeps p (forOf xs body).
Proof.
  induction xs as [|x xs IH]; intros Hbody w; [done|].
  rewrite forOf_cons. pose proof (Hbody x (list_elem_of_here _ _) w) as Hx.
  destruct (body x w) as [[[]|e] w1]; simpl in *; [|done].
  rewrite IH; [done|]. intros y Hy. apply Hbody. by right.
Qed.

Lemma Keeps_forOf {X} (xs : list X) (body : X → M World ()) :
  (∀ x, Keeps p (body x)) → Keeps p (forOf xs body).
Proof. intros Hbody. apply Keeps_forOf_in. intros x _. apply Hbody. Qed.

Lemma Keeps_foldOf {X B} (xs : list X) (body : B → X → M World B) b :
  (∀ b x, Keeps p (body b x)) → Keeps p (foldOf xs body b).
Proof.
  intros Hbody. revert b. induction xs as [|x xs IH]; intros b w; [done|].
  rewrite foldOf_cons. specialize (Hbody b x w).
  destruct (body b x w) as [[b'|e] w1]; simpl in *; [|done].
  by rewrite IH.
Qed.

Lemma Keeps_defined {A} (x : option A) : Keeps p (defined x).
Proof. intros w. by destruct x. Qed.

Lemma Keeps_console_log msg : Keeps p (console_log msg).
Proof. by intros w. Qed.

Lemma Keeps_pathExists path : Keeps p (pathExists path).
Proof. by intros w. Qed.

Lemma Keeps_readFile path : Keeps p (readFile path).
Proof. intros w. unfold readFile. by destruct (disk w !! path). Qed.

Lemma Keeps_writeFile path data : p ≠ path → Keeps p (writeFile path data).
Proof. intros Hp w. simpl. by rewrite lookup_insert_ne. Qed.

Lemma Keeps_rename a b : p ≠ a → p ≠ b → Keeps p (rename a b).
Proof.
  intros Ha Hb w. unfold rename. destruct (disk w !! a); [|done]. simpl.
  by rewrite lookup_insert_ne, lookup_delete_ne.
Qed.

Lemma Keeps_lint `{Externals} config files : Keeps p (lint config files).
Proof. intros w. rewrite lint_run. by destruct (stylelint_lint _ _ _). Qed.

Lemma Keeps_globSync `{Externals} pattern : Keeps p (globSync pattern).
Proof. by intros w. Qed.

Lemma Keeps_parseConfig `{Externals} data : Keeps p (parseConfig data).
Proof. intros w. unfold parseConfig. by destruct (JSON_parse data). Qed.

(** Computations on a collection. *)
Lemma KeepsOn_ret {C A} (a : A) : KeepsOn p (C := C) (mret a).
Proof. by intros c w. Qed.

Lemma KeepsOn_bind {C A B} (m : M (C * World) A) (f : A → M (C * World) B) :
  KeepsOn p m → (∀ a, KeepsOn p (f a)) → KeepsOn p (m ≫= f).
Proof.
  intros Hm Hf c w. rewrite run_bind. specialize (Hm c w).
  destruct (m (c, w)) as [[a|e] [c1 w1]]; simpl in *; [|done].
  by rewrite (Hf a c1 w1).
Qed.

Lemma KeepsOn_tryCatch {C A} (m : M (C * World) A) h :
  KeepsOn p m → (∀ e, KeepsOn p (h e)) → KeepsOn p (tryCatch m h).
Proof.
  intros Hm Hh c w. rewrite run_tryCatch. specialize (Hm c w).
  destruct (m (c, w)) as [[a|e] [c1 w1]]; simpl in *; [done|].
  by rewrite (Hh e c1 w1).
Qed.

Lemma KeepsOn_forOf {C X} (xs : list X) (body : X → M (C * World) ()) :
  (∀ x, KeepsOn p (body x)) → KeepsOn p (forOf xs body).
Proof.
  intros Hbody. induction xs as [|x xs IH]; intros c w; [done|].
  rewrite forOf_cons. specialize (Hbody x c w).
  destruct (body x (c, w)) as [[[]|e] [c1 w1]]; simpl in *; [|done].
  by rewrite IH.
Qed.

Lemma KeepsOn_inWorld {C A} (m : M World A) :
  Keeps p m → KeepsOn p (C := C) (inWorld m).
Proof.
  intros Hm c w. unfold inWorld. specialize (Hm w).
  by destruct (m w) as [r w1].
Qed.

Lemma KeepsOn_getObject {C} : KeepsOn p (getObject (C := C)).
Proof. by intros c w. Qed.

Lemma KeepsOn_modifyObject {C} (f : C → C) : KeepsOn p (modifyObject f).
Proof. by intros c w. Qed.

Lemma KeepsOn_defined {C A} (x : option A) : KeepsOn p (C := C) (defined x).
Proof. intros c w. by destruct x. Qed.

Lemma Keeps_withObject {C A} (c : C) (m : M (C * World) A) :
  KeepsOn p m → Keeps p (withObject c m).
Proof.
  intros Hm w. unfold withObject. specialize (Hm c w).
  by destruct (m (c, w)) as [[a|e] [c1 w1]].
Qed.

End keeps.

Global Hint Resolve Keeps_ret Keeps_throw Keeps_defined Keeps_console_log
  Keeps_pathExists Keeps_readFile Keeps_writeFile Keeps_rename Keeps_lint
  Keeps_globSync Keeps_parseConfig KeepsOn_ret KeepsOn_getObject
  KeepsOn_modifyObject KeepsOn_defined : keeps.

(** One step through a script: a bind, a [try], a loop, a branch. *)
Ltac keeps_step :=
  match goal with
  | |- Keeps _ (_ ≫= _) => apply Keeps_bind; [|intros ?]
  | |- Keeps _ (tryCatch _ _) => apply Keeps_tryCatch; [|intros ?]
  | |- Keeps _ (forOf _ _) => apply Keeps_forOf; intros ?
  | |- Keeps _ (foldOf _ _ _) => apply Keeps_foldOf; intros ? ?
  | |- Keeps _ (withObject _ _) => apply Keeps_withObject
  | |- KeepsOn _ (_ ≫= _) => apply KeepsOn_bind; [|intros ?]
  | |- KeepsOn _ (tryCatch _ _) => apply KeepsOn_tryCatch; [|intros ?]
  | |- KeepsOn _ (forOf _ _) => apply KeepsOn_forOf; intros ?
  | |- KeepsOn _ (inWorld _) => apply KeepsOn_inWorld
  | |- Keeps _ (if ?b then _ else _) => destruct b
  | |- KeepsOn _ (if ?b then _ else _) => destruct b
  | |- Keeps _ (match ?x with _ => _ end) => destruct x
  | |- KeepsOn _ (match ?x with _ => _ end) => destruct x
  | |- _ => solve [auto with keeps]
  end.

Ltac keeps := repeat keeps_step.

Section frames.
Context `{Externals}.
Context (p : string).
Context (Hmanifest : p ≠ ".stylelintignore"%string) (Hhash : p ≠ "hash"%string).

Lemma Keeps_isFileExists path : Keeps p (isFileExists path).
Proof. unfold isFileExists. keeps. Qed.

#[local] Hint Resolve Keeps_isFileExists : keeps.

Lemma Keeps_skipFile file : Keeps p (skipFile file).
Proof. unfold skipFile. keeps. Qed.

#[local] Hint Resolve Keeps_skipFile : keeps.

Lemma Keeps_determinate path : Keeps p (determinateSizeAndLengthFile path).
Proof. unfold determinateSizeAndLengthFile, statSize. keeps. Qed.

Lemma Keeps_report path : Keeps p (Compress.reportSizeAndLength path).
Proof.
  unfold Compress.reportSizeAndLength.
  apply Keeps_bind; [apply Keeps_determinate|]. intros [[size length]|]; keeps.
Qed.

Lemma Keeps_Compress_config path :
  Keeps p (Compress.getStylelintConfigContent path).
Proof. unfold Compress.getStylelintConfigContent. keeps. Qed.

Lemma Keeps_Compress_reader path :
  Keeps p (Compress.getStylelintIgnoreContent path).
Proof.
  unfold Compress.getStylelintIgnoreContent, Compress.readerStep. keeps.
Qed.

Lemma Keeps_Compress_filterDisable c :
  Keeps p (Compress.filterFilesWithDisableComment c).
Proof.
  unfold Compress.filterFilesWithDisableComment, Compress.disableEntryStep,
    Compress.disableFileStep, Compress.dropIfEmpty.
  keeps.
Qed.

Lemma Keeps_Compress_filterErrors c config :
  Keeps p (Compress.filterFilesWithoutErrors c config).
Proof.
  unfold Compress.filterFilesWithoutErrors, Compress.errorsEntryStep,
    Compress.errorsFileStep, Compress.dropIfEmpty.
  keeps.
Qed.

Lemma Keeps_Compress_write path c :
  p ≠ path → Keeps p (Compress.writeNewStylelintIgnore path c).
Proof. intros Hp. unfold Compress.writeNewStylelintIgnore. keeps. Qed.

Lemma Keeps_compress baseUrl :
  p ≠ path_join baseUrl ".stylelintignore" →
  Keeps p (Compress.compressStylelintIgnore baseUrl).
Proof.
  intros Hp. unfold Compress.compressStylelintIgnore.
  apply Keeps_bind; [apply Keeps_console_log|]. intros _.
  apply Keeps_bind; [apply Keeps_report|]. intros _.
  apply Keeps_bind; [apply Keeps_Compress_config|]. intros config.
  apply Keeps_bind; [apply Keeps_Compress_reader|]. intros c1.
  apply Keeps_bind; [apply Keeps_Compress_filterDisable|]. intros c2.
  apply Keeps_bind; [apply Keeps_Compress_filterErrors|]. intros c3.
  apply Keeps_bind; [by apply Keeps_Compress_write|]. intros _.
  apply Keeps_bind; [apply Keeps_console_log|]. intros _.
  apply Keeps_report.
Qed.







End frames.

(** X17.  The compactor changes no file but the manifest.  In every run,
    however it ends and whatever the lint engine and the pattern expansion
    answer, every path other than the manifest, [.stylelintignore] in the
    working directory and [hash] holds after the run what it held
    before. *)
Theorem compactor_touches_only_manifest `{Externals} baseUrl w p :
  p ≠ path_join baseUrl ".stylelintignore" →
  p ≠ ".stylelintignore"%string → p ≠ "hash"%string →
  disk (Compress.compressStylelintIgnore baseUrl w).2 !! p = disk w !! p.
Proof. intros Hp Hm Hh. by apply Keeps_compress. Qed.

(** X17, at a manifest of one line and the file it resolves to. *)
Lemma compactor_touches_only_manifest_witness :
  let ext := tableExternals [("src/**/*.css", ["src/a.css"])]%string
                            ["src/a.css"%string] in
  let w := diskOf [(".stylelintignore", "src/"); (".stylelintrc.json", "{}");
                   ("src/a.css", "a { }")]%string in
  disk (Compress.compressStylelintIgnore "." w).2 !! "src/a.css"%string
  = disk w !! "src/a.css"%string.
Proof.
  intros ext w.
  by apply (@compactor_touches_only_manifest ext "."%string w
              "src/a.css"%string).
Defined.



(** ** The files the writer leaves *)

Section writer_disk.
Context `{Externals}.
Implicit Types (w : World) (r : LintResult).

Lemma commentLoop_disk path b (results : list LintResult) w :
  NoDup (source <$> filter (λ r, errored r = true) results) →
  (∀ r, r ∈ results → errored r = true →
        is_Some (disk w !! source r) ∧ source r ≠ path) →
  ∃ w',
    forOf results (Delete.commentFileStep path b) w = (Ok (), w')
    ∧ (∀ r data,
         r ∈ results → errored r = true → disk w !! source r = Some data →
         disk w' !! source r
         = Some (Js.join Js.newline
                   (commentedLines b (warnings r) (Js.split Js.LF data))))
    ∧ disk w' !! path
      = (if bool_decide (Exists (λ r, errored r = true) results)
         then Some EmptyString else disk w !! path)
    ∧ (∀ p, p ≠ path →
            (∀ r, r ∈ results → errored r = true → source r ≠ p) →
            disk w' !! p = disk w !! p)
    ∧ console w' = console w.
Proof.
  revert w. induction results as [|r rs IH]; intros w Hnd Hread.
  { exists w. rewrite forOf_nil. split_and!; try done.
    by intros r data ?%not_elem_of_nil. }
  rewrite forOf_cons, commentFileStep_run.
  rewrite filter_cons in Hnd.
  destruct (errored r) eqn:He.
  - rewrite decide_True in Hnd by done. rewrite fmap_cons in Hnd.
    apply NoDup_cons in Hnd as [Hnotin Hnd].
    destruct (Hread r (list_elem_of_here _ _) He) as [[data Hdata] Hpath].
    rewrite Hdata.
    set (new := Js.join Js.newline
                  (commentedLines b (warnings r) (Js.split Js.LF data))).
    set (w1 := wrote path EmptyString (wrote (source r) new w)).
    assert (∀ q, q ≠ path → q ≠ source r → disk w1 !! q = disk w !! q)
      as Hframe1.
    { intros q Hq1 Hq2. unfold w1, wrote. simpl.
      by rewrite !lookup_insert_ne. }
    assert (∀ r', r' ∈ rs → errored r' = true → source r' ≠ source r)
      as Hother.
    { intros r' Hr' He' Heq. apply Hnotin. rewrite <- Heq.
      apply list_elem_of_fmap_2. by apply list_elem_of_filter. }
    destruct (IH w1 Hnd) as (w' & Hrun & Hfiles & Hp & Hframe & Hcons).
    { intros r' Hr' He'. destruct (Hread r' (list_elem_of_further _ _ _ Hr') He')
        as [Hs Hne].
      split; [|done]. rewrite Hframe1; [done..|]. by apply Hother. }
    exists w'. split_and!.
    + done.
    + intros r' data' [->|Hr']%elem_of_cons He' Hd'.
      * rewrite Hframe; [|done|by intros r'' ? ?; apply Hother].
        unfold w1, wrote. simpl.
        rewrite lookup_insert_ne, lookup_insert_eq by done.
        rewrite Hdata in Hd'. by injection Hd' as <-.
      * destruct (Hread r' (list_elem_of_further _ _ _ Hr') He') as [_ Hne].
        apply Hfiles; [done..|]. rewrite Hframe1; [done..|]. by apply Hother.
    + rewrite Hp. rewrite (bool_decide_eq_true_2 (Exists _ (r :: rs)))
        by (by apply Exists_cons_hd).
      case_bool_decide; [done|]. unfold w1, wrote. simpl.
      by rewrite lookup_insert_eq.
    + intros p Hp1 Hp2. rewrite Hframe.
      * apply Hframe1; [done|]. intros ->.
        by apply (Hp2 r (list_elem_of_here _ _) He).
      * done.
      * intros r' Hr'. apply Hp2. by right.
    + by rewrite Hcons.
  - rewrite decide_False in Hnd by congruence.
    destruct (IH w Hnd) as (w' & Hrun & Hfiles & Hp & Hframe & Hcons).
    { intros r' Hr'. apply Hread. by right. }
    exists w'. split_and!.
    + done.
    + intros r' data' [->|Hr']%elem_of_cons He' Hd'; [congruence|].
      by apply Hfiles.
    + rewrite Hp. case_bool_decide as H1; case_bool_decide as H2; try done.
      * exfalso. apply H2. by apply Exists_cons_tl.
      * exfalso. apply Exists_cons in H2 as [?|?]; [congruence|done].
    + intros p Hp1 Hp2. apply Hframe; [done|]. intros r' Hr'.
      apply Hp2. by right.
    + done.
Qed.

Lemma addingComments_disk files config b w m results :
  disk w !! ".stylelintignore"%string = Some m →
  stylelint_lint (disk (hidden m w)) config files = Some results →
  NoDup (source <$> filter (λ r, errored r = true) results) →
  (∀ r, r ∈ results → errored r = true →
        is_Some (disk w !! source r) ∧ source r ≠ "hash"%string
        ∧ source r ≠ ".stylelintignore"%string) →
  ∃ w',
    Delete.addingCommentsWithStylelintErrors
      (Some files) ".stylelintignore" config b w = (Ok (), w')
    ∧ (∀ r data,
         r ∈ results → errored r = true → disk w !! source r = Some data →
         disk w' !! source r
         = Some (Js.join Js.newline
                   (commentedLines b (warnings r) (Js.split Js.LF data))))
    ∧ disk w' !! ".stylelintignore"%string
      = Some (if bool_decide (Exists (λ r, errored r = true) results)
              then EmptyString else m)
    ∧ (∀ p, p ≠ ".stylelintignore"%string → p ≠ "hash"%string →
            (∀ r, r ∈ results → errored r = true → source r ≠ p) →
            disk w' !! p = disk w !! p)
    ∧ disk w' !! "hash"%string = None
    ∧ console w' = console w.
Proof.
  intros Hm Hlint Hnd Hread.
  rewrite (addingComments_run files _ config b w m results Hm Hlint).
  destruct (commentLoop_disk ".stylelintignore" b results
              (shown m (hidden m w)) Hnd)
    as (w' & Hrun & Hfiles & Hp & Hframe & Hcons).
  { intros r Hr He. destruct (Hread r Hr He) as (Hs & Hh & Hne).
    split; [|done]. by rewrite shown_hidden_lookup. }
  rewrite Hrun. exists w'. split_and!; [done|..].
  - intros r data Hr He Hd. destruct (Hread r Hr He) as (_ & Hh & _).
    apply Hfiles; [done..|]. by rewrite shown_hidden_lookup.
  - rewrite Hp, shown_manifest. by case_bool_decide.
  - intros p Hp1 Hp2 Hp3. rewrite Hframe by done.
    by apply shown_hidden_lookup.
  - rewrite Hframe; [|done|].
    + rewrite shown_hidden_disk by done. apply lookup_delete_eq.
    + intros r Hr He. by destruct (Hread r Hr He) as (_ & Hh & _).
  - by rewrite Hcons.
Qed.

End writer_disk.

(** ** The entries the compactor keeps *)

Section kept_lines.
Implicit Types (d : gmap string string).

Lemma keptEntries_readable d entries :
  (∀ entry file, entry ∈ entries → file ∈ entry.2 → is_Some (d !! file)) →
  keptEntries d entries = withoutSkipped d entries
  ∧ firstMissingEntry d entries = None.
Proof.
  unfold withoutSkipped.
  induction entries as [|[line files] entries IH]; intros Hr; [done|].
  destruct IH as [IH1 IH2].
  { intros entry file He. apply Hr. by right. }
  destruct (kept_readable d files) as [Hm Hk].
  { intros file. apply (Hr (line, files)). by left. }
  simpl. rewrite Hm, Hk, IH1, IH2. split; [|done].
  rewrite filter_cons. simpl.
  by destruct (filter (λ file, skips d file = false) files).
Qed.

Lemma filter_nonempty_Exists {A} (P : A → Prop) `{∀ x, Decision (P x)}
    (l : list A) :
  filter P l ≠ [] ↔ Exists P l.
Proof.
  induction l as [|x l IH]; simpl.
  - split; [done|]. by intros ?%Exists_nil.
  - rewrite filter_cons, Exists_cons. destruct (decide (P x)); [|tauto].
    split; [tauto|done].
Qed.

Lemma withoutSkipped_keys d (g : string → list string) (ks : list string) :
  (withoutSkipped d ((λ l, (l, distinct (g l))) <$> ks)).*1
  = filter (λ l, Exists (λ file, skips d file = false) (g l)) ks.
Proof.
  unfold withoutSkipped.
  induction ks as [|l ks IH]; [done|].
  rewrite !fmap_cons, !filter_cons. simpl.
  assert (filter (λ file, skips d file = false) (distinct (g l)) ≠ []
          ↔ Exists (λ file, skips d file = false) (g l)) as Hiff.
  { rewrite filter_nonempty_Exists, !Exists_exists.
    split; intros (x & Hx & Hs); exists x; (split; [|done]).
    - exact (proj1 (elem_of_distinct _ _) Hx).
    - exact (proj2 (elem_of_distinct _ _) Hx). }
  destruct (decide (filter _ (distinct (g l)) ≠ [])) as [Hy|Hn],
    (decide (Exists _ (g l))) as [Hy'|Hn']; try tauto.
  rewrite fmap_cons. simpl. by f_equal.
Qed.

Lemma withoutSkipped_nonempty d entries :
  Forall (λ entry, entry.2 ≠ []) (withoutSkipped d entries).
Proof.
  apply Forall_forall. by intros entry [? _]%list_elem_of_filter.
Qed.

End kept_lines.

(** X19.  What the writer leaves on the file system.  With the manifest
    there and the lint engine answering, when the files reported with
    errors are different files that can be read, the pass returns; each of
    these files then holds its lines with the comments of its plan added,
    joined by line feeds; the manifest is empty if there was such a file
    and as before if not; and nothing else but [hash] has changed. *)
Theorem writer_rewrites_errored_files `{Externals} files config b w m results :
  disk w !! ".stylelintignore"%string = Some m →
  stylelint_lint (disk (hidden m w)) config files = Some results →
  NoDup (source <$> filter (λ r, errored r = true) results) →
  (∀ r, r ∈ results → errored r = true →
        is_Some (disk w !! source r) ∧ source r ≠ "hash"%string
        ∧ source r ≠ ".stylelintignore"%string) →
  ∃ w',
    Delete.addingCommentsWithStylelintErrors
      (Some files) ".stylelintignore" config b w = (Ok (), w')
    ∧ (∀ r data,
         r ∈ results → errored r = true → disk w !! source r = Some data →
         disk w' !! source r
         = Some (Js.join Js.newline
                   (commentedLines b (warnings r) (Js.split Js.LF data))))
    ∧ disk w' !! ".stylelintignore"%string
      = Some (if bool_decide (Exists (λ r, errored r = true) results)
              then EmptyString else m)
    ∧ (∀ p, p ≠ ".stylelintignore"%string → p ≠ "hash"%string →
            (∀ r, r ∈ results → errored r = true → source r ≠ p) →
            disk w' !! p = disk w !! p)
    ∧ console w' = console w.
Proof.
  intros Hm Hlint Hnd Hread.
  destruct (addingComments_disk files config b w m results Hm Hlint Hnd Hread)
    as (w' & Hrun & Hfiles & Hp & Hframe & _ & Hcons).
  by exists w'.
Qed.

(** X19, at a file with an error at its second line and a clean file. *)
Lemma writer_rewrites_errored_files_witness :
  let ext := tableExternals [] ["a.css"%string] in
  let w := diskOf [(".stylelintignore", "a.css");
                   ("a.css", "a { }" +:+ Js.newline +:+ "b { }");
                   ("b.css", "d { }")]%string in
  let results :=
    [ {| source := "a.css"; errored := true;
         warnings := [ {| severity := "error"; line := 2; endLine := 2;
                          rule := "x" |} ] |};
      {| source := "b.css"; errored := false; warnings := [] |} ] in
  ∃ w',
    Delete.addingCommentsWithStylelintErrors
      (Some ["a.css"; "b.css"]%string) ".stylelintignore" (Some ()) true w
    = (Ok (), w')
    ∧ (∀ r data,
         r ∈ results → errored r = true → disk w !! source r = Some data →
         disk w' !! source r
         = Some (Js.join Js.newline
                   (commentedLines true (warnings r) (Js.split Js.LF data))))
    ∧ disk w' !! ".stylelintignore"%string
      = Some (if bool_decide (Exists (λ r, errored r = true) results)
              then EmptyString else "a.css"%string)
    ∧ (∀ p, p ≠ ".stylelintignore"%string → p ≠ "hash"%string →
            (∀ r, r ∈ results → errored r = true → source r ≠ p) →
            disk w' !! p = disk w !! p)
    ∧ console w' = console w.
Proof.
  intros ext w results.
  apply (@writer_rewrites_errored_files ext ["a.css"; "b.css"]%string
           (Some ()) true w "a.css"%string results).
  - reflexivity.
  - reflexivity.
  - repeat constructor. by apply not_elem_of_nil.
  - intros r Hr He.
    repeat (apply elem_of_cons in Hr as [->|Hr]);
      [by split; [eexists|] | done | by apply not_elem_of_nil in Hr].
Defined.

Lemma compress_lines_run `{Externals} w m config :
  disk w !! ".stylelintignore"%string = Some m →
  disk w !! ".stylelintrc.json"%string ≫= JSON_parse = Some config →
  (∀ line file,
     line ∈ readline m → file ∈ glob_sync (disk w) (patternOf line) →
     is_Some (disk w !! file)) →
  let lines :=
    filter (λ l, Exists (λ file, skips (disk w) file = false)
                        (glob_sync (disk w) (patternOf l)))
           (distinct (filter (resolves (disk w)) (readline m))) in
  ∃ w',
    Compress.compressStylelintIgnore "." w = (Ok (), w')
    ∧ disk w' !! ".stylelintignore"%string = Some (linesText lines)
    ∧ readline (linesText lines) = lines
    ∧ ∀ p, p ≠ ".stylelintignore"%string → p ≠ "hash"%string →
           disk w' !! p = disk w !! p.
Proof.
  intros Hm Hconfig Hread lines.
  unfold Compress.compressStylelintIgnore.
  change (path_join "." ".stylelintignore") with ".stylelintignore"%string.
  change (path_join "." ".stylelintrc.json") with ".stylelintrc.json"%string.
  rewrite run_bind. unfold console_log at 1.
  set (w1 := said StartCompress w).
  rewrite run_bind, reportSizeAndLength_run.
  change (disk w1) with (disk w). rewrite Hm.
  set (w2 := said _ w1).
  rewrite run_bind, Compress_config_run.
  change (disk w2) with (disk w). rewrite Hconfig.
  rewrite run_bind, Compress_reader_run.
  change (disk w2) with (disk w). rewrite Hm.
  unfold resolvedEntries. rewrite resolvedEntries_distinct.
  set (ks := distinct (filter (resolves (disk w)) (readline m))).
  set (entries := (λ l, (l, distinct (glob_sync (disk w) (patternOf l))))
                    <$> ks).
  assert (entries.*1 = ks) as Hkeys.
  { unfold entries. generalize ks. intros ls.
    induction ls as [|x ls IHls]; [done|]. rewrite !fmap_cons. by f_equal. }
  assert (NoDup entries.*1) as Hnd by (rewrite Hkeys; apply NoDup_distinct).
  rewrite run_bind, Compress_filter_run by done.
  change (disk w2) with (disk w).
  destruct (keptEntries_readable (disk w) entries) as [-> ->].
  { intros entry file (l & -> & Hl)%list_elem_of_fmap Hfile. simpl in Hfile.
    pose proof (proj1 (elem_of_distinct _ _) Hfile) as Hfile'.
    apply (Hread l); [|done].
    pose proof (proj1 (elem_of_distinct _ _) Hl) as Hl'.
    by apply list_elem_of_filter in Hl' as [_ Hl']. }
  simpl reported.
  destruct (filterFilesWithoutErrors_removes_nothing (Some config)
              (withoutSkipped (disk w) entries) w2 m)
    as (w3 & Hrun & Hm3 & Hframe & _);
    [apply withoutSkipped_nonempty | done |].
  rewrite run_bind, Hrun.
  rewrite run_bind, writeNewStylelintIgnore_run.
  rewrite newContent_linesText by apply withoutSkipped_nonempty.
  unfold entries. rewrite withoutSkipped_keys. fold lines.
  set (w4 := wrote _ _ w3).
  rewrite run_bind. unfold console_log at 1.
  rewrite reportSizeAndLength_run.
  assert (disk (said Success w4) !! ".stylelintignore"%string
          = Some (linesText lines)) as Hm4.
  { unfold w4, wrote, said. simpl. apply lookup_insert_eq. }
  rewrite Hm4. eexists. split; [reflexivity|]. split; [exact Hm4|]. split.
  - apply readline_linesText. apply Forall_forall. intros l Hl.
    apply list_elem_of_filter in Hl as [_ Hl].
    pose proof (proj1 (elem_of_distinct _ _) Hl) as Hl'.
    apply list_elem_of_filter in Hl' as [_ Hl'].
    by apply (proj1 (Forall_forall _ _) (readline_oneLine m)).
  - intros p Hp1 Hp2. simpl. rewrite lookup_insert_ne by done.
    by rewrite Hframe.
Qed.

(** X20.  What the compactor leaves of a manifest.  With the manifest and
    a configuration that parses, when every file a line resolves to can
    be read, the run ends well, whatever the lint engine answers, and the
    manifest then lists, each once and in the order they first occur, the
    lines that are neither blank nor a comment and resolve to at least one
    file that does not start with the blanket disable comment; it reads
    back as these lines, and nothing else but [hash] has changed. *)
Theorem compactor_output `{Externals} w m config :
  disk w !! ".stylelintignore"%string = Some m →
  disk w !! ".stylelintrc.json"%string ≫= JSON_parse = Some config →
  (∀ line file,
     line ∈ readline m → file ∈ glob_sync (disk w) (patternOf line) →
     is_Some (disk w !! file)) →
  let lines :=
    filter (λ l, Exists (λ file, skips (disk w) file = false)
                        (glob_sync (disk w) (patternOf l)))
           (distinct (filter (resolves (disk w)) (readline m))) in
  ∃ w',
    Compress.compressStylelintIgnore "." w = (Ok (), w')
    ∧ disk w' !! ".stylelintignore"%string = Some (linesText lines)
    ∧ readline (linesText lines) = lines
    ∧ ∀ p, p ≠ ".stylelintignore"%string → p ≠ "hash"%string →
           disk w' !! p = disk w !! p.
Proof. apply compress_lines_run. Qed.

(** X20, at a manifest with a comment, a directory whose only file starts
    with the blanket disable comment, and a file. *)
Lemma compactor_output_witness :
  let ext := tableExternals [("src/**/*.css", ["src/a.css"]);
                             ("b.css", ["b.css"])]%string
                            ["b.css"%string] in
  let m := ("# legacy" +:+ Js.newline +:+ "src/" +:+ Js.newline
            +:+ "b.css" +:+ Js.newline)%string in
  let w := diskOf [(".stylelintignore", m); (".stylelintrc.json", "{}");
                   ("src/a.css", "/* stylelint-disable */");
                   ("b.css", "a { }")]%string in
  ∃ w',
    Compress.compressStylelintIgnore "." w = (Ok (), w')
    ∧ disk w' !! ".stylelintignore"%string
      = Some (linesText ["b.css"%string])
    ∧ readline (linesText ["b.css"%string]) = ["b.css"%string]
    ∧ ∀ p, p ≠ ".stylelintignore"%string → p ≠ "hash"%string →
           disk w' !! p = disk w !! p.
Proof.
  intros ext m w.
  apply (@compactor_output ext w m ()).
  - reflexivity.
  - reflexivity.
  - intros line file Hline Hfile.
    change (readline m) with ["# legacy"; "src/"; "b.css"]%string in Hline.
    repeat (apply elem_of_cons in Hline as [->|Hline]).
    + by apply not_elem_of_nil in Hfile.
    + apply list_elem_of_singleton in Hfile as ->. by eexists.
    + apply list_elem_of_singleton in Hfile as ->. by eexists.
    + by apply not_elem_of_nil in Hline.
Defined.

(** ** Runs of the two scripts *)

Section script_runs.
Context `{Externals}.
Implicit Types (w : World).

Lemma hidden_disk w m :
  disk (hidden m w)
  = <["hash"%string := m]> (delete ".stylelintignore"%string (disk w)).
Proof. reflexivity. Qed.

End script_runs.

(** X21.  The compactor needs its manifest and its configuration.
    Without the manifest the size report has nothing to take apart: the
    run throws a [TypeError] right after printing the error of the missing
    file.  With the manifest and without a configuration that parses it
    throws the [TypeError] of the configuration reader after the first
    size report.  In both cases no file was renamed or written. *)
Theorem compactor_stops_early `{Externals} baseUrl w :
  (disk w !! path_join baseUrl ".stylelintignore" = None →
   Compress.compressStylelintIgnore baseUrl w
   = (Throw TypeError,
      said (ErrorAt (SizeAndLengthOf (path_join baseUrl ".stylelintignore"))
                    (NoFile (path_join baseUrl ".stylelintignore")))
           (said StartCompress w)))
  ∧ (∀ m,
       disk w !! path_join baseUrl ".stylelintignore" = Some m →
       disk w !! path_join baseUrl ".stylelintrc.json" ≫= JSON_parse = None →
       Compress.compressStylelintIgnore baseUrl w
       = (Throw TypeError,
          said (SizeAndLength (String.length m) (S (countOf Js.LF m)))
               (said StartCompress w))).
Proof.
  split.
  - intros Hm. unfold Compress.compressStylelintIgnore.
    rewrite run_bind. unfold console_log at 1.
    rewrite run_bind, reportSizeAndLength_run.
    change (disk (said StartCompress w)) with (disk w). by rewrite Hm.
  - intros m Hm Hconfig. unfold Compress.compressStylelintIgnore.
    rewrite run_bind. unfold console_log at 1.
    rewrite run_bind, reportSizeAndLength_run.
    change (disk (said StartCompress w)) with (disk w). rewrite Hm.
    rewrite run_bind, Compress_config_run.
    change (disk (said _ (said StartCompress w))) with (disk w).
    by rewrite Hconfig, length_split.
Qed.

(** X21, at an empty directory and at a manifest without configuration. *)
Lemma compactor_stops_early_witness :
  let ext := tableExternals [] [] in
  Compress.compressStylelintIgnore "." (diskOf [])
  = (Throw TypeError,
     said (ErrorAt (SizeAndLengthOf ".stylelintignore")
                   (NoFile ".stylelintignore"))
          (said StartCompress (diskOf [])))
  ∧ Compress.compressStylelintIgnore "."
      (diskOf [(".stylelintignore", "src/")]%string)
    = (Throw TypeError,
       said (SizeAndLength 4 1)
            (said StartCompress (diskOf [(".stylelintignore", "src/")]%string))).
Proof.
  intros ext. split.
  - apply (proj1 (@compactor_stops_early ext "."%string (diskOf []))).
    reflexivity.
  - apply (proj2 (@compactor_stops_early ext "."%string
                    (diskOf [(".stylelintignore", "src/")]%string))
             "src/"%string); reflexivity.
Defined.

(** X22.  The eliminator without a manifest.  The reader prints its error
    and returns [undefined]; the first count then renames a manifest that
    is not there: the run throws [ENOENT], having printed the start, at
    most the error of the configuration reader, and the error of the
    reader of the manifest, and having changed no file. *)
Theorem eliminator_stops_without_manifest `{Externals} w :
  disk w !! ".stylelintignore"%string = None →
  ∃ w' msgs,
    Delete.deleteStylelintIgnore "." w
    = (Throw (ENOENT ".stylelintignore"), w')
    ∧ disk w' = disk w ∧ trace w' = trace w
    ∧ console w'
      = console w ++ [StartDelete] ++ msgs
        ++ [ErrorAt ReadingIgnore (NoFile ".stylelintignore")]
    ∧ msgs = match disk w !! ".stylelintrc.json"%string with
             | None => [ErrorAt ReadingConfig (NoFile ".stylelintrc.json")]
             | Some data =>
                 match JSON_parse data with
                 | Some _ => []
                 | None => [ErrorAt ReadingConfig SyntaxError]
                 end
             end.
Proof.
  intros Hm. unfold Delete.deleteStylelintIgnore.
  change (path_join "." ".stylelintignore") with ".stylelintignore"%string.
  change (path_join "." ".stylelintrc.json") with ".stylelintrc.json"%string.
  rewrite run_bind. unfold console_log at 1.
  set (w1 := said StartDelete w).
  assert (∃ w2 msgs,
            Delete.getStylelintConfigContent ".stylelintrc.json" w1
            = (Ok (disk w !! ".stylelintrc.json"%string ≫= JSON_parse), w2)
            ∧ disk w2 = disk w ∧ trace w2 = trace w
            ∧ console w2 = console w ++ [StartDelete] ++ msgs
            ∧ msgs = match disk w !! ".stylelintrc.json"%string with
                     | None =>
                         [ErrorAt ReadingConfig (NoFile ".stylelintrc.json")]
                     | Some data =>
                         match JSON_parse data with
                         | Some _ => []
                         | None => [ErrorAt ReadingConfig SyntaxError]
                         end
                     end) as (w2 & msgs & Hconfig & Hd2 & Ht2 & Hc2 & Hmsgs).
  { unfold Delete.getStylelintConfigContent.
    rewrite run_tryCatch, run_bind, isFileExists_run.
    change (disk w1) with (disk w).
    destruct (disk w !! ".stylelintrc.json"%string) as [data|] eqn:Hd.
    - unfold readFile, parseConfig. rewrite run_bind.
      change (disk w1) with (disk w). rewrite Hd. simpl.
      rewrite run_bind. destruct (JSON_parse data) as [config|].
      + exists w1, []. by split_and!.
      + exists (said (ErrorAt ReadingConfig SyntaxError) w1),
          [ErrorAt ReadingConfig SyntaxError].
        split_and!; try done. simpl. by rewrite <- app_assoc.
    - exists (said (ErrorAt ReadingConfig (NoFile ".stylelintrc.json")) w1),
        [ErrorAt ReadingConfig (NoFile ".stylelintrc.json")].
      split_and!; try done. simpl. by rewrite <- app_assoc. }
  rewrite run_bind, Hconfig.
  rewrite run_bind, Delete_reader_run, Hd2, Hm.
  rewrite run_bind, getStylelintCountErrors_run. simpl disk. rewrite Hd2, Hm.
  eexists _, msgs. split; [reflexivity|]. split_and!; try done.
  simpl. rewrite Hc2. by rewrite <- !app_assoc.
Qed.

(** X22, at a directory with a configuration and no manifest. *)
Lemma eliminator_stops_without_manifest_witness :
  let ext := tableExternals [] [] in
  let w := diskOf [(".stylelintrc.json", "{}")]%string in
  ∃ w' msgs,
    Delete.deleteStylelintIgnore "." w
    = (Throw (ENOENT ".stylelintignore"), w')
    ∧ disk w' = disk w ∧ trace w' = trace w
    ∧ console w'
      = console w ++ [StartDelete] ++ msgs
        ++ [ErrorAt ReadingIgnore (NoFile ".stylelintignore")]
    ∧ msgs = match disk w !! ".stylelintrc.json"%string with
             | None => [ErrorAt ReadingConfig (NoFile ".stylelintrc.json")]
             | Some data =>
                 match JSON_parse data with
                 | Some _ => []
                 | None => [ErrorAt ReadingConfig SyntaxError]
                 end
             end.
Proof.
  intros ext w. apply (@eliminator_stops_without_manifest ext w).
  reflexivity.
Defined.

(** X23.  A run of the eliminator that goes well.  Say the manifest is
    there, no file is called [hash], the lint engine always answers, and
    the files the manifest resolves to can be read.  The writer is handed
    the files that do not start with the blanket disable comment; say the
    results with errors the engine gives for them are different files
    that can be read.  Then the run ends well; each of these files holds
    its lines with the block comments of its plan added; the manifest is
    empty if there was such a file and as before if not; no other file
    has changed; and the run has printed the start, the errors of the
    configuration reader if any, the count for the files of the manifest
    and the count for the files handed to the writer, taken after the
    pass. *)
Theorem eliminator_run `{Externals} w m results0 results :
  let config := disk w !! ".stylelintrc.json"%string ≫= JSON_parse in
  let files :=
    distinct (filter (λ l, isEmptyLine l = false ∧ isCommentLine l = false)
                     (readline m)
              ≫= λ l, glob_sync (disk w) (patternOf l)) in
  let files' := filter (λ file, skips (disk w) file = false) files in
  let m' := if bool_decide (Exists (λ r, errored r = true) results)
            then EmptyString else m in
  disk w !! ".stylelintignore"%string = Some m →
  disk w !! "hash"%string = None →
  (∀ d c fs, is_Some (stylelint_lint d c fs)) →
  (∀ file, file ∈ files → is_Some (disk w !! file)) →
  stylelint_lint (disk (hidden m w)) config files = Some results0 →
  stylelint_lint (disk (hidden m w)) config files' = Some results →
  NoDup (source <$> filter (λ r, errored r = true) results) →
  (∀ r, r ∈ results → errored r = true →
        is_Some (disk w !! source r) ∧ source r ≠ "hash"%string
        ∧ source r ≠ ".stylelintignore"%string) →
  ∃ w' results' msgs,
    Delete.deleteStylelintIgnore "." w = (Ok (), w')
    ∧ (∀ r data,
         r ∈ results → errored r = true → disk w !! source r = Some data →
         disk w' !! source r
         = Some (Js.join Js.newline
                   (commentedLines true (warnings r) (Js.split Js.LF data))))
    ∧ disk w' !! ".stylelintignore"%string = Some m'
    ∧ (∀ p, p ≠ ".stylelintignore"%string →
            (∀ r, r ∈ results → errored r = true → source r ≠ p) →
            disk w' !! p = disk w !! p)
    ∧ stylelint_lint (<["hash"%string := m']>
                        (delete ".stylelintignore"%string (disk w')))
                     config files' = Some results'
    ∧ Forall isErrorAt msgs
    ∧ console w'
      = console w ++ [StartDelete] ++ msgs
        ++ [ErrorsPrevious (Delete.countErrors results0);
            ErrorsCurrent (Delete.countErrors results')].
Proof.
  intros config files files' m' Hm Hhash Htotal Hread Hlint0 Hlint Hnd Hsrc.
  unfold Delete.deleteStylelintIgnore.
  change (path_join "." ".stylelintignore") with ".stylelintignore"%string.
  change (path_join "." ".stylelintrc.json") with ".stylelintrc.json"%string.
  rewrite run_bind. unfold console_log at 1.
  set (w1 := said StartDelete w).
  destruct (Delete_config_run ".stylelintrc.json" w1)
    as (w2 & Hconfig & Hd2 & (msgs & Hc2 & Hmsgs)).
  change (disk w1) with (disk w) in Hconfig, Hd2.
  rewrite run_bind, Hconfig. fold config.
  rewrite run_bind, Delete_reader_run, Hd2, Hm.
  unfold resolvedFiles.
  rewrite (resolvedFiles_distinct (disk w) (readline m) []).
  rewrite app_nil_l. fold files.
  rewrite run_bind, getStylelintCountErrors_run, Hd2, Hm.
  assert (disk (hidden m w2) = disk (hidden m w)) as Hh
    by (by rewrite !hidden_disk, Hd2).
  rewrite Hh, Hlint0.
  rewrite run_bind. unfold console_log at 1.
  set (w5 := said _ (shown m (hidden m w2))).
  assert (disk w5 = disk w) as Hd5.
  { transitivity (disk (shown m (hidden m w2))); [done|].
    rewrite shown_hidden_disk by (by rewrite Hd2).
    rewrite Hd2. by apply delete_id. }
  rewrite run_bind, Delete_filter_run, Hd5.
  destruct (kept_readable (disk w) files Hread) as [-> ->].
  fold files'. simpl reported.
  assert (disk w5 !! ".stylelintignore"%string = Some m) as Hm5
    by (by rewrite Hd5).
  assert (stylelint_lint (disk (hidden m w5)) config files' = Some results)
    as Hlint5.
  { assert (disk (hidden m w5) = disk (hidden m w)) as ->
      by (by rewrite !hidden_disk, Hd5).
    done. }
  assert (∀ r, r ∈ results → errored r = true →
               is_Some (disk w5 !! source r) ∧ source r ≠ "hash"%string
               ∧ source r ≠ ".stylelintignore"%string) as Hsrc5.
  { intros r Hr He. rewrite Hd5. by apply Hsrc. }
  destruct (addingComments_disk files' config true w5 m results
              Hm5 Hlint5 Hnd Hsrc5)
    as (w7 & Hrun & Hfiles & Hm7 & Hframe & Hhash7 & Hc7).
  rewrite run_bind, Hrun.
  rewrite run_bind, getStylelintCountErrors_run, Hm7. fold m'.
  destruct (Htotal (disk (hidden m' w7)) config files') as [results' Hlint'].
  rewrite Hlint'. unfold console_log.
  set (w8 := shown m' (hidden m' w7)).
  assert (disk w8 = disk w7) as Hd8.
  { unfold w8. rewrite shown_hidden_disk by done. by apply delete_id. }
  set (wend := said (ErrorsCurrent (Delete.countErrors results')) w8).
  exists wend, results', msgs. split; [reflexivity|].
  assert (disk wend = disk w7) as Hend by exact Hd8.
  assert (console wend
          = console w8 ++ [ErrorsCurrent (Delete.countErrors results')])
    as Hcend by reflexivity.
  rewrite Hend. split_and!.
  - intros r data Hr He Hd. apply Hfiles; [done..|]. by rewrite Hd5.
  - done.
  - intros p Hp1 Hp2. destruct (decide (p = "hash"%string)) as [->|Hp3].
    + by rewrite Hhash7, Hhash.
    + rewrite Hframe by done. by rewrite Hd5.
  - by rewrite <- hidden_disk.
  - done.
  - rewrite Hcend. unfold w8. rewrite shown_hidden_console, Hc7.
    assert (console w5
            = console (shown m (hidden m w2))
              ++ [ErrorsPrevious (Delete.countErrors results0)]) as ->
      by reflexivity.
    rewrite shown_hidden_console, Hc2.
    assert (console w1 = console w ++ [StartDelete]) as -> by reflexivity.
    by rewrite <- !app_assoc.
Qed.

(** X23, at a manifest of two files: one has an error at its second line,
    the other starts with the blanket disable comment. *)
Lemma eliminator_run_witness :
  let ext := tableExternals [("a.css", ["a.css"]); ("b.css", ["b.css"])]%string
                            ["a.css"%string] in
  let m := ("a.css" +:+ Js.newline +:+ "b.css" +:+ Js.newline)%string in
  let w := diskOf [(".stylelintignore", m); (".stylelintrc.json", "{}");
                   ("a.css", "a { }" +:+ Js.newline +:+ "b { }");
                   ("b.css", "/* stylelint-disable */")]%string in
  let error := {| severity := "error"; line := 2; endLine := 2; rule := "x" |} in
  let results0 :=
    [ {| source := "a.css"; errored := true; warnings := [error] |};
      {| source := "b.css"; errored := false; warnings := [] |} ] in
  let results :=
    [ {| source := "a.css"; errored := true; warnings := [error] |} ] in
  ∃ w' results' msgs,
    Delete.deleteStylelintIgnore "." w = (Ok (), w')
    ∧ (∀ r data,
         r ∈ results → errored r = true → disk w !! source r = Some data →
         disk w' !! source r
         = Some (Js.join Js.newline
                   (commentedLines true (warnings r) (Js.split Js.LF data))))
    ∧ disk w' !! ".stylelintignore"%string = Some EmptyString
    ∧ (∀ p, p ≠ ".stylelintignore"%string →
            (∀ r, r ∈ results → errored r = true → source r ≠ p) →
            disk w' !! p = disk w !! p)
    ∧ stylelint_lint (<["hash"%string := EmptyString]>
                        (delete ".stylelintignore"%string (disk w')))
                     (Some ()) ["a.css"%string] = Some results'
    ∧ Forall isErrorAt msgs
    ∧ console w'
      = console w ++ [StartDelete] ++ msgs
        ++ [ErrorsPrevious (Delete.countErrors results0);
            ErrorsCurrent (Delete.countErrors results')].
Proof.
  intros ext m w error results0 results.
  apply (@eliminator_run ext w m results0 results).
  - reflexivity.
  - reflexivity.
  - intros d c fs. by eexists.
  - intros file Hfile.
    change (file ∈ ["a.css"; "b.css"]%string) in Hfile.
    repeat (apply elem_of_cons in Hfile as [->|Hfile]);
      [by eexists | by eexists | by apply not_elem_of_nil in Hfile].
  - reflexivity.
  - reflexivity.
  - repeat constructor. by apply not_elem_of_nil.
  - intros r Hr He. apply list_elem_of_singleton in Hr as ->.
    by split; [eexists|].
Defined.

(** ** When the loop of the writer throws *)

Section writer_throws.
Context `{Externals}.
Implicit Types (w : World) (r : LintResult).

Lemma commentLoop_throws path b (results : list LintResult) w r :
  r ∈ results → errored r = true → disk w !! source r = None →
  source r ≠ path → path ≠ "hash"%string →
  (∀ r', r' ∈ results → errored r' = true → source r' ≠ "hash"%string) →
  ∃ e w',
    forOf results (Delete.commentFileStep path b) w = (Throw e, w')
    ∧ console w' = console w
    ∧ disk w' !! "hash"%string = disk w !! "hash"%string.
Proof.
  intros Hr He Hnone Hpath Hhash.
  revert w Hr Hnone. induction results as [|r0 rs IH]; intros w Hr Hnone Hsrc.
  { by apply not_elem_of_nil in Hr. }
  rewrite forOf_cons, commentFileStep_run.
  destruct (errored r0) eqn:He0.
  - destruct (disk w !! source r0) as [data|] eqn:Hd0.
    + apply elem_of_cons in Hr as [->|Hr]; [congruence|].
      set (w1 := wrote path EmptyString (wrote (source r0) _ w)).
      assert (source r ≠ source r0) as Hne by congruence.
      destruct (IH w1 Hr) as (e & w' & Hrun & Hc & Hh).
      { unfold w1, wrote. simpl. by rewrite !lookup_insert_ne. }
      { intros r' Hr'. apply Hsrc. by right. }
      exists e, w'. split_and!; [done|done|].
      rewrite Hh. unfold w1, wrote. simpl.
      rewrite !lookup_insert_ne; [done| |done].
      intros Heq. by apply (Hsrc r0 (list_elem_of_here _ _) He0).
    + by eexists _, _.
  - apply elem_of_cons in Hr as [->|Hr]; [congruence|].
    apply IH; [done..|]. intros r' Hr'. apply Hsrc. by right.
Qed.

Lemma distinct_NoDup {A} `{EqDecision A} (l : list A) :
  NoDup l → distinct l = l.
Proof.
  induction 1 as [|x l Hx Hl IH]; [done|]. simpl. rewrite IH. f_equal.
  apply filter_all. intros y Hy ->. done.
Qed.

End writer_throws.

(** X24.  A [catch] block that throws.  The [catch] blocks of the writer
    and of the query stage first rename [hash] back.  When the loop of
    the writer meets a file with errors that cannot be read, the manifest
    has its name again and no file is called [hash]: the rename in the
    [catch] block throws, the pass throws [ENOENT] for [hash], and the
    error of the file is never printed.  The query stage of the compactor
    handed [undefined] throws the same way. *)
Theorem catch_block_rename_throws `{Externals} :
  (∀ files path config b w m results r,
     disk w !! ".stylelintignore"%string = Some m →
     stylelint_lint (disk (hidden m w)) config files = Some results →
     path ≠ "hash"%string →
     (∀ r', r' ∈ results → errored r' = true → source r' ≠ "hash"%string) →
     r ∈ results → errored r = true → disk w !! source r = None →
     source r ≠ path →
     ∃ w',
       Delete.addingCommentsWithStylelintErrors (Some files) path config b w
       = (Throw (ENOENT "hash"), w')
       ∧ console w' = console w
       ∧ is_Some (disk w' !! ".stylelintignore"%string))
  ∧ (∀ config w,
       disk w !! "hash"%string = None →
       Compress.filterFilesWithoutErrors None config w
       = (Throw (ENOENT "hash"), w)).
Proof.
  split.
  - intros files path config b w m results r Hm Hlint Hpath Hsrc Hr He Hnone
      Hne.
    rewrite (addingComments_run files path config b w m results Hm Hlint).
    destruct (commentLoop_throws path b results (shown m (hidden m w)) r)
      as (e & w' & Hrun & Hc & Hh); [done..| |done|done|done|].
    { rewrite shown_hidden_lookup; [done..|]. by apply Hsrc. }
    rewrite Hrun. rewrite shown_hidden_disk, lookup_delete_eq in Hh by done.
    rewrite run_bind. unfold rename. rewrite Hh.
    exists w'. split_and!; [done|by rewrite Hc|].
    eapply commentLoop_preserves; [exact Hrun|].
    rewrite shown_manifest. by eexists.
  - intros config w Hh. unfold Compress.filterFilesWithoutErrors, withObject.
    rewrite run_tryCatch, run_bind. simpl.
    rewrite run_bind. unfold inWorld, rename. by rewrite Hh.
Qed.

(** X24, at a manifest whose file with an error is not there. *)
Lemma catch_block_rename_throws_witness :
  let ext := tableExternals [] ["a.css"%string] in
  let w := diskOf [(".stylelintignore", "a.css")]%string in
  (∃ w',
     Delete.addingCommentsWithStylelintErrors
       (Some ["a.css"%string]) ".stylelintignore" (Some ()) true w
     = (Throw (ENOENT "hash"), w')
     ∧ console w' = console w
     ∧ is_Some (disk w' !! ".stylelintignore"%string))
  ∧ Compress.filterFilesWithoutErrors None (Some ()) w
    = (Throw (ENOENT "hash"), w).
Proof.
  intros ext w. split.
  - apply (proj1 (@catch_block_rename_throws ext)
             ["a.css"%string] ".stylelintignore"%string (Some ()) true w
             "a.css"%string
             [ {| source := "a.css"; errored := true;
                  warnings := [ {| severity := "error"; line := 2;
                                   endLine := 2; rule := "x" |} ] |} ]
             {| source := "a.css"; errored := true;
                warnings := [ {| severity := "error"; line := 2;
                                 endLine := 2; rule := "x" |} ] |});
      try done.
    + intros r' Hr' _. by apply list_elem_of_singleton in Hr' as ->.
    + by left.
  - by apply (proj2 (@catch_block_rename_throws ext) (Some ()) w).
Defined.

(** X25.  Compacting twice is compacting once.  Say the pattern
    expansion does not look at the manifest or at [hash], and the files
    the manifest resolves to can be read and are neither of the two.
    Then a run of the compactor ends well, a second run on what the first
    left ends well too, and it leaves the manifest, and every file but
    [hash], as the first run left them. *)
Theorem compactor_idempotent `{Externals} w m config :
  disk w !! ".stylelintignore"%string = Some m →
  disk w !! ".stylelintrc.json"%string ≫= JSON_parse = Some config →
  (∀ d d' pattern,
     (∀ p, p ≠ ".stylelintignore"%string → p ≠ "hash"%string →
           d !! p = d' !! p) →
     glob_sync d pattern = glob_sync d' pattern) →
  (∀ line file,
     line ∈ readline m → file ∈ glob_sync (disk w) (patternOf line) →
     is_Some (disk w !! file) ∧ file ≠ ".stylelintignore"%string
     ∧ file ≠ "hash"%string) →
  ∃ w1 w2,
    Compress.compressStylelintIgnore "." w = (Ok (), w1)
    ∧ Compress.compressStylelintIgnore "." w1 = (Ok (), w2)
    ∧ disk w2 !! ".stylelintignore"%string
      = disk w1 !! ".stylelintignore"%string
    ∧ ∀ p, p ≠ "hash"%string → disk w2 !! p = disk w1 !! p.
Proof.
  intros Hm Hconfig Hglob Hread.
  destruct (compress_lines_run w m config Hm Hconfig)
    as (w1 & Hrun1 & Hm1 & Hlines1 & Hframe1).
  { intros line file Hl Hf. by destruct (Hread line file Hl Hf). }
  set (lines := filter (λ l, Exists (λ file, skips (disk w) file = false)
                                    (glob_sync (disk w) (patternOf l)))
                  (distinct (filter (resolves (disk w)) (readline m)))) in *.
  assert (∀ pattern, glob_sync (disk w1) pattern = glob_sync (disk w) pattern)
    as Hg.
  { intros pattern. apply Hglob. intros p Hp1 Hp2. by apply Hframe1. }
  assert (∀ l, l ∈ lines →
               l ∈ readline m ∧ resolves (disk w) l
               ∧ Exists (λ file, skips (disk w) file = false)
                        (glob_sync (disk w) (patternOf l))) as Hin.
  { intros l Hl. apply list_elem_of_filter in Hl as [Hex Hl].
    pose proof (proj1 (elem_of_distinct _ _) Hl) as Hl'.
    by apply list_elem_of_filter in Hl' as [Hres Hl']. }
  assert (NoDup lines) as Hnd by (apply NoDup_filter, NoDup_distinct).
  assert (∀ l file, l ∈ lines → file ∈ glob_sync (disk w) (patternOf l) →
                    disk w1 !! file = disk w !! file) as Hsame.
  { intros l file Hl Hf. destruct (Hin l Hl) as (Hl' & _).
    destruct (Hread l file Hl' Hf) as (_ & ? & ?). by apply Hframe1. }
  destruct (compress_lines_run w1 (linesText lines) config)
    as (w2 & Hrun2 & Hm2 & _ & Hframe2).
  { done. }
  { rewrite Hframe1 by done. done. }
  { intros line file Hl Hf. rewrite Hlines1 in Hl. rewrite Hg in Hf.
    rewrite (Hsame line file Hl Hf). destruct (Hin line Hl) as (Hl' & _).
    by destruct (Hread line file Hl' Hf). }
  exists w1, w2. split; [done|]. split; [done|].
  assert (disk w2 !! ".stylelintignore"%string
          = disk w1 !! ".stylelintignore"%string) as Hsame2.
  { rewrite Hm2, Hm1, Hlines1. do 2 f_equal.
    rewrite (filter_all (resolves (disk w1))).
    2:{ intros l Hl. destruct (Hin l Hl) as (_ & (He & Hc & Hne) & _).
        unfold resolves. by rewrite Hg. }
    rewrite distinct_NoDup by done.
    apply filter_all. intros l Hl. destruct (Hin l Hl) as (_ & _ & Hex).
    rewrite Hg. apply Exists_exists in Hex as (file & Hf & Hs).
    apply Exists_exists. exists file. split; [done|].
    unfold skips in *. by rewrite (Hsame l file Hl Hf). }
  split; [done|]. intros p Hp.
  destruct (decide (p = ".stylelintignore"%string)) as [->|Hp']; [done|].
  by apply Hframe2.
Qed.

(** X25, at a manifest with a comment, a directory whose only file starts
    with the blanket disable comment, and a file. *)
Lemma compactor_idempotent_witness :
  let ext := tableExternals [("src/**/*.css", ["src/a.css"]);
                             ("b.css", ["b.css"])]%string
                            ["b.css"%string] in
  let m := ("# legacy" +:+ Js.newline +:+ "src/" +:+ Js.newline
            +:+ "b.css" +:+ Js.newline)%string in
  let w := diskOf [(".stylelintignore", m); (".stylelintrc.json", "{}");
                   ("src/a.css", "/* stylelint-disable */");
                   ("b.css", "a { }")]%string in
  ∃ w1 w2,
    Compress.compressStylelintIgnore "." w = (Ok (), w1)
    ∧ Compress.compressStylelintIgnore "." w1 = (Ok (), w2)
    ∧ disk w2 !! ".stylelintignore"%string
      = disk w1 !! ".stylelintignore"%string
    ∧ ∀ p, p ≠ "hash"%string → disk w2 !! p = disk w1 !! p.
Proof.
  intros ext m w.
  apply (@compactor_idempotent ext w m ()).
  - reflexivity.
  - reflexivity.
  - intros d d' pattern _. reflexivity.
  - intros line file Hline Hfile.
    change (readline m) with ["# legacy"; "src/"; "b.css"]%string in Hline.
    repeat (apply elem_of_cons in Hline as [->|Hline]).
    + by apply not_elem_of_nil in Hfile.
    + apply list_elem_of_singleton in Hfile as ->. by split; [eexists|].
    + apply list_elem_of_singleton in Hfile as ->. by split; [eexists|].
    + by apply not_elem_of_nil in Hline.
Defined.

(** ** The writer in block mode, over a plan *)

Section block_loop.
Implicit Types (buf pre rest : list string).
Implicit Types (ranges : list (Z * Z * list string)).

Lemma blockLoop_from ranges done pre rest c :
  0 ≤ c → 0 ≤ done → Z.of_nat (length pre) = done + c →
  ordered done ranges (done + Z.of_nat (length rest)) →
  foldl (commentStep true) (pre ++ rest, c) (planEntry <$> ranges)
  = (pre ++ bracketed done ranges rest, c + 2 * Z.of_nat (length ranges)).
Proof.
  revert done pre rest c.
  induction ranges as [|[[s e] rules] ranges IH];
    intros done pre rest c Hc Hdone Hpre Hord.
  { simpl. f_equal. lia. }
  destruct Hord as (Hs & Hse & He & Hord).
  rewrite fmap_cons. cbn [foldl].
  change (planEntry (s, e, rules)) with (key s e, rules).
  rewrite (commentStep_block_shape (pre ++ rest) c (key s e) rules s e);
    [|apply startLineOf_key|apply endLineOf_key|lia|lia|
     rewrite length_app; lia].
  set (i := Z.to_nat (s - 1 - done)). set (n := Z.to_nat (e - s + 1)).
  replace (Z.to_nat (s - 1 + c)) with (length pre + i)%nat by lia.
  replace (Z.to_nat (e + c)) with (length pre + Z.to_nat (e - done))%nat
    by lia.
  rewrite take_app_add, !drop_app_add.
  set (rest' := drop (Z.to_nat (e - done)) rest).
  set (pre' := (pre ++ take i rest)
                 ++ comment rules "disable" :: take n (drop i rest)
                 ++ [comment rules "enable"]).
  assert ((pre ++ take i rest)
          ++ helperCommentDisableFromArrayRules rules "disable"
          :: take n (drop i rest)
          ++ helperCommentDisableFromArrayRules rules "enable" :: rest'
          = pre' ++ rest') as ->.
  { unfold pre', comment. rewrite <- !app_assoc. simpl.
    by rewrite <- !app_assoc. }
  rewrite (IH e pre' rest' (c + 2)).
  - f_equal.
    + unfold pre', rest'. cbn [bracketed]. fold i n.
      rewrite <- !app_assoc. simpl. by rewrite <- !app_assoc.
    + simpl length. lia.
  - lia.
  - lia.
  - unfold pre'. rewrite !length_app. simpl. rewrite !length_app. simpl.
    rewrite !length_take, length_drop. lia.
  - unfold rest'. rewrite length_drop.
    replace (e + Z.of_nat (length rest - Z.to_nat (e - done)))
      with (done + Z.of_nat (length rest)) by lia.
    done.
Qed.

Lemma blockStep_overlap buf s1 e1 s2 e2 rules1 rules2 :
  1 ≤ s1 → s1 < s2 → s2 ≤ e1 → s2 ≤ e2 → e1 ≤ Z.of_nat (length buf) →
  ∃ final,
    commentLoop true [(key s1 e1, rules1); (key s2 e2, rules2)] buf
    = (final, 4)
    ∧ final !! Z.to_nat s2 = buf !! Z.to_nat (s2 - 1)
    ∧ final !! Z.to_nat (s2 + 1) = Some (comment rules2 "disable").
Proof.
  intros Hs1 Hs12 Hs2e1 Hs2e2 He1. unfold commentLoop. cbn [foldl].
  rewrite (commentStep_block_shape buf 0 (key s1 e1) rules1 s1 e1);
    [|apply startLineOf_key|apply endLineOf_key|lia..].
  set (mid := take _ buf ++ _).
  assert (length mid = (length buf + 2)%nat) as Hlen.
  { unfold mid. rewrite length_app, length_take. simpl.
    rewrite length_app, length_take, length_drop. simpl.
    rewrite length_drop. lia. }
  assert (mid !! Z.to_nat s2 = buf !! Z.to_nat (s2 - 1)) as Hline.
  { unfold mid.
    replace (Z.to_nat s2) with (S (Z.to_nat (s2 - 1))) by lia.
    replace (s1 - 1 + 0) with (s1 - 1) by lia.
    rewrite lookup_app_r by (rewrite length_take; lia).
    rewrite length_take.
    replace (S (Z.to_nat (s2 - 1)) - Z.to_nat (s1 - 1) `min` length buf)%nat
      with (S (Z.to_nat (s2 - s1))) by lia.
    simpl. rewrite lookup_app_l by (rewrite length_take, length_drop; lia).
    rewrite lookup_take_lt by lia. rewrite lookup_drop. f_equal. lia. }
  rewrite (commentStep_block mid (0 + 2) (key s2 e2) rules2 s2 e2);
    [|apply startLineOf_key|apply endLineOf_key].
  eexists. split; [reflexivity|].
  rewrite (splice_in_range mid) by lia.
  set (i := Z.to_nat (s2 - 1 + (0 + 2))).
  assert (i = Z.to_nat (s2 + 1)) as Hi by lia.
  set (arr := take i mid ++ _).
  assert (length arr = S (length mid)) as Hlen'.
  { unfold arr. rewrite length_app, length_take. simpl.
    rewrite length_drop. lia. }
  unfold Js.splice. set (j := Js.spliceStart _ _).
  assert (i < j)%nat as Hj.
  { unfold j, Js.spliceStart. destruct (Z.ltb_spec (e2 + 1 + (0 + 2)) 0); lia. }
  pose proof (spliceStart_le (length arr) (Some (e2 + 1 + (0 + 2)))) as Hj'.
  fold j in Hj'. split.
  - rewrite lookup_insert_before by lia. unfold arr.
    rewrite lookup_insert_before by lia. done.
  - rewrite <- Hi. rewrite lookup_insert_before by lia. unfold arr.
    apply lookup_insert_at. lia.
Qed.

End block_loop.

(** X26.  The writer in block mode, over a whole plan.  When the ranges
    of the plan are lines of the file and lie one after another, the loop
    puts each range between the disable comment and the enable comment
    for its rules and leaves every other line where it was: the result is
    the file with each range bracketed, and the counter ends at twice the
    number of ranges. *)
Theorem block_mode_brackets_every_range buf ranges :
  ordered 0 ranges (Z.of_nat (length buf)) →
  commentLoop true (planEntry <$> ranges) buf
  = (bracketed 0 ranges buf, 2 * Z.of_nat (length ranges))
  ∧ ∀ ws, planOf ws = planEntry <$> ranges →
          commentedLines true ws buf = bracketed 0 ranges buf.
Proof.
  intros Hord.
  assert (commentLoop true (planEntry <$> ranges) buf
          = (bracketed 0 ranges buf, 2 * Z.of_nat (length ranges))) as Hrun.
  { unfold commentLoop.
    change (foldl (commentStep true) (buf, 0))
      with (foldl (commentStep true) ([] ++ buf, 0)).
    rewrite (blockLoop_from ranges 0 [] buf 0); [done|lia|lia|done|].
    by rewrite Z.add_0_l. }
  split; [done|]. intros ws Hplan.
  change (commentedLines true ws buf) with (commentLoop true (planOf ws) buf).1.
  by rewrite Hplan, Hrun.
Qed.

(** X26, at a file of five lines with errors at line 2 and at the lines
    4 to 5. *)
Lemma block_mode_brackets_every_range_witness :
  let buf := ["a"; "b"; "c"; "d"; "e"]%string in
  let ws := [ {| severity := "error"; line := 4; endLine := 5; rule := "y" |};
              {| severity := "error"; line := 2; endLine := 2; rule := "x" |} ] in
  let ranges := [(2, 2, ["x"%string]); (4, 5, ["y"%string])] in
  commentedLines true ws buf
  = ["a"; "/* stylelint-disable x */"; "b"; "/* stylelint-enable x */"; "c";
     "/* stylelint-disable y */"; "d"; "e"; "/* stylelint-enable y */"]%string.
Proof.
  intros buf ws ranges.
  apply (proj2 (block_mode_brackets_every_range buf ranges
                  ltac:(simpl; lia)) ws).
  reflexivity.
Defined.

(** X27.  Block mode and ranges that overlap.  The index of a disable
    comment counts two lines for every entry before it, also when the
    enable comment of that entry comes after the line.  So when an entry
    starts inside the range of the entry before it, its disable comment
    is put after the line it starts at, not before it: the line stays
    outside the block of its own entry. *)
Theorem block_mode_overlap_starts_late buf s1 e1 s2 e2 rules1 rules2 :
  1 ≤ s1 → s1 < s2 → s2 ≤ e1 → s2 ≤ e2 → e1 ≤ Z.of_nat (length buf) →
  ∃ final,
    commentLoop true [(key s1 e1, rules1); (key s2 e2, rules2)] buf
    = (final, 4)
    ∧ final !! Z.to_nat s2 = buf !! Z.to_nat (s2 - 1)
    ∧ final !! Z.to_nat (s2 + 1) = Some (comment rules2 "disable").
Proof. apply blockStep_overlap. Qed.

(** X27, at three lines, a range over all of them and line 2. *)
Lemma block_mode_overlap_starts_late_witness :
  let buf := ["a"; "b"; "c"]%string in
  ∃ final,
    commentLoop true [(key 1 3, ["x"%string]); (key 2 2, ["y"%string])] buf
    = (final, 4)
    ∧ final !! Z.to_nat 2 = buf !! Z.to_nat (2 - 1)
    ∧ final !! Z.to_nat (2 + 1) = Some (comment ["y"%string] "disable").
Proof.
  intros buf.
  apply (block_mode_overlap_starts_late buf 1 3 2 2); simpl; lia.
Defined.

(** X28.  The filter of the compactor when every file can be read: each
    entry loses the files that start with the blanket disable comment,
    an entry left without a file is deleted, the others keep their
    order, and nothing is printed or written. *)
Theorem compactor_filter_readable entries w :
  NoDup entries.*1 →
  (∀ entry file, entry ∈ entries → file ∈ entry.2 →
                 is_Some (disk w !! file)) →
  Compress.filterFilesWithDisableComment (Some entries) w
  = (Ok (Some (withoutSkipped (disk w) entries)), w).
Proof.
  intros Hnd Hread. rewrite Compress_filter_run by done.
  by destruct (keptEntries_readable (disk w) entries Hread) as [-> ->].
Qed.

(** X28, at two entries, one of which is left without a file. *)
Lemma compactor_filter_readable_witness :
  let w := diskOf [("a.css", "/* stylelint-disable */"); ("b.css", "a { }")]%string in
  Compress.filterFilesWithDisableComment
    (Some [("src/", ["a.css"]); ("lib/", ["a.css"; "b.css"])]%string) w
  = (Ok (Some [("lib/", ["b.css"])]%string), w).
Proof.
  intros w.
  apply (compactor_filter_readable
           [("src/", ["a.css"]); ("lib/", ["a.css"; "b.css"])]%string w).
  - simpl. apply NoDup_cons. split; [|apply NoDup_singleton].
    intros Hin. apply list_elem_of_singleton in Hin. discriminate.
  - intros entry file Hentry Hfile.
    repeat (apply elem_of_cons in Hentry as [->|Hentry]);
      [| |by apply not_elem_of_nil in Hentry]; simpl in Hfile;
      repeat (apply elem_of_cons in Hfile as [->|Hfile]);
      (by eexists) || (by apply not_elem_of_nil in Hfile).
Defined.
